(** * generate-download-chart.js: the data pipeline, embedded and verified

    A shallow embedding of the data-processing part of
    [generate-download-chart.js] (lines 37-333): the construction of
    [dataPoints], the per-point current-version tag, the discovery and
    semantic ordering of version releases, the per-release metrics and the
    two rolling averages.

    Conventions of the embedding.
    - JavaScript numbers are integers here ([Z]); a value that may be [NaN]
      is an [option Z] with [None] for [NaN].  Arithmetic is exact.  The
      script only divides under [Math.round], and for counters below 2^45
      and periods of less than a hundred thousand years the rounded double
      quotient is the rounded exact quotient, which is what [round_div]
      computes.  What [Number] reads from a string can also be a fraction
      or an infinity; it is a [JsNumber], with exact rationals for the
      finite values.  The script only compares such numbers, and for
      integers below 2^53 and decimal literals of at most 15 significant
      digits within the range of a double, the order of the doubles is the
      order of the exact values.
    - Strings are [string]; version identifiers, keys and the plugin name
      are ASCII, one [ascii] per character.
    - A parsed JSON object is the list of its entries in property order
      (what [Object.entries] returns); its keys are pairwise distinct.
    - The script is a straight-line top-level program; each [const] becomes
      a function of what it is computed from, and the statements that can
      throw on a parsed history file are kept as explicit [Throw]s: the
      [toISOString] of line 85 on an invalid date and the read of
      [dataPoints[0].date] at line 93 on an empty array. *)

From Stdlib Require Import ZArith QArith Qcanon Ascii String List.
From Stdlib Require Import Sorting.Sorted Sorting.Permutation.
From stdpp Require Import base decidable numbers option list strings gmap.

Local Open Scope string_scope.
Local Open Scope Z_scope.

(** ** JavaScript primitives used by the script *)

Module Js.

(** JSON values of a field of a history record: a number, or one of the
    other falsy values of JSON, [null], [false] and the empty string.  (The
    extraction writes numbers; [true], a non-empty string, an array or an
    object in a field is outside the history files modelled.)  A key that is
    absent from an object reads as [undefined], modelled by a failed
    lookup. *)
Inductive JsVal : Type :=
  | JNull
  | JNum (z : Z)
  | JFalse
  | JEmptyString.

Definition JsObject : Type := list (string * JsVal).

(** [o[k]]: the value stored under [k], [None] for [undefined]. *)
Fixpoint get (k : string) (o : JsObject) : option JsVal :=
  match o with
  | [] => None
  | (k', v) :: o' => if String.eqb k' k then Some v else get k o'
  end.

(** [Object.keys(o)] *)
Definition keys (o : JsObject) : list string := map fst o.

(** Truthiness of a property read: [undefined], [null], [false], the empty
    string and [0] are falsy. *)
Definition truthy (v : option JsVal) : bool :=
  match v with
  | Some (JNum z) => negb (z =? 0)
  | _ => false
  end.

(** [v || 0] for a property read [v]. *)
Definition or_zero (v : option JsVal) : Z :=
  match v with
  | Some (JNum z) => if z =? 0 then 0 else z
  | _ => 0
  end.

(** [x || 0] for a number [x] that may be [NaN] or [undefined]. *)
Definition num_or_zero (x : option Z) : Z :=
  match x with
  | Some z => z
  | None => 0
  end.

(** Outcome of running a piece of script: a value, or a thrown exception. *)
Inductive JsError : Type :=
  | TypeError (msg : string)
  | RangeError (msg : string).

Inductive Completion (A : Type) : Type :=
  | Normal (a : A)
  | Throw (e : JsError).
Arguments Normal {A} a.
Arguments Throw {A} e.

(** [Math.round(n / d)] for integers [n] and [d > 0]: the quotient rounded to
    the nearest integer, a half rounding towards plus infinity. *)
Definition round_div (n d : Z) : Z := (2 * n + d) / (2 * d).

(** *** Strings *)

Definition is_digit (c : ascii) : bool :=
  let n := nat_of_ascii c in (48 <=? n)%nat && (n <=? 57)%nat.

Definition digit_val (c : ascii) : Z := Z.of_nat (nat_of_ascii c) - 48.

(** White space skipped by [parseInt] and trimmed by [Number] (ASCII part). *)
Definition is_space (c : ascii) : bool :=
  let n := nat_of_ascii c in
  ((9 <=? n)%nat && (n <=? 13)%nat) || (n =? 32)%nat.

(** [s.split(sep)] for a separator that is one character out of a class:
    [split_on (fun c => c = ".") s] is [s.split(".")], and the class of
    ["-"] and ["+"] gives [s.split(/[-+]/)].  The result is never empty. *)
Fixpoint split_on (sep : ascii -> bool) (s : string) : list string :=
  match s with
  | EmptyString => [EmptyString]
  | String c s' =>
      if sep c then EmptyString :: split_on sep s'
      else match split_on sep s' with
           | [] => [String c EmptyString]
           | h :: t => String c h :: t
           end
  end.

Definition is_dot (c : ascii) : bool := Ascii.eqb c ".".
Definition is_hyphen (c : ascii) : bool := Ascii.eqb c "-".
Definition is_hyphen_or_plus (c : ascii) : bool :=
  Ascii.eqb c "-" || Ascii.eqb c "+".

(** [s.includes("-")] *)
Fixpoint includes_hyphen (s : string) : bool :=
  match s with
  | EmptyString => false
  | String c s' => is_hyphen c || includes_hyphen s'
  end.

Fixpoint skip_spaces (s : string) : string :=
  match s with
  | String c s' => if is_space c then skip_spaces s' else s
  | EmptyString => s
  end.

(** The longest prefix of decimal digits, read most significant first:
    [(value so far, digits seen)]. *)
Fixpoint digits_prefix (acc : Z) (seen : bool) (s : string) : Z * bool :=
  match s with
  | String c s' =>
      if is_digit c then digits_prefix (10 * acc + digit_val c) true s'
      else (acc, seen)
  | EmptyString => (acc, seen)
  end.

(** [parseInt(s, 10)]: leading white space, an optional sign, then the
    longest run of digits; [NaN] when there is no digit. *)
Definition parseInt (s : string) : option Z :=
  let s1 := skip_spaces s in
  let '(neg, s2) :=
    match s1 with
    | String c s' =>
        if Ascii.eqb c "-" then (true, s')
        else if Ascii.eqb c "+" then (false, s')
        else (false, s1)
    | EmptyString => (false, s1)
    end in
  match digits_prefix 0 false s2 with
  | (v, true) => Some (if neg then - v else v)
  | (_, false) => None
  end.

Fixpoint all_digits (s : string) : bool :=
  match s with
  | EmptyString => true
  | String c s' => is_digit c && all_digits s'
  end.

Fixpoint rev_string (acc s : string) : string :=
  match s with
  | EmptyString => acc
  | String c s' => rev_string (String c acc) s'
  end.

Definition trim (s : string) : string :=
  rev_string "" (skip_spaces (rev_string "" (skip_spaces s))).

(** *** Numbers read from strings *)

(** A number as [Number] can return it: [NaN], a finite value or an
    infinity.  ([-0] is the finite value 0: the script only tests it with
    [||] and [!==], which do not tell it from [0].) *)
Inductive JsNumber : Type :=
  | NaN
  | Finite (q : Qc)
  | Infinity (negative : bool).

(** The value [m * 10^x] of a decimal literal. *)
Definition decimalValue (m x : Z) : Qc :=
  (Q2Qc (inject_Z m) * Q2Qc (Qpower (inject_Z 10) x))%Qc.

(** The value of a digit of a radix up to 16. *)
Definition radixDigit (c : ascii) : option Z :=
  let n := nat_of_ascii c in
  if is_digit c then Some (Z.of_nat n - 48)
  else if (97 <=? n)%nat && (n <=? 102)%nat then Some (Z.of_nat n - 87)
  else if (65 <=? n)%nat && (n <=? 70)%nat then Some (Z.of_nat n - 55)
  else None.

(** The value of a run of digits of [radix], [None] when a character is not
    such a digit. *)
Fixpoint radixDigits (radix acc : Z) (s : string) : option Z :=
  match s with
  | EmptyString => Some acc
  | String c s' =>
      match radixDigit c with
      | Some d => if d <? radix then radixDigits radix (radix * acc + d) s' else None
      | None => None
      end
  end.

(** [0x], [0o] or [0b] in either case, followed by at least one digit of the
    radix. *)
Definition nonDecimalIntegerLiteral (t : string) : option Z :=
  match t with
  | String "0" (String c (String d body)) =>
      let radix :=
        if Ascii.eqb c "x" || Ascii.eqb c "X" then 16
        else if Ascii.eqb c "o" || Ascii.eqb c "O" then 8
        else if Ascii.eqb c "b" || Ascii.eqb c "B" then 2
        else 0 in
      if radix =? 0 then None else radixDigits radix 0 (String d body)
  | _ => None
  end.

(** [s] cut at its first character of the class [p]: the text before it and,
    when there is such a character, the text after it. *)
Fixpoint breakAt (p : ascii -> bool) (s : string) : string * option string :=
  match s with
  | EmptyString => (EmptyString, None)
  | String c s' =>
      if p c then (EmptyString, Some s')
      else let '(before, after) := breakAt p s' in (String c before, after)
  end.

Definition is_exponent_indicator (c : ascii) : bool :=
  Ascii.eqb c "e" || Ascii.eqb c "E".

(** A non-empty run of decimal digits. *)
Definition decimalDigits (s : string) : option Z :=
  match s with
  | EmptyString => None
  | _ => if all_digits s then Some (fst (digits_prefix 0 false s)) else None
  end.

(** The digits of an exponent with their optional sign. *)
Definition signedInteger (s : string) : option Z :=
  match s with
  | String c s' =>
      if Ascii.eqb c "-" then Z.opp <$> decimalDigits s'
      else if Ascii.eqb c "+" then decimalDigits s'
      else decimalDigits s
  | EmptyString => None
  end.

(** An unsigned decimal literal other than [Infinity]: digits with an
    optional fraction, or a fraction alone, and an optional exponent. *)
Definition unsignedDecimalLiteral (s : string) : option Qc :=
  let '(mantissa, exponentPart) := breakAt is_exponent_indicator s in
  let '(intDigits, fractionPart) := breakAt is_dot mantissa in
  let fracDigits := default EmptyString fractionPart in
  if all_digits intDigits && all_digits fracDigits
     && negb (String.eqb intDigits "" && String.eqb fracDigits "")
  then
    exponent ← match exponentPart with
               | Some e => signedInteger e
               | None => Some 0
               end;
    Some (decimalValue (fst (digits_prefix 0 false (intDigits ++ fracDigits)))
                       (exponent - Z.of_nat (String.length fracDigits)))
  else None.

(** [Number(s)], the conversion of a string to a number: white space is
    trimmed; the empty string is [0]; a binary, octal or hexadecimal integer
    literal is its value; an optionally signed decimal literal or [Infinity]
    is its value; anything else is [NaN]. *)
Definition Number (s : string) : JsNumber :=
  let t := trim s in
  match t with
  | EmptyString => Finite 0%Qc
  | String c t' =>
      match nonDecimalIntegerLiteral t with
      | Some z => Finite (Q2Qc (inject_Z z))
      | None =>
          let '(neg, body) :=
            if Ascii.eqb c "-" then (true, t')
            else if Ascii.eqb c "+" then (false, t')
            else (false, t) in
          if String.eqb body "Infinity" then Infinity neg
          else match unsignedDecimalLiteral body with
               | Some q => Finite (if neg then (- q)%Qc else q)
               | None => NaN
               end
      end
  end.

(** [x || 0] for a number [x] that may be [undefined]: [NaN] and [0] are
    falsy. *)
Definition number_or_zero (x : option JsNumber) : JsNumber :=
  match x with
  | Some (Finite q) => Finite q
  | Some (Infinity negative) => Infinity negative
  | Some NaN | None => Finite 0%Qc
  end.

(** [a === b] on numbers. *)
Definition strictEquals (a b : JsNumber) : bool :=
  match a, b with
  | Finite p, Finite q => match Qccompare p q with Eq => true | _ => false end
  | Infinity m, Infinity n => Bool.eqb m n
  | _, _ => false
  end.

(** [a - b] on numbers. *)
Definition minus (a b : JsNumber) : JsNumber :=
  match a, b with
  | NaN, _ | _, NaN => NaN
  | Finite p, Finite q => Finite (p - q)%Qc
  | Finite _, Infinity n => Infinity (negb n)
  | Infinity m, Finite _ => Infinity m
  | Infinity m, Infinity n => if Bool.eqb m n then NaN else Infinity m
  end.

(** What [Array.prototype.sort] makes of the number a comparator returns:
    its sign, [NaN] counting as [0]. *)
Definition comparatorSign (v : JsNumber) : Z :=
  match v with
  | NaN => 0
  | Finite q => match Qccompare q 0%Qc with Lt => -1 | Eq => 0 | Gt => 1 end
  | Infinity negative => if negative then -1 else 1
  end.

(** *** [Array.prototype.sort]

    The sort is stable, and for a consistent comparator its result is
    determined: the elements in comparator order, equal elements in their
    original order.  A stable insertion sort computes it; an element moves
    in front of [y] when the comparator does not put it after [y]. *)
Section Sort.
Context {A : Type} (cmp : A -> A -> Z).

Fixpoint insert_by (x : A) (l : list A) : list A :=
  match l with
  | [] => [x]
  | y :: l' => if cmp x y <=? 0 then x :: l else y :: insert_by x l'
  end.

Definition sort_by (l : list A) : list A := foldr insert_by [] l.

End Sort.

(** [a.slice(start, stop)] for [0 <= start]. *)
Definition slice {A : Type} (start stop : nat) (l : list A) : list A :=
  take (stop - start) (drop start l).

(** Sequencing of completions. *)
Definition bind {A B : Type} (c : Completion A) (k : A -> Completion B) : Completion B :=
  match c with
  | Normal a => k a
  | Throw e => Throw e
  end.

Fixpoint collect {A : Type} (l : list (Completion A)) : Completion (list A) :=
  match l with
  | [] => Normal []
  | c :: l' => bind c (fun a => bind (collect l') (fun r => Normal (a :: r)))
  end.

End Js.

Import Js.

(** [Completion] as a monad, for the binder notation [x ← c; k]. *)
#[global] Instance Completion_ret : MRet Completion := @Normal.
#[global] Instance Completion_bind : MBind Completion :=
  fun A B k c => bind c k.

(** ** The data model of the script *)

(** An element of [dataPoints] (lines 39-52).  [date] is the instant in
    milliseconds that [new Date(parseInt(timestamp))] denotes. *)
Module DataPoint.
Record t : Type := mk {
  date : Z;
  downloads : Z;
  dailyGrowth : Z;
  versions : JsObject;
}.
End DataPoint.

(** An element of [versionReleases] as pushed by the discovery loop
    (lines 114-119). *)
Module Release.
Record t : Type := mk {
  version : string;
  date : Z;
  index : nat;
  downloads : Z;
}.
End Release.

(** An element of [versionReleases] after the metrics loop (lines 247-250,
    173-176) has added its four fields. *)
Record VersionRelease : Type := mkVersionRelease {
  release : Release.t;
  endDownloads : Z;
  downloadChange : Z;
  durationDays : Z;
  avgDailyGrowth : Z;
}.

(** The history file after [JSON.parse]: for every key the pair of
    [parseInt(timestamp)] and [entry.data], in [Object.entries] order. *)
Definition History : Type := list (Z * JsObject).

(** ** Lines 37-53: [dataPoints] *)

Definition reservedKey (key : string) : bool :=
  String.eqb key "downloads" || String.eqb key "updated"
  || String.eqb key "dailyGrowth".

(** [acc[version] = count] on the plain object [acc] (line 49): it adds the
    property [version], except for the key [__proto__], for which the
    assignment runs the setter that [acc] inherits from [Object.prototype]
    and adds no property. *)
Definition assign (acc : JsObject) (version : string) (count : JsVal) : JsObject :=
  if String.eqb version "__proto__" then acc else (acc ++ [(version, count)])%list.

(** The filter and the [reduce] of lines 44-51. *)
Definition versionsOf (data : JsObject) : JsObject :=
  foldl (fun acc kv => assign acc (fst kv) (snd kv)) []
        (List.filter (fun kv => negb (reservedKey (fst kv))) data).

Definition toDataPoint (e : Z * JsObject) : DataPoint.t :=
  let '(timestamp, data) := e in
  {| DataPoint.date := timestamp;
     DataPoint.downloads := or_zero (get "downloads" data);
     DataPoint.dailyGrowth := or_zero (get "dailyGrowth" data);
     DataPoint.versions := versionsOf data |}.

(** The comparator [(a, b) => a.date - b.date]. *)
Definition byDate (a b : DataPoint.t) : Z := DataPoint.date a - DataPoint.date b.

Definition dataPoints (historicalData : History) : list DataPoint.t :=
  sort_by byDate (map toDataPoint historicalData).

(** ** Lines 55-82: the current version of each data point *)

(** The loop of the comparator at lines 66-70, from index [i] with [n]
    iterations left. *)
Fixpoint newestFirstLoop (aParts bParts : list JsNumber) (i n : nat) : JsNumber :=
  match n with
  | O => Finite 0%Qc
  | S n' =>
      let aVal := number_or_zero (aParts !! i) in
      let bVal := number_or_zero (bParts !! i) in
      if negb (strictEquals aVal bVal) then minus bVal aVal
      else newestFirstLoop aParts bParts (S i) n'
  end.

(** The comparator at lines 63-72: newest first, numeric components only. *)
Definition newestFirst (a b : string) : JsNumber :=
  let aParts := map Number (split_on is_dot a) in
  let bParts := map Number (split_on is_dot b) in
  newestFirstLoop aParts bParts 0 (Nat.max (length aParts) (length bParts)).

(** The comparator as the sort of line 63 reads it. *)
Definition newestFirstSign (a b : string) : Z := comparatorSign (newestFirst a b).

(** [!currentVersion] is true for [null] and for the empty string. *)
Definition noVersion (currentVersion : option string) : bool :=
  match currentVersion with
  | None => true
  | Some s => String.eqb s ""
  end.

(** [versions.includes(currentVersion)] *)
Definition includesVersion (versions : list string) (currentVersion : option string) : bool :=
  match currentVersion with
  | None => false
  | Some s => existsb (String.eqb s) versions
  end.

(** One iteration of the [forEach] at lines 58-82: the value of
    [currentVersion] after the point, which is also the point's tag. *)
Definition tagPoint (currentVersion : option string) (point : DataPoint.t) : option string :=
  let versions := keys (DataPoint.versions point) in
  if (0 <? length versions)%nat then
    let newestVersion := head (sort_by newestFirstSign versions) in
    if noVersion currentVersion || includesVersion versions currentVersion
    then newestVersion
    else currentVersion
  else currentVersion.

(** The tags of all points, threading [currentVersion] through the loop. *)
Fixpoint tagPoints (currentVersion : option string) (points : list DataPoint.t)
  : list (option string) :=
  match points with
  | [] => []
  | point :: rest =>
      let currentVersion' := tagPoint currentVersion point in
      currentVersion' :: tagPoints currentVersion' rest
  end.

Definition currentVersions (points : list DataPoint.t) : list (option string) :=
  tagPoints None points.

(** ** Lines 84-92: the chart arrays *)

Definition downloadCounts (points : list DataPoint.t) : list Z :=
  map DataPoint.downloads points.

(** [derivativeData]: pairs [(x, y)]; [point.dailyGrowth || 0] is the number
    itself. *)
Definition derivativeData (points : list DataPoint.t) : list (Z * Z) :=
  map (fun point => (DataPoint.date point, DataPoint.dailyGrowth point)) points.

(** ** Lines 96-122: discovery of the version releases *)

Definition Discovery : Type := (list Release.t * gset string)%type.

Definition collectVersion (point : DataPoint.t) (index : nat)
    (st : Discovery) (version : string) : Discovery :=
  let '(versionReleases, processedVersions) := st in
  if decide (version ∈ processedVersions) then st
  else ((versionReleases ++
           [ {| Release.version := version;
                Release.date := DataPoint.date point;
                Release.index := index;
                Release.downloads := DataPoint.downloads point |} ])%list,
        {[ version ]} ∪ processedVersions).

Fixpoint collectFrom (index : nat) (points : list DataPoint.t) (st : Discovery)
  : Discovery :=
  match points with
  | [] => st
  | point :: rest =>
      collectFrom (S index) rest
        (foldl (collectVersion point index) st (keys (DataPoint.versions point)))
  end.

Definition discoveredReleases (points : list DataPoint.t) : list Release.t :=
  fst (collectFrom 0 points ([], ∅)).

(** ** Lines 126-160: semantic ordering of the releases *)

Section Pipeline.

(** [String.prototype.localeCompare], the collation of the host: negative,
    zero or positive.  The script only applies it to pre-release tags. *)
Variable localeCompare : string -> string -> Z.

(** [base.split(".").map((part) => parseInt(part, 10) || 0)] for the base
    [v.split(/[-+]/)[0]]. *)
Definition versionBase (v : string) : string :=
  split_on is_hyphen_or_plus v !!! 0%nat.

Definition versionParts (v : string) : list Z :=
  map (fun part => num_or_zero (parseInt part)) (split_on is_dot (versionBase v)).

(** The loop at lines 136-142 from index [i] with [n] iterations left:
    [Some r] when it returns [r], [None] when it runs to its end. *)
Fixpoint comparePartsLoop (aParts bParts : list Z) (i n : nat) : option Z :=
  match n with
  | O => None
  | S n' =>
      let aPart := num_or_zero (aParts !! i) in
      let bPart := num_or_zero (bParts !! i) in
      if negb (aPart =? bPart) then Some (aPart - bPart)
      else comparePartsLoop aParts bParts (S i) n'
  end.

(** [v.split("-")[1]], read only when [v.includes("-")]. *)
Definition preReleaseTag (v : string) : string :=
  split_on is_hyphen v !!! 1%nat.

Definition compareVersions (a b : string) : Z :=
  let aParts := versionParts a in
  let bParts := versionParts b in
  match comparePartsLoop aParts bParts 0
          (Nat.max (length aParts) (length bParts)) with
  | Some r => r
  | None =>
      let aHasPreRelease := includes_hyphen a in
      let bHasPreRelease := includes_hyphen b in
      if negb aHasPreRelease && bHasPreRelease then 1
      else if aHasPreRelease && negb bHasPreRelease then -1
      else if negb aHasPreRelease && negb bHasPreRelease then 0
      else localeCompare (preReleaseTag a) (preReleaseTag b)
  end.

Definition byVersion (a b : Release.t) : Z :=
  compareVersions (Release.version a) (Release.version b).

(** [versionReleases] after the sort at line 160. *)
Definition sortedReleases (points : list DataPoint.t) : list Release.t :=
  sort_by byVersion (discoveredReleases points).

(** ** Lines 162-251: metrics of each release *)

(** The test at lines 168-170: there is a next release in the sorted array
    and it starts at the same data point. *)
Definition supersededAt (versionReleases : list Release.t) (i : nat)
    (currentVersionStartIndex : nat) : bool :=
  if (Z.of_nat i <? Z.of_nat (length versionReleases) - 1) then
    match versionReleases !! S i with
    | Some semanticallyNextVersionRelease =>
        (Release.index semanticallyNextVersionRelease =? currentVersionStartIndex)%nat
    | None => false
    end
  else false.

(** The loop at lines 188-198. *)
Definition nextChronologicalReleaseStartIndex (dataPointsLength : nat)
    (versionReleases : list Release.t) (currentVersionStartIndex : nat) : nat :=
  foldl (fun next otherRelease =>
           if (currentVersionStartIndex <? Release.index otherRelease)%nat
           then if (Release.index otherRelease <? next)%nat
                then Release.index otherRelease
                else next
           else next)
        dataPointsLength versionReleases.

(** [lastDataPointIndexForCurrentVersion], which the script computes as
    [nextChronologicalReleaseStartIndex - 1] and may be [-1]. *)
Definition lastDataPointIndex (points : list DataPoint.t)
    (versionReleases : list Release.t) (currentVersionStartIndex : nat) : Z :=
  Z.of_nat (nextChronologicalReleaseStartIndex (length points) versionReleases
              currentVersionStartIndex) - 1.

(** Lines 215-221. *)
Definition endDownloadsOf (counts : list Z) (last : Z) (startDownloads : Z) : Z :=
  if (0 <=? last) && (last <? Z.of_nat (length counts))
  then counts !!! Z.to_nat last
  else if (0 <? length counts)%nat
       then counts !!! (length counts - 1)%nat
       else startDownloads.

(** Lines 226-232. *)
Definition endDateOf (points : list DataPoint.t) (last : Z) (startDate : Z) : Z :=
  let dates := map DataPoint.date points in
  if (0 <=? last) && (last <? Z.of_nat (length points))
  then dates !!! Z.to_nat last
  else if (0 <? length points)%nat
       then dates !!! (length points - 1)%nat
       else startDate.

Definition msPerDay : Z := 1000 * 60 * 60 * 24.

(** One iteration of the loop at lines 163-251 for [versionReleases[i]].
    Reading [.date] of a missing data point throws. *)
Definition releaseMetrics (points : list DataPoint.t)
    (versionReleases : list Release.t) (i : nat)
    (currentVersionRelease : Release.t) : Completion VersionRelease :=
  let currentVersionStartIndex := Release.index currentVersionRelease in
  if supersededAt versionReleases i currentVersionStartIndex then
    mret {| release := currentVersionRelease;
            endDownloads := Release.downloads currentVersionRelease;
            downloadChange := 0;
            durationDays := 0;
            avgDailyGrowth := 0 |}
  else
    let last := lastDataPointIndex points versionReleases currentVersionStartIndex in
    let startDownloads := Release.downloads currentVersionRelease in
    let endDownloads := endDownloadsOf (downloadCounts points) last startDownloads in
    let downloadChange := endDownloads - startDownloads in
    match points !! currentVersionStartIndex with
    | None => Throw (TypeError "Cannot read properties of undefined (reading 'date')")
    | Some startPoint =>
        let startDate := DataPoint.date startPoint in
        let endDate := endDateOf points last startDate in
        let durationMs := endDate - startDate in
        let durationDays := Z.max 1 (round_div durationMs msPerDay) in
        let avgDailyGrowth := round_div downloadChange durationDays in
        mret {| release := currentVersionRelease;
                endDownloads := endDownloads;
                downloadChange := downloadChange;
                durationDays := durationDays;
                avgDailyGrowth := avgDailyGrowth |}
    end.

(** The whole loop, over the sorted array. *)
Definition withMetrics (points : list DataPoint.t)
    (versionReleases : list Release.t) : Completion (list VersionRelease) :=
  collect (imap (releaseMetrics points versionReleases) versionReleases).

(** ** Lines 293-333: the rolling averages *)

(** The body shared by the two loops, for a window of [windowSize] points. *)
Definition rollingAverage (windowSize : Z) (derivative : list (Z * Z)) : list (Z * Z) :=
  imap (fun i item =>
          let startIdx := Z.max 0 (Z.of_nat i - windowSize + 1) in
          let windowValues :=
            map snd (slice (Z.to_nat startIdx) (i + 1) derivative) in
          let sum := foldl Z.add 0 windowValues in
          let y := if (0 <? length windowValues)%nat
                   then round_div sum (Z.of_nat (length windowValues))
                   else 0 in
          (fst item, y))
       derivative.

Definition windowSize7Day : Z := 7.
Definition windowSize30Day : Z := 30.

Definition rollingAverageData7Day (derivative : list (Z * Z)) : list (Z * Z) :=
  rollingAverage windowSize7Day derivative.

Definition rollingAverageData30Day (derivative : list (Z * Z)) : list (Z * Z) :=
  rollingAverage windowSize30Day derivative.

(** ** The script from line 37 to line 333 *)

(** What the later, rendering part of the script reads. *)
Record ChartData : Type := mkChartData {
  cdDates : list Z;
  cdDownloadCounts : list Z;
  cdCurrentVersions : list (option string);
  cdDerivativeData : list (Z * Z);
  cdVersionReleases : list VersionRelease;
  cdRollingAverage7Day : list (Z * Z);
  cdRollingAverage30Day : list (Z * Z);
}.

(** A time value that a [Date] can hold: at most 8.64e15 milliseconds from
    the epoch.  [new Date(t)] for any other [t] is an invalid date. *)
Definition validTime (t : Z) : bool :=
  (-8640000000000000 <=? t) && (t <=? 8640000000000000).

(** [point.date.toISOString()] (line 85), which throws on an invalid
    date. *)
Definition toISOString (point : DataPoint.t) : Completion Z :=
  if validTime (DataPoint.date point) then Normal (DataPoint.date point)
  else Throw (RangeError "Invalid time value").

(** Line 85 maps [toISOString] over the data points and throws at the first
    invalid date.  Line 93 reads [dataPoints[0].date] and line 94
    [dataPoints[dataPoints.length - 1].date]; on an empty array the first
    read is of a property of [undefined] and throws. *)
Definition chartData (historicalData : History) : Completion ChartData :=
  let points := dataPoints historicalData in
  let tags := currentVersions points in
  dates ← collect (map toISOString points);
  let counts := downloadCounts points in
  let derivative := derivativeData points in
  match points !! 0%nat with
  | None => Throw (TypeError "Cannot read properties of undefined (reading 'date')")
  | Some oldest =>
      match points !! (length points - 1)%nat with
      | None => Throw (TypeError "Cannot read properties of undefined (reading 'date')")
      | Some newest =>
          versionReleases ← withMetrics points (sortedReleases points);
          mret {| cdDates := dates;
                  cdDownloadCounts := counts;
                  cdCurrentVersions := tags;
                  cdDerivativeData := derivative;
                  cdVersionReleases := versionReleases;
                  cdRollingAverage7Day := rollingAverageData7Day derivative;
                  cdRollingAverage30Day := rollingAverageData30Day derivative |}
      end
  end.

End Pipeline.

(** A collation to run the script with: comparison by character code, as
    [localeCompare] orders ASCII tags that differ in a digit or in letters of
    one case. *)
Fixpoint codeUnitCompare (s t : string) : Z :=
  match s, t with
  | EmptyString, EmptyString => 0
  | EmptyString, String _ _ => -1
  | String _ _, EmptyString => 1
  | String c s', String d t' =>
      if (nat_of_ascii c <? nat_of_ascii d)%nat then -1
      else if (nat_of_ascii d <? nat_of_ascii c)%nat then 1
      else codeUnitCompare s' t'
  end.

(** ** The extraction stage

    [extract-plugin-stats.js] writes the history file that this script
    reads. *)

(** Modelled from the spec: a raw revision record of section 4.1, the input
    of [extract-plugin-stats.js]: the revision's timestamp and, when the
    tracked file parses and lists the plugin, the plugin's record. *)
Record Revision : Type := mkRevision {
  revTimestamp : Z;
  revRecord : option JsObject;
}.

(** Modelled from the spec: the anomaly filter of the extraction script
    [extract-plugin-stats.js] (section 4.1).  A revision's record is accepted
    only if its total is at least the total of the last accepted record; a
    smaller total is dropped and leaves the baseline as it was; a revision
    without a record or without a numeric total is skipped. *)
Fixpoint acceptFrom (lastAccepted : option Z) (revisions : list Revision) : History :=
  match revisions with
  | [] => []
  | rev :: rest =>
      match revRecord rev with
      | Some data =>
          match get "downloads" data with
          | Some (JNum total) =>
              if match lastAccepted with
                 | Some baseline => baseline <=? total
                 | None => true
                 end
              then (revTimestamp rev, data) :: acceptFrom (Some total) rest
              else acceptFrom lastAccepted rest
          | _ => acceptFrom lastAccepted rest
          end
      | None => acceptFrom lastAccepted rest
      end
  end.

(** Modelled from the spec: the accepted series of section 4.1, in revision
    order. *)
Definition acceptedSeries (revisions : list Revision) : History :=
  acceptFrom None revisions.

Inductive ExtractionError : Type :=
  | EntityNotFound.

(** Modelled from the spec: the extraction of section 4.1 as a whole.  It
    fails with [EntityNotFound] when no revision lists the plugin, and yields
    the accepted series otherwise. *)
Definition extractSeries (revisions : list Revision) : ExtractionError + History :=
  if forallb (fun rev => match revRecord rev with Some _ => false | None => true end)
       revisions
  then inl EntityNotFound
  else inr (acceptedSeries revisions).

(** ** Sample histories *)

Definition record (total : Z) (versionCounts : list (string * Z)) : JsObject :=
  ("downloads", JNum total) :: ("updated", JNum 0)
    :: map (fun kv => (fst kv, JNum (snd kv))) versionCounts.

Definition day : Z := 86400000.

(** Two snapshots a day apart, neither with a [dailyGrowth] field. *)
Definition historyNoGrowth : History :=
  [ (0, [("downloads", JNum 100)]); (day, [("downloads", JNum 150)]) ].

(** Versions 1.0.1 and 1.0.2 first seen in the same snapshot. *)
Definition historySameIndex : History :=
  [ (0, record 100 []);
    (day, record 150 [("1.0.1", 10); ("1.0.2", 40)]);
    (2 * day, record 200 [("1.0.1", 10); ("1.0.2", 90)]) ].

(** A patch of an older branch, 1.9.1, published after 2.0.0. *)
Definition historyBackport : History :=
  [ (0, record 100 [("2.0.0", 100)]);
    (day, record 150 [("2.0.0", 120); ("1.9.1", 30)]) ].

(** The scenario of four snapshots a day apart: no version, 1.0.0, 1.0.0,
    then 1.1.0. *)
Definition historyFourDays : History :=
  [ (0, record 100 []);
    (day, record 150 [("1.0.0", 50)]);
    (2 * day, record 200 [("1.0.0", 100)]);
    (3 * day, record 260 [("1.0.0", 120); ("1.1.0", 40)]) ].

(** ** Vocabulary of the properties *)

(** The comparator [cmp] does not place [x] after [y]. *)
Definition notAfter {A : Type} (cmp : A -> A -> Z) (x y : A) : Prop := cmp x y <= 0.

(** Release [r] was pushed at the data point it indexes: it carries that
    point's date and total, and its version is a key of that point. *)
Definition seenAt (points : list DataPoint.t) (r : Release.t) : Prop :=
  exists p, points !! Release.index r = Some p
    /\ Release.date r = DataPoint.date p
    /\ Release.downloads r = DataPoint.downloads p
    /\ Release.version r ∈ keys (DataPoint.versions p).

(** [next] is the smallest start index, over all releases, that is strictly
    greater than [cur], and the length of the series when there is none. *)
Definition isNextBoundary (seriesLength : nat) (versionReleases : list Release.t)
    (cur next : nat) : Prop :=
  (forall o, o ∈ versionReleases -> (cur < Release.index o)%nat ->
             (next <= Release.index o)%nat)
  /\ ((exists o, o ∈ versionReleases /\ (cur < Release.index o)%nat) ->
      exists o, o ∈ versionReleases /\ Release.index o = next /\ (cur < next)%nat)
  /\ ((forall o, o ∈ versionReleases -> (Release.index o <= cur)%nat) ->
      next = seriesLength).

(** The time in milliseconds between the first and the last data point of
    the period of release [r], as line 235 computes it. *)
Definition periodMs (points : list DataPoint.t) (versionReleases : list Release.t)
    (r : Release.t) : Z :=
  let startDate := map DataPoint.date points !!! Release.index r in
  endDateOf points (lastDataPointIndex points versionReleases (Release.index r)) startDate
  - startDate.

(** [dailyGrowth] of data point [j]. *)
Definition growthAt (points : list DataPoint.t) (j : nat) : Z :=
  default 0 (DataPoint.dailyGrowth <$> points !! j).

(** The sum of [f] over the [n] indices from [lo] on. *)
Fixpoint sumFrom (f : nat -> Z) (lo n : nat) : Z :=
  match n with
  | O => 0
  | S n' => f lo + sumFrom f (S lo) n'
  end.

(** [y] is the mean of [dailyGrowth] over the data points
    [max(0, i - w + 1) .. i], rounded to the nearest integer (a half
    upwards). *)
Definition isWindowMean (w : Z) (points : list DataPoint.t) (i : nat) (y : Z) : Prop :=
  let lo := Z.to_nat (Z.max 0 (Z.of_nat i - w + 1)) in
  let n := (i + 1 - lo)%nat in
  let s := sumFrom (growthAt points) lo n in
  y = round_div s (Z.of_nat n)
  /\ Z.abs (2 * (Z.of_nat n * y - s)) <= Z.of_nat n.

(** Three snapshots with recorded growth 10, 20 and 30. *)
Definition historyGrowth : History :=
  [ (0, [("downloads", JNum 10); ("dailyGrowth", JNum 10)]);
    (day, [("downloads", JNum 30); ("dailyGrowth", JNum 20)]);
    (2 * day, [("downloads", JNum 60); ("dailyGrowth", JNum 30)]) ].

(** The total of a history entry as [toDataPoint] reads it. *)
Definition totalOf (e : Z * JsObject) : Z := or_zero (get "downloads" (snd e)).

(** Revisions a day apart with totals 100, 250, 90 and 300. *)
Definition revisionsWithDip : list Revision :=
  [ mkRevision 0 (Some (record 100 []));
    mkRevision day (Some (record 250 []));
    mkRevision (2 * day) (Some (record 90 []));
    mkRevision (3 * day) (Some (record 300 [])) ].

(** Two revisions whose timestamps run against the revision order: the
    later revision, with the larger total, carries the earlier timestamp. *)
Definition revisionsOutOfOrder : list Revision :=
  [ mkRevision day (Some (record 100 []));
    mkRevision 0 (Some (record 200 [])) ].

(** The record [data] with the number [z] written under [key]. *)
Definition withNumber (key : string) (z : Z) (data : JsObject) : JsObject :=
  (key, JNum z) :: List.filter (fun kv => negb (String.eqb (fst kv) key)) data.

(** The record [data] with an explicit 0 for each of [downloads] and
    [dailyGrowth] that is absent or falsy. *)
Definition withDefaults (data : JsObject) : JsObject :=
  let data1 :=
    if truthy (get "downloads" data) then data else withNumber "downloads" 0 data in
  if truthy (get "dailyGrowth" data1) then data1 else withNumber "dailyGrowth" 0 data1.

(** Records with every kind of falsy field: [downloads] absent; [dailyGrowth]
    null; [downloads] the empty string and [dailyGrowth] false, next to a key
    [__proto__]; and both fields 0. *)
Definition historyFalsyFields : History :=
  [ (0, [("updated", JNum 5); ("1.0.0", JNum 7)]);
    (day, [("downloads", JNum 20); ("dailyGrowth", JNull); ("1.0.0", JNum 9)]);
    (2 * day, [("downloads", JEmptyString); ("dailyGrowth", JFalse);
               ("__proto__", JNum 1); ("1.0.0", JNum 11)]);
    (3 * day, [("downloads", JNum 0); ("dailyGrowth", JNum 0); ("1.1.0", JNum 1)]) ].

(** The [j]-th numeric component of version [v] as [compareVersions] reads
    it, 0 when [v] has fewer components. *)
Definition component (v : string) (j : nat) : Z :=
  num_or_zero (versionParts v !! j).

(** No character of [s] is in the class [sep]. *)
Fixpoint noneOf (sep : ascii -> bool) (s : string) : bool :=
  match s with
  | EmptyString => true
  | String c s' => negb (sep c) && noneOf sep s'
  end.

(** One snapshot that lists 2.0.0, 1.9.0-beta and 1.9.0, in this order. *)
Definition historyThreeVersions : History :=
  [ (0, record 10 [("2.0.0", 1); ("1.9.0-beta", 2); ("1.9.0", 3)]) ].

(** Every key of the history is a timestamp: a time value that a [Date]
    can hold. *)
Definition timestampKeyed (h : History) : bool :=
  forallb (fun e => validTime (fst e)) h.

(** [key] names a version in a record: it is none of the three reserved
    keys and not [__proto__]. *)
Definition versionKey (key : string) : bool :=
  negb (reservedKey key) && negb (String.eqb key "__proto__").

(** The [j]-th numeric component of version [v] as the comparator of the
    current-version loop reads it: [Number] of the [j]-th dotted part, 0 when
    the part is missing or [Number] reads it as [NaN]. *)
Definition labelComponent (v : string) (j : nat) : JsNumber :=
  number_or_zero (map Number (split_on is_dot v) !! j).

(** The order of the numbers: [a] is less than [b]. *)
Definition numLt (a b : JsNumber) : Prop :=
  match a, b with
  | Finite p, Finite q => (p < q)%Qc
  | Infinity true, Finite _ => True
  | Finite _, Infinity false => True
  | Infinity true, Infinity false => True
  | _, _ => False
  end.

(** [f] is not below [g] when the components are compared from the left. *)
Definition lexGe (f g : nat -> JsNumber) : Prop :=
  (forall j, f j = g j)
  \/ exists k, (forall j, (j < k)%nat -> f j = g j) /\ numLt (g k) (f k).



(** Data point [j] lies in the active window of release [r], from the
    release's start index to the index before the next boundary. *)
Definition inWindow (points : list DataPoint.t) (versionReleases : list Release.t)
    (r : Release.t) (j : nat) : bool :=
  (Release.index r <=? j)%nat
  && (Z.of_nat j <=? lastDataPointIndex points versionReleases (Release.index r)).



(** * The rest of the script *)

(** ** Lines 15-23: the plugin identifier and the file names *)

(** The name is made of ASCII characters only.  The two string methods of
    line 16 are modelled on such names; on other characters they depend on
    the Unicode tables of the host ([toLowerCase] maps letters outside ASCII
    and [\s] matches white space outside ASCII). *)
Fixpoint isAscii (s : string) : bool :=
  match s with
  | EmptyString => true
  | String c s' => (nat_of_ascii c <? 128)%nat && isAscii s'
  end.

(** [String.prototype.toLowerCase] on an ASCII character. *)
Definition lowerChar (c : ascii) : ascii :=
  let n := nat_of_ascii c in
  if (65 <=? n)%nat && (n <=? 90)%nat then ascii_of_nat (n + 32) else c.

(** [s.toLowerCase()] for an ASCII string [s]. *)
Fixpoint asciiToLowerCase (s : string) : string :=
  match s with
  | EmptyString => EmptyString
  | String c s' => String (lowerChar c) (asciiToLowerCase s')
  end.

(** [s.replace(/\s+/g, "-")] for an ASCII string [s]: every maximal run of
    white space becomes one hyphen.  [inRun] tells that the character before
    was white space. *)
Fixpoint asciiReplaceSpaceRuns (inRun : bool) (s : string) : string :=
  match s with
  | EmptyString => EmptyString
  | String c s' =>
      if is_space c
      then if inRun then asciiReplaceSpaceRuns true s'
           else String "-" (asciiReplaceSpaceRuns true s')
      else String c (asciiReplaceSpaceRuns false s')
  end.

(** Line 16, for an ASCII plugin name; [None] for a name with other
    characters, which the model does not cover. *)
Definition pluginId (pluginName : string) : option string :=
  if isAscii pluginName
  then Some (asciiReplaceSpaceRuns false (asciiToLowerCase pluginName))
  else None.

Definition inputFile (pluginName : string) : option string :=
  id ← pluginId pluginName; Some (id ++ "-history.json")%string.

Definition outputHtmlFile (pluginName : string) : option string :=
  id ← pluginId pluginName; Some (id ++ "-downloads-chart.html")%string.

Definition outputCssFile (pluginName : string) : option string :=
  id ← pluginId pluginName; Some (id ++ "-downloads-chart.css")%string.

(** ** Lines 253-288: the version index map and the colours *)

(** [versionToIndexMap]: each release's version mapped to its position in
    the sorted array; a later [set] of the same key overwrites. *)
Definition versionToIndexMap (versionReleases : list Release.t) : gmap string nat :=
  foldl (fun m ir => <[ Release.version (snd ir) := fst ir ]> m) ∅
        (imap pair versionReleases).

(** [versionReleases.length > 0 ? versionReleases[0].index : 0] *)
Definition firstVersionIdx (versionReleases : list Release.t) : nat :=
  match versionReleases !! 0%nat with
  | Some first => Release.index first
  | None => 0%nat
  end.

Definition baseColors : list string :=
  [ "#0066cc"; "#cc0000"; "#009900"; "#9900cc"; "#ff9900";
    "#00cccc"; "#cc0099"; "#666600"; "#ff0099"; "#006666" ].

(** [generateColors(count)]: the loop pushes
    [baseColors[i % baseColors.length]] for [i] from 0 to [count - 1]. *)
Definition generateColors (count : nat) : list string :=
  map (fun i => baseColors !!! (i mod length baseColors)%nat) (seq 0 count).

(** [(firstVersionIdx > 0 ? 1 : 0)], the shift of the colour of a release. *)
Definition colorOffset (versionReleases : list Release.t) : nat :=
  if (0 <? firstVersionIdx versionReleases)%nat then 1%nat else 0%nat.

Definition versionColors (versionReleases : list Release.t) : list string :=
  generateColors (colorOffset versionReleases + length versionReleases).

(** ** Lines 335-427: the datasets of the versions *)

(** [Array(n).fill(v)] for an integer [n]: a negative length throws a
    [RangeError], which is [None] here. *)
Definition arrayFill {A : Type} (n : Z) (v : A) : option (list A) :=
  if n <? 0 then None else Some (replicate (Z.to_nat n) v).

(** [a[j] = x] on an array of colours: inside the array it overwrites, past
    the end it extends the array, leaving holes that read as [undefined]. *)
Definition arraySet {A : Type} (j : nat) (x : option A) (a : list (option A))
  : list (option A) :=
  if (j <? length a)%nat then <[ j := x ]> a
  else (a ++ replicate (j - length a) None ++ [x])%list.

(** A dataset of the chart, without its constant style fields.  In [dsData]
    [None] is [null]; a colour that is [None] is [undefined]. *)
Record Dataset : Type := mkDataset {
  dsLabel : string;
  dsData : list (option Z);
  dsBorderColor : option string;
  dsBackgroundColor : string;
  dsPointBackgroundColor : list (option string);
}.

(** The template [`${color}22`]. *)
Definition withAlpha (color : option string) : string :=
  match color with
  | Some c => (c ++ "22")%string
  | None => "undefined22"
  end.

Definition transparent : option string := Some "transparent".

(** Lines 339-364, the body of the [if]: the dataset "Initial". *)
Definition initialDataset (datesLength : nat) (counts : list Z)
    (colors : list string) (firstIdx : nat) : option Dataset :=
  filled ← arrayFill (Z.of_nat firstIdx + 1) (colors !! 0%nat);
  let initialPointColors :=
    if Z.of_nat firstIdx <? Z.of_nat datesLength - 1
    then arraySet firstIdx transparent filled
    else filled in
  nulls ← arrayFill (Z.of_nat datesLength - Z.of_nat firstIdx - 1) (@None Z);
  rest ← arrayFill (Z.of_nat datesLength - Z.of_nat firstIdx - 1) transparent;
  Some {| dsLabel := "Initial";
          dsData := (map Some (slice 0 (firstIdx + 1) counts) ++ nulls)%list;
          dsBorderColor := colors !! 0%nat;
          dsBackgroundColor := withAlpha (colors !! 0%nat);
          dsPointBackgroundColor := (initialPointColors ++ rest)%list |}.

(** The loop at lines 376-383 over the releases after position [i]: the
    start index of the first of them that starts later than [currentIdx],
    and the end of the data when there is none. *)
Fixpoint nextIdxAmong (later : list Release.t) (currentIdx datesLength : nat) : nat :=
  match later with
  | [] => datesLength
  | nextVersion :: later' =>
      if (currentIdx <? Release.index nextVersion)%nat
      then Release.index nextVersion
      else nextIdxAmong later' currentIdx datesLength
  end.

Definition nextIdx (datesLength : nat) (versionReleases : list Release.t)
    (i currentIdx : nat) : nat :=
  nextIdxAmong (drop (S i) versionReleases) currentIdx datesLength.

(** Lines 386-389. *)
Definition endIdx (datesLength : nat) (versionReleases : list Release.t)
    (i currentIdx : nat) : nat :=
  let next := nextIdx datesLength versionReleases i currentIdx in
  if (Z.of_nat i <? Z.of_nat (length versionReleases) - 1) && (next <? datesLength)%nat
  then (next + 1)%nat
  else next.

(** Lines 393-408: the colours of the points of one version. *)
Definition pointColorsOf (datesLength : nat) (versionReleases : list Release.t)
    (i currentIdx : nat) (currentColor : option string)
  : option (list (option string)) :=
  let stop := endIdx datesLength versionReleases i currentIdx in
  blank ← arrayFill (Z.of_nat datesLength) transparent;
  let filled :=
    foldl (fun pointColors j => arraySet j currentColor pointColors) blank
          (seq currentIdx (stop - currentIdx)) in
  Some (if (Z.of_nat i <? Z.of_nat (length versionReleases) - 1)
           && (currentIdx <? stop)%nat && (stop <=? datesLength)%nat
        then arraySet (stop - 1) transparent filled
        else filled).

(** One iteration of the loop at lines 367-427. *)
Definition versionDataset (datesLength : nat) (counts : list Z)
    (colors : list string) (versionReleases : list Release.t)
    (i : nat) (currentVersion : Release.t) : option Dataset :=
  let currentIdx := Release.index currentVersion in
  let currentColor := colors !! (i + colorOffset versionReleases)%nat in
  let stop := endIdx datesLength versionReleases i currentIdx in
  pointColors ← pointColorsOf datesLength versionReleases i currentIdx currentColor;
  before ← arrayFill (Z.of_nat currentIdx) (@None Z);
  after ← arrayFill (Z.of_nat datesLength - Z.of_nat stop) (@None Z);
  Some {| dsLabel := ("v" ++ Release.version currentVersion)%string;
          dsData := (before ++ map Some (slice currentIdx stop counts) ++ after)%list;
          dsBorderColor := currentColor;
          dsBackgroundColor := withAlpha currentColor;
          dsPointBackgroundColor := pointColors |}.

(** [versionDatasets] when the loop has ended: the dataset "Initial" if the
    first release of the sorted array starts after the first data point, then
    one dataset for each release. *)
Definition versionDatasets (points : list DataPoint.t)
    (versionReleases : list Release.t) : option (list Dataset) :=
  let datesLength := length points in
  let counts := downloadCounts points in
  let colors := versionColors versionReleases in
  let firstIdx := firstVersionIdx versionReleases in
  initial ←
    (if (0 <? firstIdx)%nat
     then d ← initialDataset datesLength counts colors firstIdx; Some [d]
     else Some []);
  perVersion ← mapM (fun ir => versionDataset datesLength counts colors
                                 versionReleases (fst ir) (snd ir))
                    (imap pair versionReleases);
  Some (initial ++ perVersion)%list.

(** ** Vocabulary of the further properties *)

(** Release [r] was pushed at the first data point that lists its version. *)
Definition firstSeenAt (points : list DataPoint.t) (r : Release.t) : Prop :=
  seenAt points r
  /\ forall j q, (j < Release.index r)%nat -> points !! j = Some q ->
       Release.version r ∉ keys (DataPoint.versions q).

(** What the discovery loop has established when it reaches data point [k]:
    the versions pushed so far are pairwise distinct and are exactly the
    members of [processedVersions]; every version key of an earlier data point
    is among them; each release sits at the first data point that lists its
    version; and the releases are in the order of their data points. *)
Definition discoveryInv (points : list DataPoint.t) (k : nat) (st : Discovery) : Prop :=
  NoDup (map Release.version (fst st))
  /\ (forall v, v ∈ snd st <-> v ∈ map Release.version (fst st))
  /\ (forall j p v, (j < k)%nat -> points !! j = Some p ->
        v ∈ keys (DataPoint.versions p) -> v ∈ snd st)
  /\ (forall r, r ∈ fst st -> (Release.index r <= k)%nat /\ firstSeenAt points r)
  /\ StronglySorted le (map Release.index (fst st)).

(** The index past the last point that the dataset of release [i] paints in
    the release's colour: the end index, less one for every release but the
    last of the sorted array. *)
Definition paintedEnd (datesLength : nat) (versionReleases : list Release.t)
    (i currentIdx : nat) : nat :=
  let stop := endIdx datesLength versionReleases i currentIdx in
  if Z.of_nat i <? Z.of_nat (length versionReleases) - 1 then (stop - 1)%nat else stop.

(** A comparator that orders any two strings and does so transitively, as
    the collation of a host does. *)
Definition consistentComparator (cmp : string -> string -> Z) : Prop :=
  (forall s t, cmp s t <= 0 \/ cmp t s <= 0)
  /\ (forall s t u, cmp s t <= 0 -> cmp t u <= 0 -> cmp s u <= 0).

(** What [compareVersions] returns for two versions whose numeric components
    all agree (lines 146-156). *)
Definition tagOrder (localeCompare : string -> string -> Z) (a b : string) : Z :=
  match includes_hyphen a, includes_hyphen b with
  | false, true => 1
  | true, false => -1
  | false, false => 0
  | true, true => localeCompare (preReleaseTag a) (preReleaseTag b)
  end.

(** An upper-case ASCII letter. *)
Definition is_upper (c : ascii) : bool :=
  let n := nat_of_ascii c in (65 <=? n)%nat && (n <=? 90)%nat.

(** * Properties *)

(** ** The primitives on sample inputs *)

Example split_dots : split_on is_dot "1.9.0" = ["1"; "9"; "0"].
Proof. reflexivity. Qed.

Example split_trailing_dot : split_on is_dot "1." = ["1"; ""].
Proof. reflexivity. Qed.

Example split_base : split_on is_hyphen_or_plus "1.9.0-beta" = ["1.9.0"; "beta"].
Proof. reflexivity. Qed.

Example parseInt_prefix : parseInt " 12ab" = Some 12 /\ parseInt "x" = None.
Proof. by split. Qed.

Example Number_parts :
  Number "10" = Finite (Q2Qc 10) /\ Number "" = Finite 0%Qc /\ Number "0-beta" = NaN.
Proof. by vm_compute. Qed.

Example Number_literals :
  Number " 12 " = Finite (Q2Qc 12) /\ Number "1e1" = Finite (Q2Qc 10)
  /\ Number "0x10" = Finite (Q2Qc 16) /\ Number "1e-2" = Finite (Q2Qc (1 # 100))
  /\ Number "-Infinity" = Infinity true /\ Number "5-beta" = NaN
  /\ Number "-0x10" = NaN /\ Number "1_0" = NaN.
Proof. by vm_compute. Qed.

Example round_div_half_up :
  round_div 5 2 = 3 /\ round_div (-3) 2 = -1 /\ round_div 7 3 = 2.
Proof. by repeat split. Qed.

Example versionParts_beta :
  versionParts "1.9.0-beta" = [1; 9; 0] /\ preReleaseTag "1.9.0-beta" = "beta".
Proof. by split. Qed.

Example sort_is_stable :
  sort_by (fun a b => fst a - fst b) [(2, "a"); (1, "b"); (2, "c"); (1, "d")]
  = [(1, "b"); (1, "d"); (2, "a"); (2, "c")].
Proof. reflexivity. Qed.

(** The scenario of four snapshots a day apart: 1.0.0 gains 50 downloads in
    one day, and 1.1.0 runs to the end of the series. *)
Example four_day_scenario :
  (fun out => (cdCurrentVersions out, cdVersionReleases out))
    <$> (match chartData codeUnitCompare historyFourDays with
         | Normal out => Some out
         | Throw _ => None
         end)
  = Some ([None; Some "1.0.0"; Some "1.0.0"; Some "1.1.0"],
          [ mkVersionRelease (Release.mk "1.0.0" day 1 150) 200 50 1 50;
            mkVersionRelease (Release.mk "1.1.0" (3 * day) 3 260) 260 0 1 0 ]).
Proof. vm_compute. reflexivity. Qed.

(** ** The sort *)

Section SortFacts.
Context {A : Type} (cmp : A -> A -> Z).

Lemma insert_by_perm x l : insert_by cmp x l ≡ₚ x :: l.
Proof.
  induction l as [|y l IH]; simpl; [done|].
  destruct (cmp x y <=? 0); [done|].
  rewrite IH. apply Permutation_swap.
Qed.

Lemma sort_by_perm l : sort_by cmp l ≡ₚ l.
Proof.
  induction l as [|x l IH]; simpl; [done|].
  unfold sort_by in *. simpl. by rewrite insert_by_perm, IH.
Qed.

Lemma sort_by_length l : length (sort_by cmp l) = length l.
Proof. apply Permutation_length, sort_by_perm. Qed.

Lemma sort_by_elem x l : x ∈ sort_by cmp l <-> x ∈ l.
Proof. by rewrite sort_by_perm. Qed.

Lemma insert_by_hd x y l : cmp x y <= 0 -> insert_by cmp x (y :: l) = x :: y :: l.
Proof. intros H. simpl. by rewrite (Zle_imp_le_bool _ _ H). Qed.

(** A list whose neighbours are already in order is left as it is. *)
Lemma sort_by_sorted_id l : Sorted (notAfter cmp) l -> sort_by cmp l = l.
Proof.
  induction 1 as [|x l Hl IH Hhd]; [done|].
  change (sort_by cmp (x :: l)) with (insert_by cmp x (sort_by cmp l)).
  rewrite IH. destruct Hhd as [|y l' Hxy]; [done|]. by apply insert_by_hd.
Qed.

Section Ordered.
Hypothesis cmp_total : forall x y, cmp x y <= 0 \/ cmp y x <= 0.
Hypothesis cmp_trans : forall x y z, cmp x y <= 0 -> cmp y z <= 0 -> cmp x z <= 0.

Lemma insert_by_strongly_sorted x l :
  StronglySorted (notAfter cmp) l -> StronglySorted (notAfter cmp) (insert_by cmp x l).
Proof.
  induction 1 as [|y l Hl IH Hall]; simpl.
  - repeat constructor.
  - destruct (Z.leb_spec (cmp x y) 0) as [Hle|Hgt].
    + constructor; [by constructor|].
      constructor; [done|].
      eapply Forall_impl; [exact Hall|]. intros z Hz. by eapply cmp_trans.
    + constructor; [done|].
      rewrite insert_by_perm. constructor; [|done].
      destruct (cmp_total x y); [lia|done].
Qed.

Lemma sort_by_strongly_sorted l : StronglySorted (notAfter cmp) (sort_by cmp l).
Proof.
  induction l as [|x l IH]; [constructor|].
  change (sort_by cmp (x :: l)) with (insert_by cmp x (sort_by cmp l)).
  by apply insert_by_strongly_sorted.
Qed.

(** The first element of the sorted array is placed after no element. *)
Lemma sort_by_head_least l m :
  head (sort_by cmp l) = Some m -> m ∈ l /\ forall x, x ∈ l -> cmp m x <= 0.
Proof.
  intros Hm. pose proof (sort_by_strongly_sorted l) as Hs.
  pose proof (sort_by_perm l) as Hp.
  destruct (sort_by cmp l) as [|m' s]; [done|]. simplify_eq/=.
  split; [rewrite <- Hp; left|].
  intros x Hx. rewrite <- Hp in Hx. apply StronglySorted_inv in Hs as [_ Hall].
  apply elem_of_cons in Hx as [->|Hx].
  - destruct (cmp_total m m); done.
  - by eapply Forall_forall in Hall.
Qed.

End Ordered.
End SortFacts.

Lemma StronglySorted_weaken {A : Type} (R S : A -> A -> Prop) (l : list A) :
  (forall x y, R x y -> S x y) -> StronglySorted R l -> StronglySorted S l.
Proof.
  intros HRS. induction 1 as [|x l Hl IH Hall]; constructor; [done|].
  eapply Forall_impl; [exact Hall|]. auto.
Qed.

(** ** [dataPoints]: order and defaults *)

Lemma byDate_total a b : byDate a b <= 0 \/ byDate b a <= 0.
Proof. unfold byDate. lia. Qed.

Lemma byDate_trans a b c : byDate a b <= 0 -> byDate b c <= 0 -> byDate a c <= 0.
Proof. unfold byDate. lia. Qed.

Lemma dataPoints_perm h : dataPoints h ≡ₚ map toDataPoint h.
Proof. apply sort_by_perm. Qed.

Lemma dataPoints_length h : length (dataPoints h) = length h.
Proof. unfold dataPoints. by rewrite sort_by_length, length_map. Qed.

Lemma dataPoints_by_date h :
  StronglySorted (fun a b => DataPoint.date a <= DataPoint.date b) (dataPoints h).
Proof.
  eapply StronglySorted_weaken; [|apply (sort_by_strongly_sorted byDate)].
  - unfold notAfter, byDate. intros a b. lia.
  - apply byDate_total.
  - apply byDate_trans.
Qed.

Lemma dataPoints_nil_iff h : dataPoints h = [] <-> h = [].
Proof.
  split; [|by intros ->].
  intros H. apply (f_equal length) in H. rewrite dataPoints_length in H.
  by destruct h.
Qed.




(** ** Completions *)

Lemma collect_Normal_inv {A : Type} (l : list (Completion A)) (r : list A) :
  collect l = Normal r -> l = map Normal r.
Proof.
  revert r. induction l as [|c l IH]; intros r; simpl.
  - by intros [= <-].
  - destruct c as [a|e]; simpl; [|done].
    destruct (collect l) as [r'|e]; simpl; [|done].
    intros [= <-]. simpl. by rewrite (IH r').
Qed.

Lemma collect_map_Normal {A : Type} (r : list A) : collect (map Normal r) = Normal r.
Proof. induction r as [|a r IH]; simpl; [done|]. by rewrite IH. Qed.

Lemma collect_all_Normal {A : Type} (l : list (Completion A)) :
  (forall c, c ∈ l -> exists a, c = Normal a) -> exists r, collect l = Normal r.
Proof.
  induction l as [|c l IH]; intros H; simpl; [by eexists|].
  destruct (H c) as [a ->]; [left|]. simpl.
  destruct IH as [r ->]; [|by eexists].
  intros c' Hc'. apply H. by right.
Qed.

(** ** Discovery *)

Section DiscoveryInvariant.
Variable P : Release.t -> Prop.

Lemma collectVersion_inv point index st version :
  (forall r, r ∈ fst st -> P r) ->
  P (Release.mk version (DataPoint.date point) index (DataPoint.downloads point)) ->
  forall r, r ∈ fst (collectVersion point index st version) -> P r.
Proof.
  intros Hst Hnew r. destruct st as [rels seen]. unfold collectVersion.
  case_decide; simpl; [by apply Hst|].
  rewrite elem_of_app, list_elem_of_singleton. intros [Hr| ->]; [by apply Hst|done].
Qed.

Lemma collectVersions_inv point index versions st :
  (forall r, r ∈ fst st -> P r) ->
  (forall v, v ∈ versions ->
     P (Release.mk v (DataPoint.date point) index (DataPoint.downloads point))) ->
  forall r, r ∈ fst (foldl (collectVersion point index) st versions) -> P r.
Proof.
  revert st. induction versions as [|v vs IH]; intros st Hst Hnew; simpl; [done|].
  apply IH.
  - apply collectVersion_inv; [done|]. apply Hnew. left.
  - intros v' Hv'. apply Hnew. by right.
Qed.

Lemma collectFrom_inv index points st :
  (forall r, r ∈ fst st -> P r) ->
  (forall j p v, points !! j = Some p -> v ∈ keys (DataPoint.versions p) ->
     P (Release.mk v (DataPoint.date p) (index + j) (DataPoint.downloads p))) ->
  forall r, r ∈ fst (collectFrom index points st) -> P r.
Proof.
  revert index st. induction points as [|p ps IH]; intros index st Hst Hnew; simpl; [done|].
  apply IH.
  - apply collectVersions_inv; [done|]. intros v Hv.
    specialize (Hnew 0%nat p v eq_refl Hv). by rewrite Nat.add_0_r in Hnew.
  - intros j q v Hq Hv. specialize (Hnew (S j) q v Hq Hv).
    by replace (S index + j)%nat with (index + S j)%nat by lia.
Qed.

End DiscoveryInvariant.

Lemma discoveredReleases_seenAt points r :
  r ∈ discoveredReleases points -> seenAt points r.
Proof.
  apply (collectFrom_inv (seenAt points)).
  - simpl. intros r' Hr'. by apply elem_of_nil in Hr'.
  - intros j p v Hp Hv. exists p. simpl. done.
Qed.

Lemma seenAt_index_lt points r : seenAt points r -> (Release.index r < length points)%nat.
Proof. intros (p & Hp & _). by eapply lookup_lt_Some. Qed.

Section Segmentation.
Variable localeCompare : string -> string -> Z.

Lemma sortedReleases_perm points :
  sortedReleases localeCompare points ≡ₚ discoveredReleases points.
Proof. apply sort_by_perm. Qed.

Lemma sortedReleases_seenAt points r :
  r ∈ sortedReleases localeCompare points -> seenAt points r.
Proof. rewrite sortedReleases_perm. apply discoveredReleases_seenAt. Qed.

End Segmentation.

(** ** The boundary of a release *)

Lemma nextBoundary_fold cur versionReleases start :
  let next := foldl (fun next otherRelease =>
           if (cur <? Release.index otherRelease)%nat
           then if (Release.index otherRelease <? next)%nat
                then Release.index otherRelease
                else next
           else next) start versionReleases in
  (next <= start)%nat
  /\ (next = start \/
      exists o, o ∈ versionReleases /\ Release.index o = next /\ (cur < next)%nat)
  /\ (forall o, o ∈ versionReleases -> (cur < Release.index o)%nat ->
                (next <= Release.index o)%nat).
Proof.
  revert start. induction versionReleases as [|o rels IH]; intros start; simpl.
  - split; [done|]. split; [by left|]. intros o Ho. by apply elem_of_nil in Ho.
  - match goal with |- context [foldl ?f ?s rels] => specialize (IH s) end.
    simpl in IH. destruct IH as (Hle & Hor & Hmin).
    destruct (Nat.ltb_spec cur (Release.index o)) as [Hc|Hc];
      [destruct (Nat.ltb_spec (Release.index o) start) as [Hs|Hs]|].
    + split; [lia|]. split.
      * right. destruct Hor as [->|(o' & Ho' & Hi & Hlt)].
        -- exists o. split; [left|done].
        -- exists o'. split; [by right|done].
      * intros o' [->|Ho']%elem_of_cons Hlt; [done|by apply Hmin].
    + split; [done|]. split.
      * destruct Hor as [->|(o' & Ho' & Hi & Hlt)]; [by left|].
        right. exists o'. split; [by right|done].
      * intros o' [->|Ho']%elem_of_cons Hlt; [lia|by apply Hmin].
    + split; [done|]. split.
      * destruct Hor as [->|(o' & Ho' & Hi & Hlt)]; [by left|].
        right. exists o'. split; [by right|done].
      * intros o' [->|Ho']%elem_of_cons Hlt; [lia|by apply Hmin].
Qed.

Lemma nextChronological_isNextBoundary (points : list DataPoint.t) versionReleases cur :
  (forall o, o ∈ versionReleases -> seenAt points o) ->
  isNextBoundary (length points) versionReleases cur
    (nextChronologicalReleaseStartIndex (length points) versionReleases cur).
Proof.
  intros Hseen.
  destruct (nextBoundary_fold cur versionReleases (length points)) as (Hle & Hor & Hmin).
  unfold nextChronologicalReleaseStartIndex. split; [exact Hmin|]. split.
  - intros (o & Ho & Hlt). destruct Hor as [Heq|Hex]; [|exact Hex].
    specialize (Hmin o Ho Hlt). apply Hseen, seenAt_index_lt in Ho. lia.
  - intros Hnone. destruct Hor as [Heq|(o & Ho & Hi & Hlt)]; [exact Heq|].
    specialize (Hnone o Ho). lia.
Qed.

Lemma nextChronological_range (points : list DataPoint.t) versionReleases cur :
  (cur < length points)%nat ->
  let next := nextChronologicalReleaseStartIndex (length points) versionReleases cur in
  (cur < next <= length points)%nat.
Proof.
  intros Hcur.
  destruct (nextBoundary_fold cur versionReleases (length points)) as (Hle & Hor & Hmin).
  unfold nextChronologicalReleaseStartIndex. simpl. split; [|exact Hle].
  destruct Hor as [->|(o & _ & _ & Hlt)]; done.
Qed.

(** ** The metrics loop *)

Lemma supersededAt_true versionReleases i cur :
  supersededAt versionReleases i cur = true <->
  exists next, versionReleases !! S i = Some next /\ Release.index next = cur.
Proof.
  unfold supersededAt. split.
  - destruct (_ <? _); [|done].
    destruct (versionReleases !! S i) as [next|]; [|done].
    intros H%Nat.eqb_eq. by exists next.
  - intros (next & Hnext & Hidx). pose proof (lookup_lt_Some _ _ _ Hnext) as Hlt.
    rewrite Hnext. destruct (Z.ltb_spec (Z.of_nat i) (Z.of_nat (length versionReleases) - 1));
      [by apply Nat.eqb_eq|lia].
Qed.

Lemma releaseMetrics_superseded points versionReleases i cur :
  supersededAt versionReleases i (Release.index cur) = true ->
  releaseMetrics points versionReleases i cur =
    Normal (mkVersionRelease cur (Release.downloads cur) 0 0 0).
Proof. intros H. unfold releaseMetrics. by rewrite H. Qed.

Lemma lookup_total_map_date (points : list DataPoint.t) i p :
  points !! i = Some p -> map DataPoint.date points !!! i = DataPoint.date p.
Proof.
  intros H. apply list_lookup_total_correct.
  change (map DataPoint.date points) with (DataPoint.date <$> points).
  by rewrite list_lookup_fmap, H.
Qed.

Lemma releaseMetrics_active points versionReleases i cur p :
  supersededAt versionReleases i (Release.index cur) = false ->
  points !! Release.index cur = Some p ->
  let last := lastDataPointIndex points versionReleases (Release.index cur) in
  let endD := endDownloadsOf (downloadCounts points) last (Release.downloads cur) in
  let days := Z.max 1 (round_div (periodMs points versionReleases cur) msPerDay) in
  releaseMetrics points versionReleases i cur =
    Normal (mkVersionRelease cur endD (endD - Release.downloads cur) days
              (round_div (endD - Release.downloads cur) days)).
Proof.
  intros Hs Hp. unfold releaseMetrics, periodMs. rewrite Hs, Hp.
  by rewrite (lookup_total_map_date _ _ _ Hp).
Qed.

Lemma releaseMetrics_Normal points versionReleases i cur :
  seenAt points cur -> exists vr, releaseMetrics points versionReleases i cur = Normal vr.
Proof.
  intros (p & Hp & _).
  destruct (supersededAt versionReleases i (Release.index cur)) eqn:Hs.
  - eexists. by apply releaseMetrics_superseded.
  - eexists. by eapply releaseMetrics_active.
Qed.

Lemma withMetrics_lookup points versionReleases vrs i :
  withMetrics points versionReleases = Normal vrs ->
  Normal <$> vrs !! i =
    versionReleases !! i ≫= fun cur => Some (releaseMetrics points versionReleases i cur).
Proof.
  intros H%collect_Normal_inv.
  apply (f_equal (fun l => l !! i)) in H.
  rewrite list_lookup_imap in H.
  change (map Normal vrs) with (Normal <$> vrs) in H. rewrite list_lookup_fmap in H.
  rewrite <- H. by destruct (versionReleases !! i).
Qed.

Lemma withMetrics_lookup_Some points versionReleases vrs i vr :
  withMetrics points versionReleases = Normal vrs ->
  vrs !! i = Some vr ->
  exists cur, versionReleases !! i = Some cur
    /\ releaseMetrics points versionReleases i cur = Normal vr.
Proof.
  intros H Hi. apply (withMetrics_lookup _ _ _ i) in H. rewrite Hi in H. simpl in H.
  destruct (versionReleases !! i) as [cur|]; [|done]. simpl in H.
  exists cur. split; [done|]. congruence.
Qed.

Lemma withMetrics_length points versionReleases vrs :
  withMetrics points versionReleases = Normal vrs ->
  length vrs = length versionReleases.
Proof.
  intros H%collect_Normal_inv. apply (f_equal length) in H.
  by rewrite length_imap, length_map in H.
Qed.

Lemma withMetrics_Normal points versionReleases :
  (forall r, r ∈ versionReleases -> seenAt points r) ->
  exists vrs, withMetrics points versionReleases = Normal vrs.
Proof.
  intros Hseen. apply collect_all_Normal. intros c Hc.
  apply list_elem_of_lookup in Hc as [i Hi]. rewrite list_lookup_imap in Hi.
  destruct (versionReleases !! i) as [cur|] eqn:Hcur; [|done]. simpl in Hi.
  injection Hi as <-. apply releaseMetrics_Normal, Hseen.
  by eapply list_elem_of_lookup_2.
Qed.

Lemma releaseMetrics_release points versionReleases i cur vr :
  releaseMetrics points versionReleases i cur = Normal vr -> release vr = cur.
Proof.
  unfold releaseMetrics. destruct (supersededAt _ _ _); [by intros [= <-]|].
  destruct (points !! _); [by intros [= <-]|done].
Qed.

(** ** The script as a whole *)

Lemma collect_toISOString (points : list DataPoint.t) :
  collect (map toISOString points)
  = if forallb (fun p => validTime (DataPoint.date p)) points
    then Normal (map DataPoint.date points)
    else Throw (RangeError "Invalid time value").
Proof.
  induction points as [|p points IH]; [done|].
  cbn [map collect forallb]. unfold toISOString at 1.
  destruct (validTime (DataPoint.date p)); [|done]. simpl.
  rewrite IH. by destruct (forallb _ points).
Qed.

Lemma forallb_perm {A : Type} (f : A -> bool) (l l' : list A) :
  l ≡ₚ l' -> forallb f l = forallb f l'.
Proof.
  induction 1 as [|x l l' _ IH|x y l|l l' l'' _ IH1 _ IH2]; simpl.
  - done.
  - by rewrite IH.
  - by destruct (f x), (f y).
  - by rewrite IH1.
Qed.

Lemma validTime_dataPoints h :
  forallb (fun p => validTime (DataPoint.date p)) (dataPoints h) = timestampKeyed h.
Proof.
  rewrite (forallb_perm _ _ _ (dataPoints_perm h)). unfold timestampKeyed.
  induction h as [|[t data] h IH]; [done|]. simpl. by rewrite IH.
Qed.

Section Script.
Variable localeCompare : string -> string -> Z.

Lemma chartData_Normal_inv h out :
  chartData localeCompare h = Normal out ->
  let points := dataPoints h in
  h <> []
  /\ cdDates out = map DataPoint.date points
  /\ cdDownloadCounts out = downloadCounts points
  /\ cdCurrentVersions out = currentVersions points
  /\ cdDerivativeData out = derivativeData points
  /\ withMetrics points (sortedReleases localeCompare points) = Normal (cdVersionReleases out)
  /\ cdRollingAverage7Day out = rollingAverageData7Day (derivativeData points)
  /\ cdRollingAverage30Day out = rollingAverageData30Day (derivativeData points).
Proof.
  intros H points. unfold chartData in H. fold points in H.
  rewrite collect_toISOString in H.
  destruct (forallb _ points); [|done]. simpl in H.
  destruct (points !! 0%nat) as [oldest|] eqn:Ho; [|done].
  destruct (points !! (length points - 1)%nat) as [newest|]; [|done].
  destruct (withMetrics points (sortedReleases localeCompare points)) as [vrs|e]; [|done].
  simpl in H. injection H as <-. simpl. split; [|done].
  intros ->. done.
Qed.

Lemma chartData_Normal_timestampKeyed h out :
  chartData localeCompare h = Normal out -> timestampKeyed h = true.
Proof.
  intros H. unfold chartData in H. rewrite collect_toISOString in H.
  rewrite validTime_dataPoints in H. by destruct (timestampKeyed h).
Qed.

Lemma chartData_Throw_inv h e :
  chartData localeCompare h = Throw e ->
  (h = [] /\ e = TypeError "Cannot read properties of undefined (reading 'date')")
  \/ (timestampKeyed h = false /\ e = RangeError "Invalid time value").
Proof.
  intros H. unfold chartData in H. rewrite collect_toISOString in H.
  rewrite validTime_dataPoints in H.
  destruct (timestampKeyed h); [|right; split; [done|]; simpl in H; congruence].
  simpl in H. destruct h as [|e0 h]; [left; split; [done|]; simpl in H; congruence|].
  exfalso.
  assert (length (dataPoints (e0 :: h)) <> 0%nat) as Hlen by (by rewrite dataPoints_length).
  destruct (lookup_lt_is_Some_2 (dataPoints (e0 :: h)) 0) as [oldest Ho]; [lia|].
  destruct (lookup_lt_is_Some_2 (dataPoints (e0 :: h)) (length (dataPoints (e0 :: h)) - 1))
    as [newest Hn]; [lia|].
  rewrite Ho, Hn in H.
  destruct (withMetrics_Normal (dataPoints (e0 :: h))
              (sortedReleases localeCompare (dataPoints (e0 :: h))))
    as [vrs Hv]; [apply sortedReleases_seenAt|].
  rewrite Hv in H. done.
Qed.

Lemma chartData_invalid_date h :
  timestampKeyed h = false ->
  chartData localeCompare h = Throw (RangeError "Invalid time value").
Proof.
  intros Hinvalid. unfold chartData.
  by rewrite collect_toISOString, validTime_dataPoints, Hinvalid.
Qed.

Lemma chartData_nonempty h :
  h <> [] -> timestampKeyed h = true ->
  exists out, chartData localeCompare h = Normal out.
Proof.
  intros Hne Hvalid. unfold chartData.
  rewrite collect_toISOString, validTime_dataPoints, Hvalid. simpl.
  assert (length (dataPoints h) <> 0%nat) as Hlen.
  { rewrite dataPoints_length. by destruct h. }
  destruct (lookup_lt_is_Some_2 (dataPoints h) 0) as [oldest ->]; [lia|].
  destruct (lookup_lt_is_Some_2 (dataPoints h) (length (dataPoints h) - 1))
    as [newest ->]; [lia|].
  destruct (withMetrics_Normal (dataPoints h) (sortedReleases localeCompare (dataPoints h)))
    as [vrs ->]; [apply sortedReleases_seenAt|].
  by eexists.
Qed.

Lemma chartData_release h out i vr :
  chartData localeCompare h = Normal out ->
  cdVersionReleases out !! i = Some vr ->
  let points := dataPoints h in
  let versionReleases := sortedReleases localeCompare points in
  versionReleases !! i = Some (release vr)
  /\ seenAt points (release vr)
  /\ releaseMetrics points versionReleases i (release vr) = Normal vr.
Proof.
  intros (_ & _ & _ & _ & _ & Hm & _)%chartData_Normal_inv Hi. simpl.
  destruct (withMetrics_lookup_Some _ _ _ _ _ Hm Hi) as (cur & Hcur & Hvr).
  rewrite (releaseMetrics_release _ _ _ _ _ Hvr). split; [done|]. split; [|done].
  eapply sortedReleases_seenAt, list_elem_of_lookup_2, Hcur.
Qed.

End Script.

(** ** Claims on the releases *)

Lemma round_div_le_one (n d : Z) : 0 < d -> n < d -> round_div n d <= 1.
Proof.
  intros Hd Hn. unfold round_div.
  assert ((2 * n + d) / (2 * d) < 2); [|lia].
  apply Z.div_lt_upper_bound; lia.
Qed.

(** C2, disproved as stated: versions 1.0.1 and 1.0.2 first appear in the same
    snapshot, and the release 1.0.1 that the script produces has
    [durationDays] 0. *)
Lemma superseded_release_has_duration_zero :
  exists out vr,
    chartData codeUnitCompare historySameIndex = Normal out
    /\ cdVersionReleases out !! 0%nat = Some vr
    /\ Release.version (release vr) = "1.0.1"
    /\ durationDays vr = 0
    /\ ~ 1 <= durationDays vr.
Proof.
  do 2 eexists. split; [vm_compute; reflexivity|].
  split; [reflexivity|]. split; [reflexivity|]. split; [reflexivity|].
  vm_compute. intros H. by apply H.
Qed.

(** C2, as amended: a release that is not superseded at its own index by the
    next release in semantic order has [durationDays] at least 1, and exactly
    1 when its period is shorter than one day (equal or nearly equal
    timestamps); a release that is so superseded has [durationDays] 0. *)
Theorem durationDays_floor_unless_superseded localeCompare h out i vr :
  chartData localeCompare h = Normal out ->
  cdVersionReleases out !! i = Some vr ->
  let points := dataPoints h in
  let versionReleases := sortedReleases localeCompare points in
  if supersededAt versionReleases i (Release.index (release vr))
  then durationDays vr = 0
  else 1 <= durationDays vr
       /\ durationDays vr =
            Z.max 1 (round_div (periodMs points versionReleases (release vr)) msPerDay)
       /\ (periodMs points versionReleases (release vr) < msPerDay ->
           durationDays vr = 1).
Proof.
  intros Hout Hi points versionReleases.
  destruct (chartData_release _ _ _ _ _ Hout Hi) as (Hcur & (p & Hp & _) & Hvr).
  fold points versionReleases in Hcur, Hvr, Hp.
  destruct (supersededAt versionReleases i (Release.index (release vr))) eqn:Hs.
  - rewrite (releaseMetrics_superseded _ _ _ _ Hs) in Hvr.
    by injection Hvr as <-.
  - rewrite (releaseMetrics_active _ _ _ _ _ Hs Hp) in Hvr.
    injection Hvr as <-. simpl. split; [lia|]. split; [done|].
    intros Hlt. pose proof (round_div_le_one _ msPerDay eq_refl Hlt). lia.
Qed.

Lemma durationDays_floor_unless_superseded_witness :
  exists out vr,
    chartData codeUnitCompare historySameIndex = Normal out
    /\ cdVersionReleases out !! 1%nat = Some vr
    /\ Release.version (release vr) = "1.0.2"
    /\ 1 <= durationDays vr.
Proof.
  do 2 eexists. split; [vm_compute; reflexivity|].
  split; [reflexivity|]. split; [reflexivity|].
  eapply proj1.
  refine (durationDays_floor_unless_superseded codeUnitCompare historySameIndex _ 1%nat _ _ _);
    vm_compute; reflexivity.
Defined.

(** C3, the script evaluated on a history with no snapshot: line 93 reads
    [dataPoints[0].date] of an empty array and throws a [TypeError]; no chart
    data, empty or other, is produced. *)
Theorem chartData_of_empty_history_throws localeCompare :
  dataPoints [] = []
  /\ chartData localeCompare [] =
       Throw (TypeError "Cannot read properties of undefined (reading 'date')")
  /\ forall out, chartData localeCompare [] <> Normal out.
Proof. split; [done|]. split; [done|]. intros out. discriminate. Qed.

(** C4: a release whose successor in the semantically sorted order starts at
    the same data point gets [endDownloads] equal to its release downloads
    (the total of that data point), and [downloadChange], [durationDays] and
    [avgDailyGrowth] all 0; nothing else is computed for it. *)
Theorem superseded_release_metrics localeCompare h out i R Rnext :
  chartData localeCompare h = Normal out ->
  sortedReleases localeCompare (dataPoints h) !! i = Some R ->
  sortedReleases localeCompare (dataPoints h) !! S i = Some Rnext ->
  Release.index Rnext = Release.index R ->
  cdVersionReleases out !! i = Some (mkVersionRelease R (Release.downloads R) 0 0 0)
  /\ releaseMetrics (dataPoints h) (sortedReleases localeCompare (dataPoints h)) i R
     = Normal (mkVersionRelease R (Release.downloads R) 0 0 0)
  /\ downloadCounts (dataPoints h) !! Release.index R = Some (Release.downloads R).
Proof.
  intros Hout HR Hnext Hidx.
  assert (supersededAt (sortedReleases localeCompare (dataPoints h)) i (Release.index R) = true)
    as Hs by (apply supersededAt_true; eauto).
  pose proof (releaseMetrics_superseded (dataPoints h) _ _ _ Hs) as Hm.
  apply chartData_Normal_inv in Hout as (_ & _ & _ & _ & _ & Hw & _).
  apply (withMetrics_lookup _ _ _ i) in Hw. rewrite HR in Hw. simpl in Hw.
  rewrite Hm in Hw. split; [|split; [exact Hm|]].
  - destruct (cdVersionReleases out !! i); simpl in Hw; congruence.
  - destruct (sortedReleases_seenAt localeCompare (dataPoints h) R) as (p & Hp & _ & Hd & _).
    { by eapply list_elem_of_lookup_2. }
    unfold downloadCounts. change (map ?f ?l) with (f <$> l).
    by rewrite list_lookup_fmap, Hp, Hd.
Qed.

Lemma superseded_release_metrics_witness :
  exists out,
    chartData codeUnitCompare historySameIndex = Normal out
    /\ cdVersionReleases out !! 0%nat =
         Some (mkVersionRelease (Release.mk "1.0.1" day 1 150) 150 0 0 0).
Proof.
  eexists. split; [vm_compute; reflexivity|].
  eapply proj1.
  refine (superseded_release_metrics codeUnitCompare historySameIndex _ 0%nat
            (Release.mk "1.0.1" day 1 150) (Release.mk "1.0.2" day 1 150) _ _ _ _);
    vm_compute; reflexivity.
Defined.

Lemma endDownloadsOf_in_range (counts : list Z) (last start : Z) :
  0 <= last < Z.of_nat (length counts) ->
  counts !! Z.to_nat last = Some (endDownloadsOf counts last start).
Proof.
  intros [H0 H1]. unfold endDownloadsOf.
  rewrite (proj2 (Z.leb_le 0 last) H0), (proj2 (Z.ltb_lt _ _) H1). simpl.
  apply list_lookup_lookup_total_lt. lia.
Qed.

Lemma endDownloadsOf_out_of_range (counts : list Z) (last start : Z) :
  ~ 0 <= last < Z.of_nat (length counts) ->
  counts <> [] ->
  counts !! (length counts - 1)%nat = Some (endDownloadsOf counts last start).
Proof.
  intros Hout Hne. unfold endDownloadsOf.
  assert ((0 <=? last) && (last <? Z.of_nat (length counts)) = false) as ->.
  { apply andb_false_iff. destruct (Z.leb_spec 0 last); [right|by left].
    apply Z.ltb_ge. lia. }
  assert (0 < length counts)%nat as Hlen by (destruct counts; [done|simpl; lia]).
  rewrite (proj2 (Nat.ltb_lt _ _) Hlen).
  apply list_lookup_lookup_total_lt. lia.
Qed.

(** C5: for a release that is not superseded at its own index, the boundary
    index is the smallest start index strictly greater than its own over all
    discovered releases, whatever their place in the semantic order, and the
    length of the series when there is none; [endDownloads] is the total at
    the boundary index minus one (the last total of the series if that index
    were out of range, which it never is), and [downloadChange] is
    [endDownloads] minus the release downloads. *)
Theorem active_release_boundary localeCompare h out i vr :
  chartData localeCompare h = Normal out ->
  cdVersionReleases out !! i = Some vr ->
  supersededAt (sortedReleases localeCompare (dataPoints h)) i
    (Release.index (release vr)) = false ->
  let points := dataPoints h in
  let versionReleases := sortedReleases localeCompare points in
  let cur := Release.index (release vr) in
  let next := nextChronologicalReleaseStartIndex (length points) versionReleases cur in
  versionReleases ≡ₚ discoveredReleases points
  /\ isNextBoundary (length points) versionReleases cur next
  /\ endDownloads vr =
       endDownloadsOf (downloadCounts points) (Z.of_nat next - 1)
         (Release.downloads (release vr))
  /\ (forall last start,
        ~ 0 <= last < Z.of_nat (length (downloadCounts points)) ->
        downloadCounts points !! (length (downloadCounts points) - 1)%nat
        = Some (endDownloadsOf (downloadCounts points) last start))
  /\ (cur < next <= length points)%nat
  /\ downloadCounts points !! (next - 1)%nat = Some (endDownloads vr)
  /\ downloadCounts points !! cur = Some (Release.downloads (release vr))
  /\ downloadChange vr = endDownloads vr - Release.downloads (release vr).
Proof.
  intros Hout Hi Hs points versionReleases cur next.
  destruct (chartData_release _ _ _ _ _ Hout Hi) as (Hcur & Hseen & Hvr).
  destruct Hseen as (p & Hp & Hdate & Hdl & Hkey).
  fold points versionReleases in Hcur, Hvr, Hp, Hs.
  rewrite (releaseMetrics_active _ _ _ _ _ Hs Hp) in Hvr.
  assert (cur < length points)%nat as Hlt by (by eapply lookup_lt_Some).
  pose proof (nextChronological_range points versionReleases cur Hlt) as Hrange.
  fold next in Hrange. simpl in Hrange.
  assert (length (downloadCounts points) = length points) as Hlen
    by apply length_map.
  assert (endDownloads vr =
       endDownloadsOf (downloadCounts points) (Z.of_nat next - 1)
         (Release.downloads (release vr))) as Hend by (by injection Hvr as <-).
  split; [apply sortedReleases_perm|].
  split; [apply nextChronological_isNextBoundary; intros o Ho;
          by eapply sortedReleases_seenAt|].
  split; [exact Hend|]. split.
  { intros last start Hout'. apply endDownloadsOf_out_of_range; [done|].
    intros Hnil. rewrite Hnil in Hlen. simpl in Hlen. lia. }
  split; [exact Hrange|]. split.
  { rewrite Hend. replace (next - 1)%nat with (Z.to_nat (Z.of_nat next - 1)) by lia.
    apply endDownloadsOf_in_range. lia. }
  split.
  { unfold downloadCounts, cur. change (map ?f ?l) with (f <$> l).
    by rewrite list_lookup_fmap, Hp, Hdl. }
  injection Hvr as <-. done.
Qed.

Lemma active_release_boundary_witness :
  exists out vr,
    chartData codeUnitCompare historyFourDays = Normal out
    /\ cdVersionReleases out !! 0%nat = Some vr
    /\ Release.version (release vr) = "1.0.0"
    /\ nextChronologicalReleaseStartIndex 4
         (sortedReleases codeUnitCompare (dataPoints historyFourDays)) 1 = 3%nat
    /\ downloadCounts (dataPoints historyFourDays) !! 2%nat = Some (endDownloads vr)
    /\ endDownloads vr = 200
    /\ downloadChange vr = endDownloads vr - Release.downloads (release vr).
Proof.
  do 2 eexists. split; [vm_compute; reflexivity|].
  split; [reflexivity|]. split; [reflexivity|]. split; [vm_compute; reflexivity|].
  pose proof (active_release_boundary codeUnitCompare historyFourDays _ 0%nat _
                ltac:(vm_compute; reflexivity) ltac:(vm_compute; reflexivity)
                ltac:(vm_compute; reflexivity)) as H.
  simpl in H. destruct H as (_ & _ & _ & _ & _ & H1 & _ & H2).
  split; [exact H1|]. split; [reflexivity|exact H2].
Defined.

(** ** The rolling averages *)

Lemma round_div_nearest (s n : Z) :
  0 < n -> Z.abs (2 * (n * round_div s n - s)) <= n.
Proof.
  intros Hn. unfold round_div.
  pose proof (Z.mul_div_le (2 * s + n) (2 * n) ltac:(lia)).
  pose proof (Z.mul_succ_div_gt (2 * s + n) (2 * n) ltac:(lia)).
  lia.
Qed.

Lemma derivativeData_lookup (points : list DataPoint.t) i p :
  points !! i = Some p ->
  derivativeData points !! i = Some (DataPoint.date p, DataPoint.dailyGrowth p).
Proof.
  intros Hp. unfold derivativeData. change (map ?f ?l) with (f <$> l).
  by rewrite list_lookup_fmap, Hp.
Qed.

Lemma foldl_add_window (points : list DataPoint.t) (n lo : nat) (a : Z) :
  (lo + n <= length points)%nat ->
  foldl Z.add a (map snd (take n (drop lo (derivativeData points))))
  = a + sumFrom (growthAt points) lo n.
Proof.
  revert lo a. induction n as [|n IH]; intros lo a Hle; simpl.
  - lia.
  - destruct (lookup_lt_is_Some_2 points lo) as [p Hp]; [lia|].
    rewrite (drop_S _ _ _ (derivativeData_lookup _ _ _ Hp)). simpl. rewrite IH by lia.
    unfold growthAt at 2. rewrite Hp. simpl. lia.
Qed.

Lemma rollingAverage_length w derivative :
  length (rollingAverage w derivative) = length derivative.
Proof. apply length_imap. Qed.

Lemma rollingAverage_lookup (w : Z) (points : list DataPoint.t) (i : nat) p :
  1 <= w ->
  points !! i = Some p ->
  exists y, rollingAverage w (derivativeData points) !! i = Some (DataPoint.date p, y)
    /\ isWindowMean w points i y.
Proof.
  intros Hw Hp. pose proof (lookup_lt_Some _ _ _ Hp) as Hlt.
  unfold rollingAverage. rewrite list_lookup_imap.
  rewrite (derivativeData_lookup _ _ _ Hp). simpl. eexists. split; [reflexivity|].
  unfold isWindowMean, slice.
  set (lo := Z.to_nat (Z.max 0 (Z.of_nat i - w + 1))).
  assert (lo <= i)%nat as Hlo by lia.
  assert (length (map snd (take (i + 1 - lo) (drop lo (derivativeData points))))
          = (i + 1 - lo)%nat) as Hlen.
  { rewrite length_map, length_take, length_drop. unfold derivativeData.
    rewrite length_map. lia. }
  rewrite Hlen. rewrite foldl_add_window by lia.
  destruct (Nat.ltb_spec 0 (i + 1 - lo)) as [_|?]; [|lia].
  rewrite Z.add_0_l. split; [done|]. apply round_div_nearest. lia.
Qed.

(** C7: for a non-empty series and each of the two windows, 7 and 30, the
    rolling average has one element per snapshot, and element [i] carries the
    snapshot's date and the mean of [dailyGrowth] over the snapshots
    [max(0, i - w + 1) .. i], rounded to the nearest integer; the window is
    narrower at the start.  Growth 10, 20, 30 gives 10, 15, 20 at window 7. *)
Theorem rolling_average_is_window_mean (points : list DataPoint.t) (i : nat) (p : DataPoint.t) :
  points !! i = Some p ->
  (length (rollingAverageData7Day (derivativeData points)) = length points
   /\ exists y, rollingAverageData7Day (derivativeData points) !! i
                = Some (DataPoint.date p, y)
        /\ isWindowMean 7 points i y)
  /\ (length (rollingAverageData30Day (derivativeData points)) = length points
      /\ exists y, rollingAverageData30Day (derivativeData points) !! i
                   = Some (DataPoint.date p, y)
           /\ isWindowMean 30 points i y)
  /\ map snd (rollingAverageData7Day (derivativeData (dataPoints historyGrowth)))
     = [10; 15; 20].
Proof.
  intros Hp. unfold rollingAverageData7Day, rollingAverageData30Day.
  rewrite !rollingAverage_length. unfold derivativeData at 1 3.
  rewrite !length_map. split; [|split].
  - split; [done|]. by apply rollingAverage_lookup.
  - split; [done|]. by apply rollingAverage_lookup.
  - reflexivity.
Qed.

Lemma rolling_average_is_window_mean_witness :
  exists y, rollingAverageData7Day (derivativeData (dataPoints historyGrowth)) !! 1%nat
            = Some (day, y)
    /\ isWindowMean 7 (dataPoints historyGrowth) 1 y.
Proof.
  eapply proj2. eapply proj1.
  refine (rolling_average_is_window_mean (dataPoints historyGrowth) 1
            (DataPoint.mk day 30 20 []) _).
  reflexivity.
Defined.

(** ** The accepted series *)

Lemma or_zero_num z : or_zero (Some (JNum z)) = z.
Proof. simpl. destruct (Z.eqb_spec z 0); congruence. Qed.

Lemma acceptFrom_totals lastAccepted revisions :
  StronglySorted Z.le (map totalOf (acceptFrom lastAccepted revisions))
  /\ forall baseline, lastAccepted = Some baseline ->
       Forall (fun e => baseline <= totalOf e) (acceptFrom lastAccepted revisions).
Proof.
  revert lastAccepted. induction revisions as [|rev rest IH]; intros lastAccepted; simpl.
  - split; [constructor|]. intros; constructor.
  - destruct (revRecord rev) as [data|]; [|apply IH].
    destruct (get "downloads" data) as [[|total| |]|] eqn:Hget; try apply IH.
    destruct (IH (Some total)) as [Hs Hb]. specialize (Hb total eq_refl).
    assert (totalOf (revTimestamp rev, data) = total) as Htot.
    { unfold totalOf. simpl. rewrite Hget. apply or_zero_num. }
    destruct lastAccepted as [baseline|].
    + destruct (Z.leb_spec baseline total) as [Hle|Hgt]; [|apply IH].
      split.
      * simpl. constructor; [done|]. rewrite Htot. by apply Forall_fmap.
      * intros b [= <-]. constructor; [lia|].
        eapply Forall_impl; [exact Hb|]. simpl. intros; lia.
    + split; [|done]. simpl. constructor; [done|]. rewrite Htot. by apply Forall_fmap.
Qed.

Lemma acceptFrom_timestamp_elem lastAccepted revisions t :
  t ∈ map fst (acceptFrom lastAccepted revisions) -> t ∈ map revTimestamp revisions.
Proof.
  revert lastAccepted. induction revisions as [|rev rest IH]; intros lastAccepted; simpl.
  - done.
  - assert (forall l, t ∈ map fst (acceptFrom l rest) ->
                      t ∈ revTimestamp rev :: map revTimestamp rest) as Hskip.
    { intros l Hl. apply list_elem_of_further. by eapply IH. }
    destruct (revRecord rev) as [data|]; [|apply Hskip].
    destruct (get "downloads" data) as [[|total| |]|]; try apply Hskip.
    destruct (match lastAccepted with Some baseline => baseline <=? total | None => true end);
      [|apply Hskip].
    simpl. intros [->|Hin]%elem_of_cons; [apply list_elem_of_here|by eapply Hskip].
Qed.

(** The filter keeps the revisions it accepts in revision order: where the
    timestamps of the revisions increase, so do those of the accepted
    series. *)
Lemma acceptFrom_timestamps lastAccepted revisions :
  StronglySorted Z.lt (map revTimestamp revisions) ->
  StronglySorted Z.lt (map fst (acceptFrom lastAccepted revisions)).
Proof.
  revert lastAccepted. induction revisions as [|rev rest IH]; intros lastAccepted Hs; simpl.
  - constructor.
  - simpl in Hs. apply StronglySorted_inv in Hs as [Hs Hall].
    destruct (revRecord rev) as [data|]; [|by apply IH].
    destruct (get "downloads" data) as [[|total| |]|]; try by apply IH.
    destruct (match lastAccepted with Some baseline => baseline <=? total | None => true end);
      [|by apply IH].
    simpl. constructor; [by apply IH|].
    apply Forall_forall. intros t Ht. eapply Forall_forall in Hall; [exact Hall|].
    by eapply acceptFrom_timestamp_elem.
Qed.

Lemma Sorted_weaken {A : Type} (R S : A -> A -> Prop) (l : list A) :
  (forall x y, R x y -> S x y) -> Sorted R l -> Sorted S l.
Proof.
  intros HRS. induction 1 as [|x l Hl IH Hhd]; constructor; [done|].
  destruct Hhd; constructor; auto.
Qed.

Lemma StronglySorted_consecutive {A : Type} (R : A -> A -> Prop) (l : list A) i a b :
  StronglySorted R l -> l !! i = Some a -> l !! S i = Some b -> R a b.
Proof.
  intros Hs. revert i. induction Hs as [|x l Hl IH Hall]; intros i; [done|].
  destruct i as [|i]; simpl.
  - intros [= ->] Hb. eapply Forall_forall in Hall; [exact Hall|].
    by eapply list_elem_of_lookup_2.
  - apply IH.
Qed.

Lemma dataPoints_of_sorted_history h :
  Sorted Z.le (map fst h) -> dataPoints h = map toDataPoint h.
Proof.
  intros Hs. apply sort_by_sorted_id.
  induction h as [|[t d] h IH]; simpl; [constructor|].
  apply Sorted_inv in Hs as [Hs Hhd]. constructor; [by apply IH|].
  destruct h as [|[t' d'] h]; simpl; constructor.
  apply HdRel_inv in Hhd. unfold notAfter, byDate. simpl in *. lia.
Qed.

(** A list in non-decreasing order of a key and a rearrangement of it in
    increasing order of the key are the same list. *)
Lemma sorted_perm_unique {A : Type} (key : A -> Z) (l1 l2 : list A) :
  StronglySorted (fun a b => key a <= key b) l1 ->
  StronglySorted (fun a b => key a < key b) l2 ->
  l1 ≡ₚ l2 -> l1 = l2.
Proof.
  revert l2. induction l1 as [|x l1 IH]; intros l2 H1 H2 Hperm.
  - by apply Permutation_nil in Hperm.
  - destruct l2 as [|y l2]; [by apply Permutation_sym, Permutation_nil in Hperm|].
    apply StronglySorted_inv in H1 as [H1 Hx].
    apply StronglySorted_inv in H2 as [H2 Hy].
    assert (x = y) as ->.
    { assert (x ∈ y :: l2) as Hxin by (rewrite <- Hperm; apply list_elem_of_here).
      apply elem_of_cons in Hxin as [->|Hxin]; [done|].
      assert (y ∈ x :: l1) as Hyin by (rewrite Hperm; apply list_elem_of_here).
      apply elem_of_cons in Hyin as [->|Hyin]; [done|].
      eapply Forall_forall in Hx; [|exact Hyin].
      eapply Forall_forall in Hy; [|exact Hxin]. lia. }
    f_equal. apply IH; [done|done|]. by eapply Permutation_cons_inv.
Qed.

(** The normalizer alone keeps a total that decreases: it sorts, it does not
    filter. *)
Remark dataPoints_keeps_a_decreasing_total :
  downloadCounts (dataPoints [(0, record 100 []); (day, record 90 [])]) = [100; 90].
Proof. reflexivity. Qed.

(** C9, as stated, fails: the filter accepts in revision order, and a later
    revision with a larger total and an earlier timestamp is accepted; the
    sort by timestamp then puts the larger total first. *)
Lemma accepted_series_out_of_timestamp_order :
  exists series, extractSeries revisionsOutOfOrder = inr series
    /\ series = [ (day, record 100 []); (0, record 200 []) ]
    /\ downloadCounts (dataPoints series) = [200; 100]
    /\ ~ StronglySorted Z.le (downloadCounts (dataPoints series)).
Proof.
  eexists. split; [reflexivity|]. split; [reflexivity|]. split; [reflexivity|].
  intros Hs. apply StronglySorted_inv in Hs as [_ Hall].
  apply Forall_inv in Hall. vm_compute in Hall. by apply Hall.
Qed.

(** C9, amended: for a series accepted by the anomaly filter from revisions
    whose timestamps increase in revision order, and in whatever order the
    history file lists the accepted snapshots, the series that the script
    works on is the accepted series in revision order; its total never
    decreases from one element to the next, and its elements are in timestamp
    order. *)
Theorem accepted_totals_never_decrease (revisions : list Revision) (series h : History)
    (i : nat) (a b : Z) :
  extractSeries revisions = inr series ->
  Sorted Z.lt (map revTimestamp revisions) ->
  h ≡ₚ series ->
  let points := dataPoints h in
  downloadCounts points !! i = Some a ->
  downloadCounts points !! S i = Some b ->
  a <= b
  /\ points = map toDataPoint series
  /\ StronglySorted Z.lt (map fst series)
  /\ StronglySorted Z.le (downloadCounts points)
  /\ StronglySorted (fun p q => DataPoint.date p <= DataPoint.date q) points.
Proof.
  intros Hex Hts Hperm points Ha Hb.
  assert (series = acceptedSeries revisions) as Hseries.
  { unfold extractSeries in Hex. destruct (forallb _ revisions); congruence. }
  assert (StronglySorted Z.lt (map fst series)) as Hsorted.
  { rewrite Hseries. apply acceptFrom_timestamps.
    apply Sorted_StronglySorted; [|done]. intros x y z; lia. }
  assert (points = map toDataPoint series) as Hpoints.
  { apply (sorted_perm_unique DataPoint.date).
    - apply dataPoints_by_date.
    - clear -Hsorted. induction series as [|[t d] series IH]; simpl; [constructor|].
      simpl in Hsorted. apply StronglySorted_inv in Hsorted as [Hs Hall].
      constructor; [by apply IH|].
      apply Forall_forall. intros p (e & -> & He)%list_elem_of_fmap.
      eapply Forall_forall in Hall; [|by apply (list_elem_of_fmap_2 fst)].
      by destruct e.
    - unfold points. rewrite dataPoints_perm. by apply Permutation_map. }
  assert (StronglySorted Z.le (downloadCounts points)) as Hmono.
  { rewrite Hpoints, Hseries. unfold downloadCounts. rewrite map_map.
    destruct (acceptFrom_totals None revisions) as [Hs _].
    erewrite map_ext; [exact Hs|]. by intros [t d]. }
  split; [by eapply (StronglySorted_consecutive Z.le)|].
  split; [done|]. split; [done|]. split; [done|]. apply dataPoints_by_date.
Qed.

Lemma accepted_totals_never_decrease_witness :
  extractSeries revisionsWithDip
  = inr [ (0, record 100 []); (day, record 250 []); (3 * day, record 300 []) ]
  /\ downloadCounts
       (dataPoints [ (3 * day, record 300 []); (0, record 100 []); (day, record 250 []) ])
     = [100; 250; 300]
  /\ 250 <= 300.
Proof.
  split; [reflexivity|]. split; [reflexivity|].
  eapply proj1.
  refine (accepted_totals_never_decrease revisionsWithDip
            (acceptedSeries revisionsWithDip)
            [ (3 * day, record 300 []); (0, record 100 []); (day, record 250 []) ]
            1 250 300 _ _ _ _ _).
  - reflexivity.
  - vm_compute. repeat constructor.
  - exact (Permutation_cons_append
             [ (0, record 100 []); (day, record 250 []) ] (3 * day, record 300 [])).
  - reflexivity.
  - reflexivity.
Defined.

(** ** Absent and falsy fields *)

Lemma or_zero_falsy v : truthy v = false -> or_zero v = 0.
Proof.
  destruct v as [[|z| |]|]; simpl; try done.
  destruct (Z.eqb_spec z 0); [done|discriminate].
Qed.

Lemma get_withNumber_eq key z data : get key (withNumber key z data) = Some (JNum z).
Proof. unfold withNumber. simpl. by rewrite String.eqb_refl. Qed.

Lemma get_filter_ne key key' data :
  key <> key' ->
  get key' (List.filter (fun kv => negb (String.eqb (fst kv) key)) data) = get key' data.
Proof.
  intros Hne. induction data as [|[k v] data IH]; simpl; [done|].
  destruct (String.eqb_spec k key) as [->|Hk]; simpl.
  - rewrite IH. by destruct (String.eqb_spec key key').
  - by rewrite IH.
Qed.

Lemma get_withNumber_ne key key' z data :
  key <> key' -> get key' (withNumber key z data) = get key' data.
Proof.
  intros Hne. unfold withNumber. simpl.
  destruct (String.eqb_spec key key'); [done|]. by apply get_filter_ne.
Qed.

(** The [reduce] of lines 48-51 keeps, in their order, the entries whose key
    is a version key. *)
Lemma versionsOf_filter data :
  versionsOf data = List.filter (fun kv => versionKey (fst kv)) data.
Proof.
  unfold versionsOf.
  enough (forall acc,
            foldl (fun acc kv => assign acc (fst kv) (snd kv)) acc
                  (List.filter (fun kv => negb (reservedKey (fst kv))) data)
            = (acc ++ List.filter (fun kv => versionKey (fst kv)) data)%list) as H
    by apply (H []).
  induction data as [|[k v] data IH]; intros acc; simpl.
  - by rewrite app_nil_r.
  - unfold versionKey at 1. cbn [fst]. destruct (reservedKey k); simpl; [apply IH|].
    rewrite IH. unfold assign. cbn [fst snd].
    destruct (String.eqb k "__proto__"); simpl; [done|]. by rewrite <- app_assoc.
Qed.

Lemma versions_withNumber key z data :
  reservedKey key = true ->
  versionsOf (withNumber key z data) = versionsOf data.
Proof.
  intros Hres. rewrite !versionsOf_filter. unfold withNumber. simpl.
  unfold versionKey at 1. cbn [fst]. rewrite Hres. simpl.
  induction data as [|[k v] data IH]; simpl; [done|].
  destruct (String.eqb_spec k key) as [->|Hk]; simpl.
  - unfold versionKey at 2. cbn [fst]. by rewrite Hres.
  - destruct (versionKey k); simpl; by rewrite IH.
Qed.

Lemma toDataPoint_withDefaults t data :
  toDataPoint (t, withDefaults data) = toDataPoint (t, data).
Proof.
  unfold withDefaults.
  set (data1 := if truthy (get "downloads" data) then data
                else withNumber "downloads" 0 data).
  assert (toDataPoint (t, data1) = toDataPoint (t, data)) as H1.
  { subst data1. destruct (truthy (get "downloads" data)) eqn:Hd; [done|].
    unfold toDataPoint. rewrite get_withNumber_eq, get_withNumber_ne by done.
    rewrite versions_withNumber by done. by rewrite (or_zero_falsy _ Hd). }
  rewrite <- H1. destruct (truthy (get "dailyGrowth" data1)) eqn:Hg; [done|].
  unfold toDataPoint. rewrite get_withNumber_eq, get_withNumber_ne by done.
  rewrite versions_withNumber by done. by rewrite (or_zero_falsy _ Hg).
Qed.

Lemma dataPoints_withDefaults h :
  dataPoints (map (fun e => (fst e, withDefaults (snd e))) h) = dataPoints h.
Proof.
  unfold dataPoints. f_equal. rewrite map_map. apply map_ext.
  intros [t data]. apply toDataPoint_withDefaults.
Qed.

(** C10: a record of a timestamp-keyed history whose [downloads] or
    [dailyGrowth] is absent or falsy (null, false, the empty string or 0)
    raises no error.  Its snapshot is in the series: it carries the record's
    timestamp and version keys, 0 for the falsy field and the number of a
    field that holds one.  The script computes what it computes when the
    field is written out as 0; the only error it can raise on the history is
    the one for a key that is not a valid date; and on a history keyed by
    timestamps it completes, with the snapshot at its place in the dates, the
    totals and the growth data. *)
Theorem falsy_fields_default_to_zero localeCompare (h : History) (e : Z * JsObject) :
  e ∈ h ->
  toDataPoint e ∈ dataPoints h
  /\ DataPoint.date (toDataPoint e) = fst e
  /\ DataPoint.versions (toDataPoint e)
     = List.filter (fun kv => versionKey (fst kv)) (snd e)
  /\ (truthy (get "downloads" (snd e)) = false ->
      DataPoint.downloads (toDataPoint e) = 0)
  /\ (forall z, get "downloads" (snd e) = Some (JNum z) ->
      DataPoint.downloads (toDataPoint e) = z)
  /\ (truthy (get "dailyGrowth" (snd e)) = false ->
      DataPoint.dailyGrowth (toDataPoint e) = 0)
  /\ (forall z, get "dailyGrowth" (snd e) = Some (JNum z) ->
      DataPoint.dailyGrowth (toDataPoint e) = z)
  /\ toDataPoint e = toDataPoint (fst e, withDefaults (snd e))
  /\ chartData localeCompare h
     = chartData localeCompare (map (fun e => (fst e, withDefaults (snd e))) h)
  /\ (forall err, chartData localeCompare h = Throw err ->
      timestampKeyed h = false /\ err = RangeError "Invalid time value")
  /\ (timestampKeyed h = true ->
      exists out i,
        chartData localeCompare h = Normal out
        /\ dataPoints h !! i = Some (toDataPoint e)
        /\ cdDates out !! i = Some (fst e)
        /\ cdDownloadCounts out !! i = Some (DataPoint.downloads (toDataPoint e))
        /\ cdDerivativeData out !! i
           = Some (fst e, DataPoint.dailyGrowth (toDataPoint e))).
Proof.
  intros He.
  assert (toDataPoint e ∈ dataPoints h) as Hin
    by (rewrite dataPoints_perm; by apply list_elem_of_fmap_2).
  assert (h <> []) as Hne by (intros ->; by apply elem_of_nil in He).
  split; [done|].
  destruct e as [t data]. cbn [fst snd].
  split; [done|]. split; [apply versionsOf_filter|].
  split; [apply or_zero_falsy|].
  split; [intros z Hz; cbn [toDataPoint DataPoint.downloads]; rewrite Hz; apply or_zero_num|].
  split; [apply or_zero_falsy|].
  split; [intros z Hz; cbn [toDataPoint DataPoint.dailyGrowth]; rewrite Hz; apply or_zero_num|].
  split; [by rewrite toDataPoint_withDefaults|].
  split; [unfold chartData; by rewrite dataPoints_withDefaults|].
  split.
  { intros err [[-> _]|Herr]%chartData_Throw_inv; done. }
  intros Hvalid.
  destruct (chartData_nonempty localeCompare h Hne Hvalid) as [out Hout].
  apply list_elem_of_lookup in Hin as [i Hi].
  exists out, i. split; [done|]. split; [done|].
  destruct (chartData_Normal_inv _ _ _ Hout) as (_ & -> & -> & _ & -> & _).
  unfold downloadCounts, derivativeData. rewrite !list_lookup_fmap, Hi. done.
Qed.

Lemma falsy_fields_default_to_zero_witness :
  exists out i,
    chartData codeUnitCompare historyFalsyFields = Normal out
    /\ dataPoints historyFalsyFields !! i
       = Some (DataPoint.mk (2 * day) 0 0 [("1.0.0", JNum 11)])
    /\ cdDates out !! i = Some (2 * day)
    /\ cdDownloadCounts out !! i = Some 0
    /\ cdDerivativeData out !! i = Some (2 * day, 0).
Proof.
  pose proof (falsy_fields_default_to_zero codeUnitCompare historyFalsyFields
                (2 * day, [("downloads", JEmptyString); ("dailyGrowth", JFalse);
                           ("__proto__", JNum 1); ("1.0.0", JNum 11)])
                ltac:(do 2 apply list_elem_of_further; apply list_elem_of_here))
    as (_ & _ & _ & _ & _ & _ & _ & _ & _ & _ & Hrun).
  exact (Hrun eq_refl).
Defined.

(** ** Version comparison *)

Lemma comparePartsLoop_spec aParts bParts i n :
  match comparePartsLoop aParts bParts i n with
  | None =>
      forall j, (i <= j < i + n)%nat ->
        num_or_zero (aParts !! j) = num_or_zero (bParts !! j)
  | Some r =>
      exists k, (i <= k < i + n)%nat
        /\ (forall j, (i <= j < k)%nat ->
              num_or_zero (aParts !! j) = num_or_zero (bParts !! j))
        /\ num_or_zero (aParts !! k) <> num_or_zero (bParts !! k)
        /\ r = num_or_zero (aParts !! k) - num_or_zero (bParts !! k)
  end.
Proof.
  revert i. induction n as [|n IH]; intros i; simpl; [intros; lia|].
  destruct (Z.eqb_spec (num_or_zero (aParts !! i)) (num_or_zero (bParts !! i)))
    as [Heq|Hne]; simpl.
  - specialize (IH (S i)). destruct (comparePartsLoop aParts bParts (S i) n) as [r|].
    + destruct IH as (k & Hk & Hbefore & Hdiff & Hr). exists k.
      split; [lia|]. split; [|done]. intros j Hj.
      destruct (decide (j = i)) as [->|]; [done|]. apply Hbefore. lia.
    + intros j Hj. destruct (decide (j = i)) as [->|]; [done|]. apply IH. lia.
  - exists i. split; [lia|]. split; [intros; lia|]. done.
Qed.

Lemma num_or_zero_beyond (l : list Z) j : (length l <= j)%nat -> num_or_zero (l !! j) = 0.
Proof. intros H. by rewrite lookup_ge_None_2. Qed.

Lemma compareParts_first_difference (aParts bParts : list Z) k :
  (forall j, (j < k)%nat -> num_or_zero (aParts !! j) = num_or_zero (bParts !! j)) ->
  num_or_zero (aParts !! k) <> num_or_zero (bParts !! k) ->
  comparePartsLoop aParts bParts 0 (Nat.max (length aParts) (length bParts))
  = Some (num_or_zero (aParts !! k) - num_or_zero (bParts !! k)).
Proof.
  intros Hbefore Hdiff.
  assert (k < Nat.max (length aParts) (length bParts))%nat as Hk.
  { destruct (Nat.lt_ge_cases k (Nat.max (length aParts) (length bParts))); [done|].
    rewrite !num_or_zero_beyond in Hdiff by lia. done. }
  pose proof (comparePartsLoop_spec aParts bParts 0
                (Nat.max (length aParts) (length bParts))) as Hspec.
  destruct (comparePartsLoop _ _ _ _) as [r|].
  - destruct Hspec as (k' & Hk' & Hbefore' & Hdiff' & ->).
    destruct (Nat.lt_trichotomy k k') as [Hlt|[->|Hgt]]; [|done|].
    + exfalso. apply Hdiff, Hbefore'. lia.
    + exfalso. by apply Hdiff', Hbefore.
  - exfalso. apply Hdiff, Hspec. lia.
Qed.

Lemma compareParts_all_equal (aParts bParts : list Z) :
  (forall j, num_or_zero (aParts !! j) = num_or_zero (bParts !! j)) ->
  comparePartsLoop aParts bParts 0 (Nat.max (length aParts) (length bParts)) = None.
Proof.
  intros Heq.
  pose proof (comparePartsLoop_spec aParts bParts 0
                (Nat.max (length aParts) (length bParts))) as Hspec.
  destruct (comparePartsLoop _ _ _ _) as [r|]; [|done].
  destruct Hspec as (k & _ & _ & Hdiff & _). by destruct Hdiff.
Qed.

Lemma split_on_noneOf sep s : noneOf sep s = true -> split_on sep s = [s].
Proof.
  induction s as [|c s IH]; simpl; [done|].
  intros [Hc Hs]%andb_true_iff. apply negb_true_iff in Hc. by rewrite Hc, IH.
Qed.

Lemma split_on_first_separator sep s c t :
  noneOf sep s = true -> sep c = true ->
  split_on sep (s ++ String c t)%string = s :: split_on sep t.
Proof.
  intros Hs Hc. induction s as [|d s IH]; simpl in *; [by rewrite Hc|].
  apply andb_true_iff in Hs as [Hd Hs]. apply negb_true_iff in Hd.
  by rewrite Hd, IH.
Qed.

Lemma includes_hyphen_noneOf s : includes_hyphen s = negb (noneOf is_hyphen s).
Proof.
  induction s as [|c s IH]; simpl; [done|].
  rewrite IH. by destruct (is_hyphen c), (noneOf is_hyphen s).
Qed.

Lemma includes_hyphen_app s t :
  includes_hyphen (s ++ t)%string = includes_hyphen s || includes_hyphen t.
Proof. induction s as [|c s IH]; simpl; [done|]. by rewrite IH, orb_assoc. Qed.

Lemma noneOf_weaken (sep sep' : ascii -> bool) s :
  (forall c, sep' c = true -> sep c = true) -> noneOf sep s = true -> noneOf sep' s = true.
Proof.
  intros Hsep. induction s as [|c s IH]; simpl; [done|].
  intros [Hc Hs]%andb_true_iff. rewrite IH by done.
  destruct (sep' c) eqn:Hc'; [|done]. by rewrite (Hsep c Hc') in Hc.
Qed.

(** An identifier made of a base and a pre-release tag is read back as
    these. *)
Lemma tagged_identifier_parts base tag :
  noneOf is_hyphen_or_plus base = true ->
  noneOf is_hyphen tag = true ->
  versionBase (base ++ "-" ++ tag)%string = base
  /\ includes_hyphen (base ++ "-" ++ tag)%string = true
  /\ preReleaseTag (base ++ "-" ++ tag)%string = tag.
Proof.
  intros Hbase Htag. unfold versionBase, preReleaseTag.
  assert (noneOf is_hyphen base = true) as Hbase'.
  { eapply noneOf_weaken; [|exact Hbase]. intros c Hc.
    unfold is_hyphen_or_plus. unfold is_hyphen in Hc. by rewrite Hc. }
  split; [|split].
  - change ("-" ++ tag)%string with (String "-" tag).
    by rewrite split_on_first_separator.
  - rewrite includes_hyphen_app. simpl. apply orb_true_r.
  - change ("-" ++ tag)%string with (String "-" tag).
    rewrite split_on_first_separator by done. by rewrite split_on_noneOf.
Qed.

Lemma plain_identifier_parts base :
  noneOf is_hyphen_or_plus base = true ->
  versionBase base = base /\ includes_hyphen base = false.
Proof.
  intros Hbase. unfold versionBase. rewrite split_on_noneOf by done.
  split; [done|]. rewrite includes_hyphen_noneOf.
  rewrite (noneOf_weaken is_hyphen_or_plus is_hyphen); [done| |done].
  intros c Hc. unfold is_hyphen_or_plus. unfold is_hyphen in Hc. by rewrite Hc.
Qed.

Lemma compareVersions_equal_components localeCompare (a b : string) :
  (forall j, component a j = component b j) ->
  compareVersions localeCompare a b =
    match includes_hyphen a, includes_hyphen b with
    | false, true => 1
    | true, false => -1
    | false, false => 0
    | true, true => localeCompare (preReleaseTag a) (preReleaseTag b)
    end.
Proof.
  intros Heq. unfold compareVersions.
  rewrite (compareParts_all_equal _ _ Heq).
  by destruct (includes_hyphen a), (includes_hyphen b).
Qed.

Lemma component_tagged base tag j :
  noneOf is_hyphen_or_plus base = true ->
  noneOf is_hyphen tag = true ->
  component (base ++ "-" ++ tag)%string j = component base j.
Proof.
  intros Hbase Htag. unfold component, versionParts.
  destruct (tagged_identifier_parts base tag Hbase Htag) as (-> & _).
  by destruct (plain_identifier_parts base Hbase) as (-> & _).
Qed.

(** What [compareVersions] does decide: it goes by the first numeric
    component, from the left, in which the two identifiers differ, a missing
    component counting as 0; when all components agree, an identifier without
    a hyphen is greater than one with a hyphen, two without are equal, and two
    with a hyphen compare as the texts between their first and second hyphen
    do under [localeCompare].  So a base version is greater than the same base
    with a tag, and two versions of one base with tags free of hyphens compare
    as their tags.  Sorting 2.0.0, 1.9.0-beta, 1.9.0 with it gives 1.9.0-beta,
    1.9.0, 2.0.0. *)
Lemma compareVersions_order localeCompare (a b : string) :
  (forall k,
     (forall j, (j < k)%nat -> component a j = component b j) ->
     component a k <> component b k ->
     compareVersions localeCompare a b = component a k - component b k)
  /\ ((forall j, component a j = component b j) ->
      compareVersions localeCompare a b =
        match includes_hyphen a, includes_hyphen b with
        | false, true => 1
        | true, false => -1
        | false, false => 0
        | true, true => localeCompare (preReleaseTag a) (preReleaseTag b)
        end)
  /\ (forall base tag tag',
        noneOf is_hyphen_or_plus base = true ->
        noneOf is_hyphen tag = true ->
        noneOf is_hyphen tag' = true ->
        compareVersions localeCompare base (base ++ "-" ++ tag)%string = 1
        /\ compareVersions localeCompare (base ++ "-" ++ tag)%string base = -1
        /\ compareVersions localeCompare (base ++ "-" ++ tag)%string
                                         (base ++ "-" ++ tag')%string
           = localeCompare tag tag')
  /\ sort_by (compareVersions localeCompare) ["2.0.0"; "1.9.0-beta"; "1.9.0"]
     = ["1.9.0-beta"; "1.9.0"; "2.0.0"]
  /\ map Release.version (sortedReleases localeCompare (dataPoints historyThreeVersions))
     = ["1.9.0-beta"; "1.9.0"; "2.0.0"].
Proof.
  split; [|split; [|split; [|split]]].
  - intros k Hbefore Hdiff. unfold compareVersions.
    by rewrite (compareParts_first_difference _ _ k Hbefore Hdiff).
  - apply compareVersions_equal_components.
  - intros base tag tag' Hbase Htag Htag'.
    destruct (tagged_identifier_parts base tag Hbase Htag) as (_ & Hh & Ht).
    destruct (tagged_identifier_parts base tag' Hbase Htag') as (_ & Hh' & Ht').
    destruct (plain_identifier_parts base Hbase) as (_ & Hp).
    split; [|split].
    + rewrite compareVersions_equal_components.
      * by rewrite Hp, Hh.
      * intros j. by rewrite component_tagged.
    + rewrite compareVersions_equal_components.
      * by rewrite Hp, Hh.
      * intros j. by rewrite component_tagged.
    + rewrite compareVersions_equal_components.
      * by rewrite Hh, Hh', Ht, Ht'.
      * intros j. by rewrite !component_tagged.
  - reflexivity.
  - vm_compute. reflexivity.
Qed.

Lemma compareVersions_order_witness :
  compareVersions codeUnitCompare "1.9.0-beta" "1.9.0" = -1
  /\ compareVersions codeUnitCompare "1.9.0" "2.0.0" = 1 - 2
  /\ compareVersions codeUnitCompare "1.9.0-alpha" "1.9.0-beta"
     = codeUnitCompare "alpha" "beta".
Proof.
  split; [|split].
  - pose proof (compareVersions_order codeUnitCompare "1.9.0-beta" "1.9.0")
      as (_ & H & _).
    apply H. intros j. do 4 (destruct j as [|j]; [reflexivity|]). reflexivity.
  - pose proof (compareVersions_order codeUnitCompare "1.9.0" "2.0.0")
      as (H & _).
    apply (H 0%nat); [intros j Hj; lia|vm_compute; discriminate].
  - pose proof (compareVersions_order codeUnitCompare "" "")
      as (_ & _ & H & _).
    apply (H "1.9.0" "alpha" "beta"); reflexivity.
Defined.

(** C6, on two pre-releases of one base whose tags differ after a hyphen:
    line 154 takes [split("-")[1]], the text up to the next hyphen, as the
    tag, so of rc-1 and rc-2 it compares rc with rc.  The two versions
    compare as equal whichever is first, although their tags differ, and the
    sort leaves them in the order it finds them. *)
Theorem compareVersions_cuts_the_tag_at_a_hyphen localeCompare :
  preReleaseTag "1.0.0-rc-1" = "rc"
  /\ preReleaseTag "1.0.0-rc-2" = "rc"
  /\ compareVersions localeCompare "1.0.0-rc-1" "1.0.0-rc-2" = localeCompare "rc" "rc"
  /\ compareVersions localeCompare "1.0.0-rc-2" "1.0.0-rc-1" = localeCompare "rc" "rc"
  /\ compareVersions codeUnitCompare "1.0.0-rc-1" "1.0.0-rc-2" = 0
  /\ compareVersions codeUnitCompare "1.0.0-rc-2" "1.0.0-rc-1" = 0
  /\ codeUnitCompare "rc-1" "rc-2" = -1
  /\ sort_by (compareVersions codeUnitCompare) ["1.0.0-rc-2"; "1.0.0-rc-1"]
     = ["1.0.0-rc-2"; "1.0.0-rc-1"]
  /\ map Release.version
       (sortedReleases codeUnitCompare
          (dataPoints [ (0, record 10 [("1.0.0-rc-2", 1); ("1.0.0-rc-1", 2)]) ]))
     = ["1.0.0-rc-2"; "1.0.0-rc-1"].
Proof. by repeat split. Qed.

(** ** The current version of a data point *)

Lemma number_or_zero_not_NaN x : number_or_zero x <> NaN.
Proof. by destruct x as [[]|]. Qed.

Lemma numLt_irrefl a : ~ numLt a a.
Proof.
  destruct a as [|p|[]]; unfold numLt; intros H; try done.
  by apply Qclt_not_eq in H.
Qed.

Lemma numLt_trans a b c : numLt a b -> numLt b c -> numLt a c.
Proof.
  destruct a as [|p|[]], b as [|q|[]], c as [|r|[]]; unfold numLt; try done.
  apply Qclt_trans.
Qed.

Lemma numLt_trichotomy a b :
  a <> NaN -> b <> NaN -> numLt a b \/ a = b \/ numLt b a.
Proof.
  destruct a as [|p|[]], b as [|q|[]]; unfold numLt; intros Ha Hb; try done; auto.
  destruct (Qc_dec p q) as [[Hlt|Hgt]| ->]; auto.
Qed.

Lemma strictEquals_true a b : strictEquals a b = true -> a = b.
Proof.
  destruct a as [|p|m], b as [|q|n]; simpl; try done.
  - destruct (Qccompare p q) eqn:Hc; try done. intros _. f_equal. by apply Qceq_alt.
  - intros H. f_equal. by apply Bool.eqb_prop.
Qed.

Lemma strictEquals_false a b :
  a <> NaN -> strictEquals a b = false -> a <> b.
Proof.
  intros Ha Hf ->. destruct b as [|q|n]; simpl in Hf; try done.
  - by rewrite (proj1 (Qceq_alt q q) eq_refl) in Hf.
  - by rewrite Bool.eqb_reflx in Hf.
Qed.

Lemma Qccompare_minus (p q : Qc) : Qccompare (q - p) 0%Qc = Qccompare q p.
Proof.
  destruct (Qc_dec q p) as [[Hlt|Hgt]| ->].
  - rewrite (proj1 (Qclt_alt q p) Hlt). apply Qclt_alt.
    apply (Qcplus_lt_mono_r _ _ p). by replace (q - p + p)%Qc with q by ring;
      replace (0 + p)%Qc with p by ring.
  - rewrite (proj1 (Qcgt_alt q p) Hgt). apply Qcgt_alt.
    apply (Qcplus_lt_mono_r _ _ p). by replace (q - p + p)%Qc with q by ring;
      replace (0 + p)%Qc with p by ring.
  - rewrite (proj1 (Qceq_alt p p) eq_refl). apply Qceq_alt. ring.
Qed.

(** The sign of [b - a] for two numbers that differ: it tells which of them
    is the smaller. *)
Lemma comparatorSign_minus a b :
  a <> NaN -> b <> NaN -> a <> b ->
  (comparatorSign (minus b a) <= 0 <-> numLt b a).
Proof.
  destruct a as [|p|[]], b as [|q|[]]; unfold numLt, minus, comparatorSign;
    intros Ha Hb Hne; try done.
  rewrite Qccompare_minus.
  destruct (Qccompare q p) eqn:Hc.
  - apply Qceq_alt in Hc. congruence.
  - apply Qclt_alt in Hc. split; [done|lia].
  - split; [lia|]. intros Hlt. apply (proj1 (Qclt_alt _ _)) in Hlt. congruence.
Qed.

Lemma newestFirstLoop_spec aParts bParts i n :
  let ca j := number_or_zero (aParts !! j) in
  let cb j := number_or_zero (bParts !! j) in
  (newestFirstLoop aParts bParts i n = Finite 0%Qc
   /\ forall j, (i <= j < i + n)%nat -> ca j = cb j)
  \/ exists k, (i <= k < i + n)%nat
       /\ (forall j, (i <= j < k)%nat -> ca j = cb j)
       /\ ca k <> cb k
       /\ newestFirstLoop aParts bParts i n = minus (cb k) (ca k).
Proof.
  intros ca cb. revert i. induction n as [|n IH]; intros i; simpl.
  - left. split; [done|]. intros; lia.
  - fold (ca i) (cb i). destruct (strictEquals (ca i) (cb i)) eqn:Hs; simpl.
    + apply strictEquals_true in Hs as Heq.
      destruct (IH (S i)) as [[H0 Hall]|(k & Hk & Hbefore & Hdiff & Hr)].
      * left. split; [done|]. intros j Hj.
        destruct (decide (j = i)) as [->|]; [done|]. apply Hall. lia.
      * right. exists k. split; [lia|]. split; [|done]. intros j Hj.
        destruct (decide (j = i)) as [->|]; [done|]. apply Hbefore. lia.
    + right. exists i. split; [lia|]. split; [intros; lia|]. split; [|done].
      apply strictEquals_false; [apply number_or_zero_not_NaN|done].
Qed.

Lemma labelComponent_beyond v j :
  (length (map Number (split_on is_dot v)) <= j)%nat -> labelComponent v j = Finite 0%Qc.
Proof. intros H. unfold labelComponent. by rewrite lookup_ge_None_2. Qed.

Lemma newestFirst_cases a b :
  (newestFirst a b = Finite 0%Qc /\ forall j, labelComponent a j = labelComponent b j)
  \/ exists k, (forall j, (j < k)%nat -> labelComponent a j = labelComponent b j)
       /\ labelComponent a k <> labelComponent b k
       /\ newestFirst a b = minus (labelComponent b k) (labelComponent a k).
Proof.
  unfold newestFirst.
  destruct (newestFirstLoop_spec (map Number (split_on is_dot a))
              (map Number (split_on is_dot b)) 0
              (Nat.max (length (map Number (split_on is_dot a)))
                       (length (map Number (split_on is_dot b)))))
    as [[H0 Hall]|(k & Hk & Hbefore & Hdiff & Hr)].
  - left. split; [done|]. intros j.
    destruct (Nat.lt_ge_cases j
                (Nat.max (length (map Number (split_on is_dot a)))
                         (length (map Number (split_on is_dot b))))) as [Hj|Hj].
    + apply Hall. lia.
    + rewrite !labelComponent_beyond; [done|lia|lia].
  - right. exists k. split; [|done]. intros j Hj. apply Hbefore. lia.
Qed.

Lemma newestFirst_le_iff a b :
  newestFirstSign a b <= 0 <-> lexGe (labelComponent a) (labelComponent b).
Proof.
  unfold newestFirstSign.
  destruct (newestFirst_cases a b) as [[H0 Hall]|(k & Hbefore & Hdiff & Hr)].
  - rewrite H0. split; [|done]. intros _. by left.
  - rewrite Hr, comparatorSign_minus; [|apply number_or_zero_not_NaN..|done]. split.
    + intros Hlt. right. by exists k.
    + intros [Hall|(k' & Hbefore' & Hlt)]; [by destruct Hdiff|].
      destruct (Nat.lt_trichotomy k k') as [Hc|[->|Hc]]; [|done|].
      * exfalso. by apply Hdiff, Hbefore'.
      * exfalso. rewrite (Hbefore k' Hc) in Hlt. by apply numLt_irrefl in Hlt.
Qed.

Lemma lexGe_trans f g h : lexGe f g -> lexGe g h -> lexGe f h.
Proof.
  intros [Hfg|(k1 & Hb1 & H1)] [Hgh|(k2 & Hb2 & H2)].
  - left. intros j. by rewrite Hfg.
  - right. exists k2. split; [intros j Hj; rewrite Hfg; by apply Hb2|].
    by rewrite Hfg.
  - right. exists k1. split; [intros j Hj; rewrite <- Hgh; by apply Hb1|].
    by rewrite <- Hgh.
  - right. destruct (Nat.lt_trichotomy k1 k2) as [Hc|[->|Hc]].
    + exists k1. split; [intros j Hj; rewrite Hb1, Hb2; [done|lia|done]|].
      rewrite <- Hb2; done.
    + exists k2. split; [intros j Hj; rewrite Hb1, Hb2; done|].
      by eapply numLt_trans.
    + exists k2. split; [intros j Hj; rewrite Hb1, Hb2; [done|done|lia]|].
      rewrite Hb1; done.
Qed.

Lemma lexGe_total_newestFirst a b :
  lexGe (labelComponent a) (labelComponent b) \/ lexGe (labelComponent b) (labelComponent a).
Proof.
  destruct (newestFirst_cases a b) as [[H0 Hall]|(k & Hbefore & Hdiff & Hr)].
  - left. by left.
  - destruct (numLt_trichotomy (labelComponent a k) (labelComponent b k))
      as [Hlt|[Heq|Hgt]]; [apply number_or_zero_not_NaN..| |done|].
    + right. right. exists k. split; [|done]. intros j Hj. symmetry. by apply Hbefore.
    + left. right. by exists k.
Qed.

Lemma newestFirst_total a b : newestFirstSign a b <= 0 \/ newestFirstSign b a <= 0.
Proof. rewrite !newestFirst_le_iff. apply lexGe_total_newestFirst. Qed.

Lemma newestFirst_trans a b c :
  newestFirstSign a b <= 0 -> newestFirstSign b c <= 0 -> newestFirstSign a c <= 0.
Proof. rewrite !newestFirst_le_iff. apply lexGe_trans. Qed.

(** The first element of the keys sorted newest first is a key that no key
    exceeds. *)
Lemma newestVersion_greatest (versions : list string) :
  versions <> [] ->
  exists v, head (sort_by newestFirstSign versions) = Some v
    /\ v ∈ versions
    /\ forall u, u ∈ versions -> lexGe (labelComponent v) (labelComponent u).
Proof.
  intros Hne.
  destruct (sort_by newestFirstSign versions) as [|v s] eqn:Hs.
  { apply (f_equal length) in Hs. rewrite sort_by_length in Hs. by destruct versions. }
  exists v. split; [done|].
  destruct (sort_by_head_least newestFirstSign newestFirst_total newestFirst_trans versions v)
    as [Hin Hleast]; [by rewrite Hs|].
  split; [done|]. intros u Hu. by apply newestFirst_le_iff, Hleast.
Qed.



Lemma tagPoint_no_keys carried p :
  keys (DataPoint.versions p) = [] -> tagPoint carried p = carried.
Proof. intros H. unfold tagPoint. by rewrite H. Qed.

Lemma tagPoint_keys carried p :
  keys (DataPoint.versions p) <> [] ->
  tagPoint carried p =
    if noVersion carried || includesVersion (keys (DataPoint.versions p)) carried
    then head (sort_by newestFirstSign (keys (DataPoint.versions p)))
    else carried.
Proof.
  intros H. unfold tagPoint.
  destruct (keys (DataPoint.versions p)) as [|v vs] eqn:Hk; [done|]. done.
Qed.


Lemma head_sort_by_elem {A : Type} (cmp : A -> A -> Z) (l : list A) (x : A) :
  head (sort_by cmp l) = Some x -> x ∈ l.
Proof.
  intros H. apply (sort_by_elem cmp). destruct (sort_by cmp l); [done|].
  simpl in H. injection H as ->. left.
Qed.





Example labelComponent_of_a_suffixed_component :
  labelComponent "1.0.5-beta" 2 = Finite 0%Qc
  /\ labelComponent "1.0.4" 2 = Finite (Q2Qc 4)
  /\ newestFirstSign "1.0.4" "1.0.5-beta" = -1
  /\ newestFirstSign "2.0.0-rc.1" "2.0.0" = -1.
Proof. by vm_compute. Qed.



(** * Further properties of the script *)

(** ** Discovery: one release per version, at its first data point *)

Lemma StronglySorted_snoc {A : Type} (R : A -> A -> Prop) (l : list A) (x : A) :
  StronglySorted R l -> Forall (fun y => R y x) l -> StronglySorted R (l ++ [x]).
Proof.
  induction 1 as [|y l Hl IH Hall]; intros Hx; simpl; [repeat constructor|].
  apply Forall_cons in Hx as [Hy Hx]. constructor; [by apply IH|].
  apply Forall_app. split; [done|]. by constructor.
Qed.

Lemma collectVersion_discoveryInv points k st p v :
  discoveryInv points k st ->
  points !! k = Some p ->
  v ∈ keys (DataPoint.versions p) ->
  discoveryInv points k (collectVersion p k st v)
  /\ v ∈ snd (collectVersion p k st v)
  /\ forall u, u ∈ snd st -> u ∈ snd (collectVersion p k st v).
Proof.
  intros (Hnd & Hseen & Hprev & Hrel & Hord) Hp Hv.
  destruct st as [rels seen]. unfold collectVersion. simpl in *.
  case_decide as Hin; simpl.
  { split; [|done]. unfold discoveryInv. simpl. done. }
  assert (v ∉ map Release.version rels) as Hfresh by (by rewrite <- Hseen).
  split; [|split; [apply elem_of_union_l; by apply elem_of_singleton
                   |intros u Hu; by apply elem_of_union_r]].
  unfold discoveryInv. cbn [fst snd].
  split; [|split; [|split; [|split]]].
  - rewrite map_app. simpl. apply NoDup_app. split; [done|].
    split; [|apply NoDup_singleton].
    intros u Hu Hu'. apply list_elem_of_singleton in Hu' as ->. done.
  - intros u. rewrite map_app, elem_of_app. simpl.
    rewrite list_elem_of_singleton, elem_of_union, elem_of_singleton, Hseen.
    tauto.
  - intros j q u Hj Hq Hu. apply elem_of_union_r. by eapply Hprev.
  - intros r [Hr| ->%list_elem_of_singleton]%elem_of_app; [by apply Hrel|].
    simpl. split; [done|]. split.
    + exists p. simpl. done.
    + simpl. intros j q Hj Hq Hu. apply Hin. by eapply Hprev.
  - rewrite map_app. simpl. apply StronglySorted_snoc; [done|].
    apply Forall_forall. intros x Hx.
    apply list_elem_of_fmap in Hx as (r & -> & Hr). by apply Hrel.
Qed.

Lemma collectVersions_discoveryInv points k p versions st :
  discoveryInv points k st ->
  points !! k = Some p ->
  (forall v, v ∈ versions -> v ∈ keys (DataPoint.versions p)) ->
  let st' := foldl (collectVersion p k) st versions in
  discoveryInv points k st'
  /\ (forall v, v ∈ versions -> v ∈ snd st')
  /\ forall u, u ∈ snd st -> u ∈ snd st'.
Proof.
  revert st. induction versions as [|v vs IH]; intros st Hinv Hp Hsub; simpl.
  - split; [done|]. split; [|done]. intros v Hv. by apply elem_of_nil in Hv.
  - destruct (collectVersion_discoveryInv points k st p v Hinv Hp) as (Hinv' & Hv & Hmono).
    { apply Hsub. left. }
    destruct (IH (collectVersion p k st v) Hinv' Hp) as (Hinv'' & Hvs & Hmono').
    { intros u Hu. apply Hsub. by right. }
    split; [done|]. split; [|by auto].
    intros u [->|Hu]%elem_of_cons; [by apply Hmono'|by apply Hvs].
Qed.

Lemma collectFrom_discoveryInv points rest k st :
  (forall j p, rest !! j = Some p -> points !! (k + j)%nat = Some p) ->
  discoveryInv points k st ->
  discoveryInv points (k + length rest) (collectFrom k rest st).
Proof.
  revert k st. induction rest as [|p rest IH]; intros k st Hrest Hinv; simpl.
  - by rewrite Nat.add_0_r.
  - assert (points !! k = Some p) as Hp.
    { specialize (Hrest 0%nat p eq_refl). by rewrite Nat.add_0_r in Hrest. }
    destruct (collectVersions_discoveryInv points k p (keys (DataPoint.versions p)) st
                Hinv Hp ltac:(done)) as (Hinv' & Hall & Hmono).
    replace (k + S (length rest))%nat with (S k + length rest)%nat by lia.
    apply IH.
    + intros j q Hq. specialize (Hrest (S j) q Hq).
      by replace (S k + j)%nat with (k + S j)%nat by lia.
    + destruct Hinv' as (Hnd & Hseen & Hprev & Hrel & Hord).
      split; [done|]. split; [done|]. split; [|split; [|done]].
      * intros j q v Hj Hq Hv. destruct (decide (j = k)) as [->|Hne].
        -- rewrite Hp in Hq. injection Hq as <-. by apply Hall.
        -- eapply Hprev; [|done|done]. lia.
      * intros r Hr. destruct (Hrel r Hr). split; [lia|done].
Qed.

Lemma discovery_final points :
  discoveryInv points (length points) (collectFrom 0 points ([], ∅)).
Proof.
  apply (collectFrom_discoveryInv points points 0); [done|].
  split; [constructor|]. split; [set_solver|]. split; [intros; lia|].
  split; [|constructor]. intros r Hr. by apply elem_of_nil in Hr.
Qed.

Lemma NoDup_map_inj_on {A B : Type} (f : A -> B) (l : list A) (x y : A) :
  NoDup (map f l) -> x ∈ l -> y ∈ l -> f x = f y -> x = y.
Proof.
  induction l as [|a l IH]; simpl; intros Hnd Hx Hy Hf; [by apply elem_of_nil in Hx|].
  apply NoDup_cons in Hnd as [Ha Hnd].
  apply elem_of_cons in Hx as [->|Hx]; apply elem_of_cons in Hy as [->|Hy].
  - done.
  - exfalso. apply Ha. rewrite Hf. by apply (list_elem_of_fmap_2 f).
  - exfalso. apply Ha. rewrite <- Hf. by apply (list_elem_of_fmap_2 f).
  - by apply IH.
Qed.

Lemma sortedReleases_versions_NoDup localeCompare points :
  NoDup (map Release.version (sortedReleases localeCompare points)).
Proof.
  destruct (discovery_final points) as (Hnd & _).
  assert (map Release.version (sortedReleases localeCompare points)
          ≡ₚ map Release.version (discoveredReleases points)) as Hperm
    by apply Permutation_map, sortedReleases_perm.
  by rewrite Hperm.
Qed.

Lemma sortedReleases_firstSeenAt localeCompare points r :
  r ∈ sortedReleases localeCompare points -> firstSeenAt points r.
Proof.
  rewrite sortedReleases_perm. intros Hr.
  destruct (discovery_final points) as (_ & _ & _ & Hrel & _). by apply Hrel.
Qed.

(** X1: every version key that a data point lists has exactly one release,
    and that release starts at that data point or before it. *)
Theorem each_listed_version_has_one_release localeCompare
    (points : list DataPoint.t) (j : nat) (p : DataPoint.t) (v : string) :
  points !! j = Some p ->
  v ∈ keys (DataPoint.versions p) ->
  exists r, r ∈ sortedReleases localeCompare points
    /\ Release.version r = v
    /\ (Release.index r <= j)%nat
    /\ forall r', r' ∈ sortedReleases localeCompare points ->
         Release.version r' = v -> r' = r.
Proof.
  intros Hp Hv.
  destruct (discovery_final points) as (Hnd & Hseen & Hprev & Hrel & _).
  assert (v ∈ map Release.version (discoveredReleases points)) as Hin.
  { apply Hseen. eapply Hprev; [|exact Hp|exact Hv]. by eapply lookup_lt_Some. }
  apply list_elem_of_fmap in Hin as (r & -> & Hr).
  exists r. split; [by rewrite sortedReleases_perm|]. split; [done|]. split.
  - destruct (Hrel r Hr) as (_ & _ & Hfirst).
    destruct (Nat.le_gt_cases (Release.index r) j) as [|Hlt]; [done|].
    exfalso. by eapply Hfirst.
  - intros r' Hr' Heq. rewrite sortedReleases_perm in Hr'.
    by eapply (NoDup_map_inj_on Release.version).
Qed.

Lemma each_listed_version_has_one_release_witness :
  exists r, r ∈ sortedReleases codeUnitCompare (dataPoints historyFourDays)
    /\ Release.version r = "1.0.0"
    /\ (Release.index r <= 3)%nat.
Proof.
  destruct (each_listed_version_has_one_release codeUnitCompare
              (dataPoints historyFourDays) 3
              (DataPoint.mk (3 * day) 260 0 [("1.0.0", JNum 120); ("1.1.0", JNum 40)])
              "1.0.0" ltac:(reflexivity)
              ltac:(apply list_elem_of_here)) as (r & Hr & Hv & Hi & _).
  by exists r.
Defined.

(** X2: a release sits at the first data point that lists its version: it
    carries that point's date and total, and no earlier data point has the
    version among its keys. *)
Theorem release_starts_at_first_listing localeCompare
    (points : list DataPoint.t) (r : Release.t) :
  r ∈ sortedReleases localeCompare points ->
  exists p, points !! Release.index r = Some p
    /\ Release.date r = DataPoint.date p
    /\ Release.downloads r = DataPoint.downloads p
    /\ Release.version r ∈ keys (DataPoint.versions p)
    /\ forall j q, (j < Release.index r)%nat -> points !! j = Some q ->
         Release.version r ∉ keys (DataPoint.versions q).
Proof.
  intros Hr.
  destruct (sortedReleases_firstSeenAt _ _ _ Hr)
    as ((p & Hp & Hd & Ht & Hv) & Hfirst).
  exists p. repeat (split; [done|]). exact Hfirst.
Qed.

Lemma release_starts_at_first_listing_witness :
  exists p, dataPoints historyFourDays !! 1%nat = Some p
    /\ day = DataPoint.date p
    /\ 150 = DataPoint.downloads p.
Proof.
  destruct (release_starts_at_first_listing codeUnitCompare
              (dataPoints historyFourDays) (Release.mk "1.0.0" day 1 150))
    as (p & Hp & Hd & Ht & _).
  - vm_compute. apply list_elem_of_here.
  - by exists p.
Defined.

(** X3: the discovery loop pushes the releases in the order of their data
    points, and no version twice; the later sort by version keeps the
    versions distinct. *)
Theorem releases_discovered_in_series_order localeCompare (points : list DataPoint.t) :
  StronglySorted le (map Release.index (discoveredReleases points))
  /\ NoDup (map Release.version (discoveredReleases points))
  /\ NoDup (map Release.version (sortedReleases localeCompare points))
  /\ length (sortedReleases localeCompare points) = length (discoveredReleases points).
Proof.
  destruct (discovery_final points) as (Hnd & _ & _ & _ & Hord).
  split; [done|]. split; [done|]. split; [apply sortedReleases_versions_NoDup|].
  apply sort_by_length.
Qed.

Lemma versionKey_true k :
  versionKey k = true <-> reservedKey k = false /\ k <> "__proto__".
Proof.
  unfold versionKey. destruct (reservedKey k); simpl; [by split; [|intros []]|].
  destruct (String.eqb_spec k "__proto__"); simpl; split; try done.
  by intros [_ ?].
Qed.

Lemma keys_versions_toDataPoint e k :
  k ∈ keys (DataPoint.versions (toDataPoint e))
  <-> k ∈ keys (snd e) /\ versionKey k = true.
Proof.
  destruct e as [t data]. cbn [toDataPoint DataPoint.versions snd].
  rewrite versionsOf_filter. unfold keys.
  induction data as [|[k' v] data IH]; simpl.
  - split; [intros H; by apply elem_of_nil in H|intros [H _]; by apply elem_of_nil in H].
  - destruct (versionKey k') eqn:Hres; simpl.
    + rewrite !elem_of_cons, IH. split; [|tauto].
      intros [->|[Hk Hr]]; [|tauto]. split; [by left|done].
    + rewrite IH, elem_of_cons. split; [tauto|].
      intros [[->|Hk] Hr]; [congruence|done].
Qed.

(** X4: the keys [downloads], [updated] and [dailyGrowth] of a record are
    never version keys of its data point, and neither is the key
    [__proto__], which the assignment of line 49 does not add to the object;
    every other key of the record is a version key.  So no release is named
    after one of the four. *)
Theorem reserved_keys_are_never_versions localeCompare (h : History) (r : Release.t) :
  r ∈ sortedReleases localeCompare (dataPoints h) ->
  reservedKey (Release.version r) = false
  /\ Release.version r <> "downloads"
  /\ Release.version r <> "updated"
  /\ Release.version r <> "dailyGrowth"
  /\ Release.version r <> "__proto__"
  /\ forall e k, e ∈ h ->
       (k ∈ keys (DataPoint.versions (toDataPoint e))
        <-> k ∈ keys (snd e) /\ reservedKey k = false /\ k <> "__proto__").
Proof.
  intros Hr.
  destruct (sortedReleases_seenAt _ _ _ Hr) as (p & Hp & _ & _ & Hv).
  assert (p ∈ dataPoints h) as Hin by (by eapply list_elem_of_lookup_2).
  rewrite dataPoints_perm in Hin. apply list_elem_of_fmap in Hin as (e & -> & He).
  apply keys_versions_toDataPoint in Hv as [_ [Hres Hproto]%versionKey_true].
  split; [done|].
  split; [intros Heq; by rewrite Heq in Hres|].
  split; [intros Heq; by rewrite Heq in Hres|].
  split; [intros Heq; by rewrite Heq in Hres|].
  split; [done|].
  intros e' k _. rewrite keys_versions_toDataPoint, versionKey_true. done.
Qed.

Lemma reserved_keys_are_never_versions_witness :
  "1.0.0" <> "__proto__"
  /\ keys (DataPoint.versions
             (toDataPoint (2 * day, [("downloads", JEmptyString); ("dailyGrowth", JFalse);
                                     ("__proto__", JNum 1); ("1.0.0", JNum 11)])))
     = ["1.0.0"].
Proof.
  destruct (reserved_keys_are_never_versions codeUnitCompare historyFalsyFields
              (Release.mk "1.0.0" 0 0 0)) as (_ & _ & _ & _ & H & _).
  - vm_compute. apply list_elem_of_here.
  - split; [exact H|reflexivity].
Defined.

(** ** The version index map and the colours *)

Lemma versionToIndexMap_snoc versionReleases r :
  versionToIndexMap (versionReleases ++ [r])
  = <[ Release.version r := length versionReleases ]> (versionToIndexMap versionReleases).
Proof.
  unfold versionToIndexMap. rewrite imap_app, foldl_app. simpl.
  by rewrite Nat.add_0_r.
Qed.

Lemma versionToIndexMap_lookup_Some versionReleases v i :
  versionToIndexMap versionReleases !! v = Some i ->
  exists r, versionReleases !! i = Some r /\ Release.version r = v.
Proof.
  revert i. induction versionReleases as [|r rels IH] using rev_ind; intros i.
  - unfold versionToIndexMap. simpl. by rewrite lookup_empty.
  - rewrite versionToIndexMap_snoc.
    destruct (decide (Release.version r = v)) as [<-|Hne].
    + rewrite lookup_insert_eq. intros [= <-]. exists r.
      split; [|done]. by rewrite lookup_app_r, Nat.sub_diag.
    + rewrite lookup_insert_ne by done. intros (r' & Hr' & Hv)%IH.
      exists r'. split; [|done]. by apply lookup_app_l_Some.
Qed.

Lemma versionToIndexMap_lookup_NoDup versionReleases i r :
  NoDup (map Release.version versionReleases) ->
  versionReleases !! i = Some r ->
  versionToIndexMap versionReleases !! Release.version r = Some i.
Proof.
  revert i. induction versionReleases as [|r' rels IH] using rev_ind; intros i Hnd Hi;
    [done|].
  rewrite versionToIndexMap_snoc. rewrite map_app in Hnd.
  apply NoDup_app in Hnd as (Hnd & Hfresh & _).
  destruct (decide (i < length rels)%nat) as [Hlt|Hge].
  - rewrite lookup_app_l in Hi by done.
    rewrite lookup_insert_ne; [by apply IH|].
    intros Heq. apply (Hfresh (Release.version r)).
    + apply (list_elem_of_fmap_2 Release.version). by eapply list_elem_of_lookup_2.
    + rewrite <- Heq. simpl. left.
  - rewrite lookup_app_r in Hi by lia.
    destruct (i - length rels)%nat as [|n] eqn:Hn; simpl in Hi; [|done].
    injection Hi as ->. rewrite lookup_insert_eq. f_equal.
    pose proof (lookup_ge_None_2 rels i). lia.
Qed.

(** X5: [versionToIndexMap] and the sorted array of releases are inverse to
    each other: a release's version maps to the release's position, every
    entry of the map points at a release of that version, and a version
    without a release is not in the map. *)
Theorem versionToIndexMap_inverts_the_array localeCompare
    (points : list DataPoint.t) (i : nat) (r : Release.t) :
  sortedReleases localeCompare points !! i = Some r ->
  let m := versionToIndexMap (sortedReleases localeCompare points) in
  m !! Release.version r = Some i
  /\ (forall v j, m !! v = Some j ->
        exists r', sortedReleases localeCompare points !! j = Some r'
          /\ Release.version r' = v)
  /\ (forall v, m !! v = None <->
        forall r', r' ∈ sortedReleases localeCompare points -> Release.version r' <> v)
  /\ size m = length (sortedReleases localeCompare points).
Proof.
  intros Hi m.
  pose proof (sortedReleases_versions_NoDup localeCompare points) as Hnd.
  split; [by apply versionToIndexMap_lookup_NoDup|].
  split; [intros v j; apply versionToIndexMap_lookup_Some|].
  split.
  - intros v. split.
    + intros Hnone r' Hr' Hv. apply list_elem_of_lookup in Hr' as [j Hj].
      pose proof (versionToIndexMap_lookup_NoDup _ _ _ Hnd Hj) as Hsome.
      rewrite Hv in Hsome. unfold m in Hnone. congruence.
    + intros Hno. destruct (m !! v) as [j|] eqn:Hj; [|done].
      apply versionToIndexMap_lookup_Some in Hj as (r' & Hr' & Hv).
      exfalso. eapply Hno; [|exact Hv]. by eapply list_elem_of_lookup_2.
  - unfold m. clear Hi m. revert Hnd.
    induction (sortedReleases localeCompare points) as [|r' rels IH] using rev_ind;
      intros Hnd; [done|].
    rewrite versionToIndexMap_snoc, length_app. simpl. rewrite map_app in Hnd.
    apply NoDup_app in Hnd as (Hnd & Hfresh & _).
    rewrite map_size_insert_None; [rewrite IH by done; lia|].
    destruct (versionToIndexMap rels !! Release.version r') as [j|] eqn:Hj; [|done].
    apply versionToIndexMap_lookup_Some in Hj as (r'' & Hr'' & Hv).
    exfalso. apply (Hfresh (Release.version r')); [|left].
    rewrite <- Hv. apply (list_elem_of_fmap_2 Release.version).
    by eapply list_elem_of_lookup_2.
Qed.

Lemma versionToIndexMap_inverts_the_array_witness :
  versionToIndexMap (sortedReleases codeUnitCompare (dataPoints historyBackport))
    !! "2.0.0" = Some 1%nat.
Proof.
  eapply proj1.
  refine (versionToIndexMap_inverts_the_array codeUnitCompare
            (dataPoints historyBackport) 1 (Release.mk "2.0.0" 0 0 100) _).
  reflexivity.
Defined.

Lemma generateColors_length count : length (generateColors count) = count.
Proof. unfold generateColors. by rewrite length_map, length_seq. Qed.

Lemma generateColors_lookup count i :
  (i < count)%nat ->
  generateColors count !! i = Some (baseColors !!! (i mod 10)%nat).
Proof.
  intros Hi. unfold generateColors. change (map ?f ?l) with (f <$> l).
  rewrite list_lookup_fmap, lookup_seq_lt by done. done.
Qed.

Lemma baseColors_lookup_total k :
  (k < 10)%nat -> baseColors !! k = Some (baseColors !!! k).
Proof. intros Hk. apply list_lookup_lookup_total_lt. simpl. lia. Qed.

(** X6: [generateColors(count)] returns [count] colours; colour [i] is the
    palette entry [i mod 10], so the colours repeat with period 10, and they
    are pairwise distinct exactly when [count] is at most 10. *)
Theorem generateColors_cycles_through_the_palette (count i : nat) :
  (i < count)%nat ->
  length (generateColors count) = count
  /\ (exists c, generateColors count !! i = Some c
        /\ baseColors !! (i mod 10)%nat = Some c)
  /\ ((i + 10 < count)%nat ->
      generateColors count !! (i + 10)%nat = generateColors count !! i)
  /\ (NoDup (generateColors count) <-> (count <= 10)%nat).
Proof.
  intros Hi. split; [apply generateColors_length|]. split; [|split].
  - exists (baseColors !!! (i mod 10)%nat). split; [by apply generateColors_lookup|].
    apply baseColors_lookup_total. apply Nat.mod_upper_bound. lia.
  - intros Hi'. rewrite !generateColors_lookup by lia. do 2 f_equal.
    rewrite <- (Nat.Div0.add_mod_idemp_r i 10 10). by rewrite Nat.add_0_r.
  - split.
    + intros Hnd. destruct (Nat.le_gt_cases count 10) as [|Hgt]; [done|]. exfalso.
      assert (generateColors count !! 0%nat = generateColors count !! 10%nat) as Heq.
      { by rewrite !generateColors_lookup by lia. }
      rewrite generateColors_lookup in Heq by lia. symmetry in Heq.
      pose proof (proj1 (NoDup_alt _) Hnd 10%nat 0%nat _ Heq
                    (generateColors_lookup count 0 ltac:(lia))). lia.
    + intros Hle. clear Hi.
      do 11 (destruct count as [|count];
             [refine (bool_decide_unpack _ _); vm_compute; exact I|]).
      lia.
Qed.

Lemma generateColors_cycles_through_the_palette_witness :
  exists c, generateColors 12 !! 11%nat = Some c /\ baseColors !! 1%nat = Some c.
Proof.
  eapply proj1. eapply proj2.
  refine (generateColors_cycles_through_the_palette 12 11 _). lia.
Defined.

(** ** The datasets *)

Lemma arrayFill_nonneg {A : Type} (n : Z) (v : A) :
  0 <= n -> arrayFill n v = Some (replicate (Z.to_nat n) v).
Proof. intros Hn. unfold arrayFill. by destruct (Z.ltb_spec n 0); [lia|]. Qed.

Lemma arraySet_in_range {A : Type} (j : nat) (x : option A) (a : list (option A)) :
  (j < length a)%nat -> arraySet j x a = <[ j := x ]> a.
Proof. intros Hj. unfold arraySet. by destruct (Nat.ltb_spec j (length a)); [|lia]. Qed.

Lemma fill_range {A : Type} (c : option A) (n cur : nat) (blank : list (option A)) :
  (cur + n <= length blank)%nat ->
  let filled := foldl (fun pointColors j => arraySet j c pointColors) blank (seq cur n) in
  length filled = length blank
  /\ forall j, filled !! j =
       if decide (cur <= j < cur + n)%nat then Some c else blank !! j.
Proof.
  revert cur blank. induction n as [|n IH]; intros cur blank Hle; simpl.
  - split; [done|]. intros j. case_decide; [lia|done].
  - rewrite arraySet_in_range by lia.
    destruct (IH (S cur) (<[cur:=c]> blank)) as [Hlen Hlook].
    { rewrite length_insert. lia. }
    split; [by rewrite Hlen, length_insert|].
    intros j. rewrite Hlook. destruct (decide (j = cur)) as [->|Hne].
    + rewrite list_lookup_insert_eq by lia. repeat case_decide; try lia; done.
    + rewrite list_lookup_insert_ne by done. repeat case_decide; try lia; done.
Qed.

Lemma nextIdxAmong_range (later : list Release.t) (cur len : nat) :
  (forall r, r ∈ later -> (Release.index r < len)%nat) ->
  (cur < len)%nat ->
  (cur < nextIdxAmong later cur len <= len)%nat
  /\ (nextIdxAmong later cur len = len
      \/ exists r, r ∈ later /\ Release.index r = nextIdxAmong later cur len).
Proof.
  intros Hlt Hcur. induction later as [|r later IH]; simpl.
  - split; [lia|by left].
  - destruct (Nat.ltb_spec cur (Release.index r)) as [Hr|Hr].
    + split; [split; [done|]|].
      * apply Nat.lt_le_incl, Hlt. left.
      * right. exists r. split; [left|done].
    + destruct IH as [Hrange Hor]; [intros r' Hr'; apply Hlt; by right|].
      split; [done|]. destruct Hor as [Heq|(r' & Hr' & Hi)]; [by left|].
      right. exists r'. split; [by right|done].
Qed.

Section Datasets.
Variable points : list DataPoint.t.
Variable versionReleases : list Release.t.
Hypothesis releases_seen : forall r, r ∈ versionReleases -> seenAt points r.

Lemma nextIdx_range i cur :
  (cur < length points)%nat ->
  (cur < nextIdx (length points) versionReleases i cur <= length points)%nat
  /\ (nextIdx (length points) versionReleases i cur = length points
      \/ exists r, r ∈ versionReleases
           /\ Release.index r = nextIdx (length points) versionReleases i cur).
Proof.
  intros Hcur. unfold nextIdx.
  destruct (nextIdxAmong_range (drop (S i) versionReleases) cur (length points))
    as [Hrange Hor]; [|done|].
  - intros r Hr. apply seenAt_index_lt, releases_seen.
    apply list_elem_of_lookup in Hr as [k Hk]. rewrite lookup_drop in Hk.
    by eapply list_elem_of_lookup_2.
  - split; [done|]. destruct Hor as [Heq|(r & Hr & Hi)]; [by left|].
    right. exists r. split; [|done].
    apply list_elem_of_lookup in Hr as [k Hk]. rewrite lookup_drop in Hk.
    by eapply list_elem_of_lookup_2.
Qed.

Lemma endIdx_range i cur :
  (cur < length points)%nat ->
  (cur < endIdx (length points) versionReleases i cur <= length points)%nat.
Proof.
  intros Hcur. destruct (nextIdx_range i cur Hcur) as [Hrange _].
  unfold endIdx. destruct (_ <? _); simpl; [|done].
  destruct (Nat.ltb_spec (nextIdx (length points) versionReleases i cur) (length points));
    lia.
Qed.

Lemma paintedEnd_range i cur :
  (cur < length points)%nat ->
  (cur <= paintedEnd (length points) versionReleases i cur
       <= endIdx (length points) versionReleases i cur)%nat.
Proof.
  intros Hcur. pose proof (endIdx_range i cur Hcur). unfold paintedEnd.
  destruct (_ <? _); lia.
Qed.

Lemma pointColorsOf_spec i cur color :
  (cur < length points)%nat ->
  exists pointColors,
    pointColorsOf (length points) versionReleases i cur color = Some pointColors
    /\ length pointColors = length points
    /\ forall j, (j < length points)%nat ->
         pointColors !! j =
           Some (if decide (cur <= j < paintedEnd (length points) versionReleases i cur)%nat
                 then color else transparent).
Proof.
  intros Hcur. pose proof (endIdx_range i cur Hcur) as Hstop.
  unfold pointColorsOf, paintedEnd.
  set (stop := endIdx (length points) versionReleases i cur) in *.
  rewrite arrayFill_nonneg by lia. simpl. rewrite Nat2Z.id.
  destruct (fill_range color (stop - cur) cur (replicate (length points) transparent))
    as [Hlen Hlook]; [rewrite length_replicate; lia|].
  rewrite length_replicate in Hlen.
  eexists. split; [reflexivity|].
  destruct (Z.ltb_spec (Z.of_nat i) (Z.of_nat (length versionReleases) - 1)) as [Hi|Hi];
    simpl.
  - destruct (Nat.ltb_spec cur stop) as [_|?]; [|lia].
    destruct (Nat.leb_spec stop (length points)) as [_|?]; [|lia]. simpl.
    rewrite arraySet_in_range by lia. split; [by rewrite length_insert|].
    intros j Hj. destruct (decide (j = stop - 1)%nat) as [->|Hne].
    + rewrite list_lookup_insert_eq by lia. case_decide; [lia|done].
    + rewrite list_lookup_insert_ne by done. rewrite Hlook.
      rewrite lookup_replicate_2 by done. repeat case_decide; try lia; done.
  - split; [done|]. intros j Hj. rewrite Hlook.
    rewrite lookup_replicate_2 by done. repeat case_decide; try lia; done.
Qed.

Lemma downloadCounts_length : length (downloadCounts points) = length points.
Proof. apply length_map. Qed.

Lemma versionDataset_spec i r :
  versionReleases !! i = Some r ->
  let stop := endIdx (length points) versionReleases i (Release.index r) in
  let color := versionColors versionReleases !! (i + colorOffset versionReleases)%nat in
  exists d,
    versionDataset (length points) (downloadCounts points) (versionColors versionReleases)
      versionReleases i r = Some d
    /\ dsLabel d = ("v" ++ Release.version r)%string
    /\ dsBorderColor d = color
    /\ dsBackgroundColor d = withAlpha color
    /\ length (dsData d) = length points
    /\ length (dsPointBackgroundColor d) = length points
    /\ (forall j, (j < length points)%nat ->
          dsData d !! j =
            Some (if decide (Release.index r <= j < stop)%nat
                  then downloadCounts points !! j else None))
    /\ (forall j, (j < length points)%nat ->
          dsPointBackgroundColor d !! j =
            Some (if decide (Release.index r <= j
                             < paintedEnd (length points) versionReleases i
                                 (Release.index r))%nat
                  then color else transparent)).
Proof.
  intros Hr stop color.
  assert (Release.index r < length points)%nat as Hcur.
  { apply seenAt_index_lt, releases_seen. by eapply list_elem_of_lookup_2. }
  pose proof (endIdx_range i (Release.index r) Hcur) as Hstop. fold stop in Hstop.
  destruct (pointColorsOf_spec i (Release.index r) color Hcur) as (pc & Hpc & Hlen & Hlook).
  unfold versionDataset. fold color. rewrite Hpc. simpl.
  rewrite !arrayFill_nonneg by lia. simpl. fold stop.
  eexists. split; [reflexivity|]. simpl.
  assert (length (slice (Release.index r) stop (downloadCounts points))
          = (stop - Release.index r)%nat) as Hslice.
  { unfold slice. rewrite length_take, length_drop, downloadCounts_length. lia. }
  repeat (split; [done|]). split; [|split; [done|split; [|done]]].
  - rewrite !length_app, !length_replicate, length_map, Hslice. lia.
  - intros j Hj. case_decide as Hin.
    + rewrite lookup_app_r by (rewrite length_replicate; lia).
      rewrite length_replicate, Nat2Z.id.
      rewrite lookup_app_l by (rewrite length_map, Hslice; lia).
      change (map Some ?l) with (Some <$> l). rewrite list_lookup_fmap.
      unfold slice. rewrite lookup_take_lt by lia. rewrite lookup_drop.
      replace (Release.index r + (j - Release.index r))%nat with j by lia.
      destruct (lookup_lt_is_Some_2 (downloadCounts points) j) as [c Hc];
        [rewrite downloadCounts_length; lia|]. by rewrite Hc.
    + destruct (decide (j < Release.index r)%nat) as [Hlt|Hge].
      * rewrite lookup_app_l by (rewrite length_replicate; lia).
        by rewrite lookup_replicate_2 by lia.
      * rewrite lookup_app_r by (rewrite length_replicate; lia).
        rewrite length_replicate, Nat2Z.id.
        rewrite lookup_app_r by (rewrite length_map, Hslice; lia).
        rewrite length_map, Hslice. by rewrite lookup_replicate_2 by lia.
Qed.

End Datasets.

Lemma mapM_indexed_Some {A B : Type} (f : nat -> A -> option B) (l : list A) :
  (forall i a, l !! i = Some a -> is_Some (f i a)) ->
  exists k, mapM (fun ia => f (fst ia) (snd ia)) (imap pair l) = Some k
    /\ length k = length l
    /\ forall i a, l !! i = Some a -> exists b, k !! i = Some b /\ f i a = Some b.
Proof.
  intros Hall.
  destruct (mapM_is_Some_2 (fun ia => f (fst ia) (snd ia)) (imap pair l)) as [k Hk].
  { apply Forall_forall. intros [i a] Hia.
    apply list_elem_of_lookup in Hia as [n Hn]. rewrite list_lookup_imap in Hn.
    destruct (l !! n) as [a'|] eqn:Ha; [|done]. simpl in Hn. injection Hn as <- <-.
    by apply Hall. }
  exists k. split; [done|]. apply mapM_Some_1 in Hk.
  split; [rewrite <- (Forall2_length _ _ _ Hk); by rewrite length_imap|].
  intros i a Ha.
  destruct (Forall2_lookup_l _ _ _ i (i, a) Hk) as (b & Hb & Hf).
  { by rewrite list_lookup_imap, Ha. }
  by exists b.
Qed.

Lemma versionColors_length versionReleases :
  length (versionColors versionReleases)
  = (colorOffset versionReleases + length versionReleases)%nat.
Proof. apply generateColors_length. Qed.

Lemma versionColors_lookup versionReleases k :
  (k < colorOffset versionReleases + length versionReleases)%nat ->
  versionColors versionReleases !! k = Some (baseColors !!! (k mod 10)%nat)
  /\ baseColors !!! (k mod 10)%nat ∈ baseColors.
Proof.
  intros Hk. split; [by apply generateColors_lookup|].
  eapply list_elem_of_lookup_2, baseColors_lookup_total.
  apply Nat.mod_upper_bound. lia.
Qed.

Lemma firstVersionIdx_positive versionReleases :
  (0 < firstVersionIdx versionReleases)%nat ->
  exists first, versionReleases !! 0%nat = Some first
    /\ Release.index first = firstVersionIdx versionReleases.
Proof.
  unfold firstVersionIdx. destruct (versionReleases !! 0%nat) as [first|]; [|lia].
  intros _. by exists first.
Qed.

Lemma initialDataset_spec (points : list DataPoint.t) (colors : list string) (firstIdx : nat) :
  (firstIdx < length points)%nat ->
  exists d,
    initialDataset (length points) (downloadCounts points) colors firstIdx = Some d
    /\ dsLabel d = "Initial"
    /\ dsBorderColor d = colors !! 0%nat
    /\ length (dsData d) = length points
    /\ length (dsPointBackgroundColor d) = length points
    /\ (forall j, (j < length points)%nat ->
          dsData d !! j =
            Some (if decide (j <= firstIdx)%nat then downloadCounts points !! j else None))
    /\ (forall j, (j < length points)%nat ->
          dsPointBackgroundColor d !! j =
            Some (if decide (j < firstIdx \/ j = firstIdx /\ S firstIdx = length points)%nat
                  then colors !! 0%nat else transparent)).
Proof.
  intros Hlt. unfold initialDataset.
  rewrite !arrayFill_nonneg by lia. simpl.
  replace (Z.to_nat (Z.of_nat firstIdx + 1)) with (S firstIdx) by lia.
  set (tail := Z.to_nat (Z.of_nat (length points) - Z.of_nat firstIdx - 1)).
  assert (tail = (length points - S firstIdx)%nat) as Htail by lia.
  assert (length (slice 0 (firstIdx + 1) (downloadCounts points)) = S firstIdx) as Hslice.
  { unfold slice. rewrite length_take, length_drop, (downloadCounts_length points). lia. }
  eexists. split; [reflexivity|].
  cbn [dsLabel dsData dsBorderColor dsBackgroundColor dsPointBackgroundColor].
  split; [done|]. split; [done|]. split; [|split; [|split]].
  - rewrite length_app, length_map, Hslice, length_replicate. lia.
  - rewrite length_app, length_replicate.
    destruct (_ <? _).
    + rewrite arraySet_in_range by (rewrite length_replicate; lia).
      rewrite length_insert, length_replicate. lia.
    + rewrite length_replicate. lia.
  - intros j Hj. case_decide as Hin.
    + rewrite lookup_app_l by (rewrite length_map, Hslice; lia).
      change (map Some ?l) with (Some <$> l). rewrite list_lookup_fmap.
      unfold slice. rewrite lookup_take_lt by lia.
      rewrite lookup_drop. simpl.
      destruct (lookup_lt_is_Some_2 (downloadCounts points) j) as [c Hc];
        [rewrite (downloadCounts_length points); lia|]. by rewrite Hc.
    + rewrite lookup_app_r by (rewrite length_map, Hslice; lia).
      by rewrite lookup_replicate_2 by (rewrite length_map, Hslice; lia).
  - intros j Hj.
    destruct (Z.ltb_spec (Z.of_nat firstIdx) (Z.of_nat (length points) - 1)) as [Hf|Hf].
    + rewrite arraySet_in_range by (rewrite length_replicate; lia).
      destruct (decide (j <= firstIdx)%nat) as [Hle|Hgt].
      * rewrite lookup_app_l by (rewrite length_insert, length_replicate; lia).
        destruct (decide (j = firstIdx)) as [->|Hne].
        -- rewrite list_lookup_insert_eq by (rewrite length_replicate; lia).
           case_decide; [lia|done].
        -- rewrite list_lookup_insert_ne by done.
           rewrite lookup_replicate_2 by lia. case_decide; [done|lia].
      * rewrite lookup_app_r by (rewrite length_insert, length_replicate; lia).
        rewrite length_insert, length_replicate.
        rewrite lookup_replicate_2 by lia. case_decide; [lia|done].
    + assert (S firstIdx = length points) as Hlast by lia.
      rewrite lookup_app_l by (rewrite length_replicate; lia).
      rewrite lookup_replicate_2 by lia. case_decide; [done|lia].
Qed.

Section DatasetsOfTheScript.
Variable localeCompare : string -> string -> Z.
Variable points : list DataPoint.t.

Let versionReleases := sortedReleases localeCompare points.

Lemma versionDatasets_spec :
  exists initial perVersion,
    versionDatasets points versionReleases = Some (initial ++ perVersion)%list
    /\ length initial = colorOffset versionReleases
    /\ length perVersion = length versionReleases
    /\ (forall d, initial !! 0%nat = Some d ->
          initialDataset (length points) (downloadCounts points)
            (versionColors versionReleases) (firstVersionIdx versionReleases) = Some d)
    /\ (forall i r, versionReleases !! i = Some r ->
          exists d, perVersion !! i = Some d
            /\ versionDataset (length points) (downloadCounts points)
                 (versionColors versionReleases) versionReleases i r = Some d).
Proof.
  assert (forall r, r ∈ versionReleases -> seenAt points r) as Hseen
    by apply sortedReleases_seenAt.
  destruct (mapM_indexed_Some
              (versionDataset (length points) (downloadCounts points)
                 (versionColors versionReleases) versionReleases) versionReleases)
    as (perVersion & Hmap & Hlen & Hlook).
  { intros i r Hr. destruct (versionDataset_spec points versionReleases Hseen i r Hr)
      as (d & Hd & _). by exists d. }
  unfold versionDatasets, colorOffset.
  destruct (Nat.ltb_spec 0 (firstVersionIdx versionReleases)) as [Hpos|Hzero].
  - destruct (firstVersionIdx_positive _ Hpos) as (first & Hfirst & Hidx).
    destruct (initialDataset_spec points (versionColors versionReleases)
                (firstVersionIdx versionReleases)) as (d & Hd & _).
    { rewrite <- Hidx. apply seenAt_index_lt, Hseen. by eapply list_elem_of_lookup_2. }
    exists [d], perVersion. rewrite Hd. simpl. rewrite Hmap. simpl.
    split; [done|]. split; [done|]. split; [done|]. split; [|done].
    by intros d' [= <-].
  - exists [], perVersion. simpl. rewrite Hmap. simpl. done.
Qed.

End DatasetsOfTheScript.

(** X7: every release has a colour of the palette at the position the script
    reads, its place in the sorted array shifted by one when the dataset
    "Initial" exists; the colour at position 0 is then the first palette
    colour; and there are as many colours as datasets are built. *)
Theorem every_release_has_a_colour (versionReleases : list Release.t)
    (i : nat) (r : Release.t) :
  versionReleases !! i = Some r ->
  length (versionColors versionReleases)
  = ((if (0 <? firstVersionIdx versionReleases)%nat then 1 else 0)
     + length versionReleases)%nat
  /\ (exists c, versionColors versionReleases !! (i + colorOffset versionReleases)%nat
                = Some c
        /\ c ∈ baseColors
        /\ baseColors !! ((i + colorOffset versionReleases) mod 10)%nat = Some c)
  /\ ((0 < firstVersionIdx versionReleases)%nat ->
      versionColors versionReleases !! 0%nat = Some "#0066cc").
Proof.
  intros Hr. pose proof (lookup_lt_Some _ _ _ Hr) as Hlt.
  split; [apply versionColors_length|]. split.
  - destruct (versionColors_lookup versionReleases (i + colorOffset versionReleases))
      as [Hc Hin]; [lia|].
    eexists. split; [exact Hc|]. split; [exact Hin|].
    apply baseColors_lookup_total, Nat.mod_upper_bound. lia.
  - intros Hpos. destruct (versionColors_lookup versionReleases 0) as [Hc _]; [lia|].
    exact Hc.
Qed.

Lemma every_release_has_a_colour_witness :
  exists c, versionColors (sortedReleases codeUnitCompare (dataPoints historyFourDays))
              !! 2%nat = Some c
    /\ c ∈ baseColors.
Proof.
  destruct (every_release_has_a_colour
              (sortedReleases codeUnitCompare (dataPoints historyFourDays)) 1
              (Release.mk "1.1.0" (3 * day) 3 260) ltac:(reflexivity))
    as (_ & (c & Hc & Hin & _) & _).
  by exists c.
Defined.

(** X8: building the datasets never fails on an array length; there is one
    dataset for each colour, and each dataset has one data entry and one
    point colour for every date, and a border colour of the palette. *)
Theorem versionDatasets_are_complete_and_parallel localeCompare
    (points : list DataPoint.t) :
  exists datasets,
    versionDatasets points (sortedReleases localeCompare points) = Some datasets
    /\ length datasets = length (versionColors (sortedReleases localeCompare points))
    /\ Forall (fun d =>
         length (dsData d) = length points
         /\ length (dsPointBackgroundColor d) = length points
         /\ exists c, dsBorderColor d = Some c /\ c ∈ baseColors) datasets.
Proof.
  set (rels := sortedReleases localeCompare points).
  assert (forall r, r ∈ rels -> seenAt points r) as Hseen by apply sortedReleases_seenAt.
  destruct (versionDatasets_spec localeCompare points)
    as (initial & perVersion & Hds & Hleni & Hlenp & Hinit & Hper).
  fold rels in Hds, Hleni, Hlenp, Hinit, Hper.
  exists (initial ++ perVersion)%list. split; [done|].
  split; [by rewrite length_app, versionColors_length, Hleni, Hlenp|].
  apply Forall_app. split.
  - apply Forall_forall. intros d Hd.
    assert (initial !! 0%nat = Some d) as Hd0.
    { apply list_elem_of_lookup in Hd as [k Hk].
      pose proof (lookup_lt_Some _ _ _ Hk) as Hlt.
      unfold colorOffset in Hleni. destruct (_ <? _)%nat; [|lia].
      by replace k with 0%nat in Hk by lia. }
    assert (0 < firstVersionIdx rels)%nat as Hpos.
    { apply lookup_lt_Some in Hd0. unfold colorOffset in Hleni.
      destruct (Nat.ltb_spec 0 (firstVersionIdx rels)); [done|lia]. }
    destruct (firstVersionIdx_positive _ Hpos) as (first & Hfirst & Hidx).
    destruct (initialDataset_spec points (versionColors rels) (firstVersionIdx rels))
      as (d' & Hd' & _ & Hb & Hl1 & Hl2 & _).
    { rewrite <- Hidx. apply seenAt_index_lt, Hseen. by eapply list_elem_of_lookup_2. }
    rewrite (Hinit d Hd0) in Hd'. injection Hd' as <-.
    split; [done|]. split; [done|].
    destruct (versionColors_lookup rels 0) as [Hc Hin].
    { apply lookup_lt_Some in Hfirst. lia. }
    eexists. split; [by rewrite Hb|done].
  - apply Forall_forall. intros d Hd. apply list_elem_of_lookup in Hd as [i Hi].
    destruct (lookup_lt_is_Some_2 rels i) as [r Hr].
    { rewrite <- Hlenp. by eapply lookup_lt_Some. }
    destruct (Hper i r Hr) as (d' & Hd' & Hvd). rewrite Hi in Hd'. injection Hd' as <-.
    destruct (versionDataset_spec points rels Hseen i r Hr)
      as (d' & Hd' & _ & Hb & _ & Hl1 & Hl2 & _).
    rewrite Hvd in Hd'. injection Hd' as <-.
    split; [done|]. split; [done|].
    destruct (versionColors_lookup rels (i + colorOffset rels)) as [Hc Hin].
    { apply lookup_lt_Some in Hr. lia. }
    eexists. split; [by rewrite Hb|done].
Qed.

Lemma versionDatasets_release_dataset localeCompare
    (points : list DataPoint.t) (i : nat) (r : Release.t) :
  sortedReleases localeCompare points !! i = Some r ->
  let rels := sortedReleases localeCompare points in
  let stop := endIdx (length points) rels i (Release.index r) in
  let painted := paintedEnd (length points) rels i (Release.index r) in
  exists datasets d,
    versionDatasets points rels = Some datasets
    /\ datasets !! (colorOffset rels + i)%nat = Some d
    /\ dsLabel d = ("v" ++ Release.version r)%string
    /\ dsBorderColor d = versionColors rels !! (i + colorOffset rels)%nat
    /\ (Release.index r < stop <= length points)%nat
    /\ (Release.index r <= painted <= stop)%nat
    /\ (forall j, (j < length points)%nat ->
          dsData d !! j =
            Some (if decide (Release.index r <= j < stop)%nat
                  then downloadCounts points !! j else None))
    /\ (forall j, (j < length points)%nat ->
          dsPointBackgroundColor d !! j =
            Some (if decide (Release.index r <= j < painted)%nat
                  then dsBorderColor d else transparent)).
Proof.
  intros Hr rels stop painted.
  assert (forall r, r ∈ rels -> seenAt points r) as Hseen by apply sortedReleases_seenAt.
  destruct (versionDatasets_spec localeCompare points)
    as (initial & perVersion & Hds & Hleni & Hlenp & Hinit & Hper).
  fold rels in Hds, Hleni, Hlenp, Hinit, Hper.
  destruct (Hper i r Hr) as (d & Hd & Hvd).
  destruct (versionDataset_spec points rels Hseen i r Hr)
    as (d' & Hd' & Hlabel & Hb & _ & _ & _ & Hdata & Hcol).
  rewrite Hvd in Hd'. injection Hd' as <-.
  assert (Release.index r < length points)%nat as Hcur.
  { apply seenAt_index_lt, Hseen. by eapply list_elem_of_lookup_2. }
  exists (initial ++ perVersion)%list, d. split; [done|]. split.
  { rewrite lookup_app_r by lia. by replace (colorOffset rels + i - length initial)%nat
      with i by lia. }
  split; [done|]. split; [done|].
  split; [by apply endIdx_range|]. split; [by apply paintedEnd_range|].
  split; [done|]. intros j Hj. rewrite Hb. by apply Hcol.
Qed.

(** X9: the dataset of the release at place [i] of the sorted array is
    labelled with the letter v and the version; from the release's data point
    up to its end index it shows the totals, elsewhere null; its points have
    the release's colour from the release's data point up to the index before
    the end, for the last release up to the end, and are transparent
    elsewhere. *)
Theorem version_dataset_shows_its_totals localeCompare
    (points : list DataPoint.t) (i : nat) (r : Release.t) :
  sortedReleases localeCompare points !! i = Some r ->
  let rels := sortedReleases localeCompare points in
  let stop := endIdx (length points) rels i (Release.index r) in
  let painted := paintedEnd (length points) rels i (Release.index r) in
  exists datasets d,
    versionDatasets points rels = Some datasets
    /\ datasets !! (colorOffset rels + i)%nat = Some d
    /\ dsLabel d = ("v" ++ Release.version r)%string
    /\ dsBorderColor d = versionColors rels !! (i + colorOffset rels)%nat
    /\ (Release.index r < stop <= length points)%nat
    /\ (Release.index r <= painted <= stop)%nat
    /\ (forall j, (j < length points)%nat ->
          dsData d !! j =
            Some (if decide (Release.index r <= j < stop)%nat
                  then downloadCounts points !! j else None))
    /\ (forall j, (j < length points)%nat ->
          dsPointBackgroundColor d !! j =
            Some (if decide (Release.index r <= j < painted)%nat
                  then dsBorderColor d else transparent)).
Proof. apply versionDatasets_release_dataset. Qed.

Lemma version_dataset_shows_its_totals_witness :
  exists datasets d,
    versionDatasets (dataPoints historyFourDays)
      (sortedReleases codeUnitCompare (dataPoints historyFourDays)) = Some datasets
    /\ datasets !! 1%nat = Some d
    /\ dsLabel d = "v1.0.0".
Proof.
  destruct (version_dataset_shows_its_totals codeUnitCompare
              (dataPoints historyFourDays) 0 (Release.mk "1.0.0" day 1 150)
              ltac:(reflexivity))
    as (datasets & d & Hds & Hd & Hl & _).
  by exists datasets, d.
Defined.

Lemma nextChronological_le_nextIdx (points : list DataPoint.t)
    (versionReleases : list Release.t) (i cur : nat) :
  (forall r, r ∈ versionReleases -> seenAt points r) ->
  (cur < length points)%nat ->
  (nextChronologicalReleaseStartIndex (length points) versionReleases cur
   <= nextIdx (length points) versionReleases i cur)%nat.
Proof.
  intros Hseen Hcur.
  destruct (nextBoundary_fold cur versionReleases (length points)) as (Hle & _ & Hmin).
  destruct (nextIdx_range points versionReleases Hseen i cur Hcur)
    as [Hrange [Heq|(r & Hr & Hi)]].
  - unfold nextChronologicalReleaseStartIndex. by rewrite Heq.
  - unfold nextChronologicalReleaseStartIndex. rewrite <- Hi. apply Hmin; [done|lia].
Qed.

(** X10: the dataset of a release covers the release's active window: at
    every data point from the release's own to the one before the next
    chronological release, the dataset shows that point's total. *)
Theorem dataset_covers_the_active_window localeCompare
    (points : list DataPoint.t) (i j : nat) (r : Release.t) :
  sortedReleases localeCompare points !! i = Some r ->
  inWindow points (sortedReleases localeCompare points) r j = true ->
  exists datasets d total,
    versionDatasets points (sortedReleases localeCompare points) = Some datasets
    /\ datasets !! (colorOffset (sortedReleases localeCompare points) + i)%nat = Some d
    /\ downloadCounts points !! j = Some total
    /\ dsData d !! j = Some (Some total)
    /\ (nextChronologicalReleaseStartIndex (length points)
          (sortedReleases localeCompare points) (Release.index r)
        <= endIdx (length points) (sortedReleases localeCompare points) i
             (Release.index r))%nat.
Proof.
  intros Hr Hwin. set (rels := sortedReleases localeCompare points) in *.
  assert (forall r, r ∈ rels -> seenAt points r) as Hseen by apply sortedReleases_seenAt.
  assert (Release.index r < length points)%nat as Hcur.
  { apply seenAt_index_lt, Hseen. by eapply list_elem_of_lookup_2. }
  pose proof (nextChronological_le_nextIdx points rels i _ Hseen Hcur) as Hle.
  pose proof (nextChronological_range points rels _ Hcur) as Hrange. simpl in Hrange.
  assert (nextIdx (length points) rels i (Release.index r)
          <= endIdx (length points) rels i (Release.index r))%nat as Hend.
  { unfold endIdx. destruct (_ && _); lia. }
  unfold inWindow, lastDataPointIndex in Hwin.
  apply andb_true_iff in Hwin as [Hlo%Nat.leb_le Hhi%Z.leb_le].
  destruct (versionDatasets_release_dataset localeCompare points i r Hr)
    as (datasets & d & Hds & Hd & _ & _ & Hstop & _ & Hdata & _).
  fold rels in Hds, Hd, Hstop, Hdata.
  assert (j < length points)%nat as Hj by lia.
  destruct (lookup_lt_is_Some_2 (downloadCounts points) j) as [total Htotal];
    [rewrite (downloadCounts_length points); lia|].
  exists datasets, d, total. split; [done|]. split; [done|]. split; [done|].
  split; [|lia]. rewrite (Hdata j Hj). rewrite Htotal.
  case_decide; [done|lia].
Qed.

Lemma dataset_covers_the_active_window_witness :
  exists datasets d,
    versionDatasets (dataPoints historyFourDays)
      (sortedReleases codeUnitCompare (dataPoints historyFourDays)) = Some datasets
    /\ datasets !! 1%nat = Some d
    /\ dsData d !! 2%nat = Some (Some 200).
Proof.
  destruct (dataset_covers_the_active_window codeUnitCompare
              (dataPoints historyFourDays) 0 2 (Release.mk "1.0.0" day 1 150)
              ltac:(reflexivity) ltac:(vm_compute; reflexivity))
    as (datasets & d & total & Hds & Hd & Htotal & Hdata & _).
  exists datasets, d. split; [exact Hds|]. split; [exact Hd|].
  vm_compute in Htotal. injection Htotal as <-. exact Hdata.
Defined.

(** X11: the dataset "Initial" is built exactly when the first release of
    the sorted array starts after the first data point; it comes first, shows
    the totals up to and including that release's data point and null after
    it, and has the first palette colour. *)
Theorem initial_dataset_before_the_first_release localeCompare
    (points : list DataPoint.t) :
  let rels := sortedReleases localeCompare points in
  exists datasets,
    versionDatasets points rels = Some datasets
    /\ ((0 < firstVersionIdx rels)%nat <->
        exists d, d ∈ datasets /\ dsLabel d = "Initial")
    /\ ((0 < firstVersionIdx rels)%nat ->
        exists d, datasets !! 0%nat = Some d
          /\ dsLabel d = "Initial"
          /\ dsBorderColor d = Some "#0066cc"
          /\ (firstVersionIdx rels < length points)%nat
          /\ forall j, (j < length points)%nat ->
               dsData d !! j =
                 Some (if decide (j <= firstVersionIdx rels)%nat
                       then downloadCounts points !! j else None)).
Proof.
  intros rels.
  assert (forall r, r ∈ rels -> seenAt points r) as Hseen by apply sortedReleases_seenAt.
  destruct (versionDatasets_spec localeCompare points)
    as (initial & perVersion & Hds & Hleni & Hlenp & Hinit & Hper).
  fold rels in Hds, Hleni, Hlenp, Hinit, Hper.
  exists (initial ++ perVersion)%list. split; [done|].
  assert ((0 < firstVersionIdx rels)%nat ->
          exists d, initial = [d]
            /\ dsLabel d = "Initial"
            /\ dsBorderColor d = Some "#0066cc"
            /\ (firstVersionIdx rels < length points)%nat
            /\ forall j, (j < length points)%nat ->
                 dsData d !! j =
                   Some (if decide (j <= firstVersionIdx rels)%nat
                         then downloadCounts points !! j else None)) as Hpos.
  { intros Hpos. destruct (firstVersionIdx_positive _ Hpos) as (first & Hfirst & Hidx).
    assert (firstVersionIdx rels < length points)%nat as Hlt.
    { rewrite <- Hidx. apply seenAt_index_lt, Hseen. by eapply list_elem_of_lookup_2. }
    destruct (initialDataset_spec points (versionColors rels) (firstVersionIdx rels) Hlt)
      as (d & Hd & Hlabel & Hb & _ & _ & Hdata & _).
    unfold colorOffset in Hleni.
    destruct (Nat.ltb_spec 0 (firstVersionIdx rels)) as [_|?]; [|lia].
    destruct initial as [|d' [|? ?]]; simpl in Hleni; try lia.
    rewrite (Hinit d' eq_refl) in Hd. injection Hd as <-.
    exists d'. split; [done|]. split; [done|]. split; [|done].
    rewrite Hb. destruct (versionColors_lookup rels 0) as [Hc _]; [|exact Hc].
    apply lookup_lt_Some in Hfirst. lia. }
  split; [split|].
  - intros H. destruct (Hpos H) as (d & -> & Hlabel & _).
    exists d. split; [left|done].
  - intros (d & Hd & Hlabel).
    destruct (Nat.lt_ge_cases 0 (firstVersionIdx rels)) as [|Hzero]; [done|]. exfalso.
    unfold colorOffset in Hleni.
    destruct (Nat.ltb_spec 0 (firstVersionIdx rels)) as [?|_]; [lia|].
    destruct initial; [|done]. simpl in Hd.
    apply list_elem_of_lookup in Hd as [i Hi].
    destruct (lookup_lt_is_Some_2 rels i) as [r Hr].
    { rewrite <- Hlenp. by eapply lookup_lt_Some. }
    destruct (Hper i r Hr) as (d' & Hd' & Hvd). rewrite Hi in Hd'. injection Hd' as <-.
    destruct (versionDataset_spec points rels Hseen i r Hr) as (d' & Hd' & Hl & _).
    rewrite Hvd in Hd'. injection Hd' as <-. rewrite Hl in Hlabel. discriminate.
  - intros H. destruct (Hpos H) as (d & -> & Hrest). exists d. by split.
Qed.

Lemma initial_dataset_before_the_first_release_witness :
  exists datasets d,
    versionDatasets (dataPoints historyFourDays)
      (sortedReleases codeUnitCompare (dataPoints historyFourDays)) = Some datasets
    /\ datasets !! 0%nat = Some d
    /\ dsLabel d = "Initial".
Proof.
  destruct (initial_dataset_before_the_first_release codeUnitCompare
              (dataPoints historyFourDays)) as (datasets & Hds & _ & Hpos).
  destruct Hpos as (d & Hd & Hl & _); [vm_compute; lia|].
  by exists datasets, d.
Defined.

(** ** More on the metrics *)

Lemma StronglySorted_lookup_le {A : Type} (R : A -> A -> Prop) (l : list A) i j a b :
  (forall x, R x x) ->
  StronglySorted R l -> (i <= j)%nat -> l !! i = Some a -> l !! j = Some b -> R a b.
Proof.
  intros Hrefl Hs. revert i j. induction Hs as [|x l Hl IH Hall]; intros i j Hij; [done|].
  destruct i as [|i], j as [|j]; simpl; try lia.
  - intros [= ->] [= ->]. apply Hrefl.
  - intros [= ->] Hb. eapply Forall_forall in Hall; [exact Hall|].
    by eapply list_elem_of_lookup_2.
  - apply IH. lia.
Qed.

Lemma dates_lookup_total (points : list DataPoint.t) i :
  (i < length points)%nat ->
  exists p, points !! i = Some p /\ map DataPoint.date points !!! i = DataPoint.date p.
Proof.
  intros Hi. destruct (lookup_lt_is_Some_2 points i Hi) as [p Hp].
  exists p. split; [done|]. by apply lookup_total_map_date.
Qed.

Lemma lastDataPointIndex_range (points : list DataPoint.t) versionReleases cur :
  (cur < length points)%nat ->
  Z.of_nat cur <= lastDataPointIndex points versionReleases cur < Z.of_nat (length points).
Proof.
  intros Hcur. pose proof (nextChronological_range points versionReleases cur Hcur) as H.
  simpl in H. unfold lastDataPointIndex. lia.
Qed.

Lemma periodMs_nonneg h versionReleases r :
  seenAt (dataPoints h) r -> 0 <= periodMs (dataPoints h) versionReleases r.
Proof.
  intros Hseen. pose proof (seenAt_index_lt _ _ Hseen) as Hcur.
  pose proof (lastDataPointIndex_range (dataPoints h) versionReleases _ Hcur) as Hlast.
  unfold periodMs, endDateOf.
  set (last := lastDataPointIndex (dataPoints h) versionReleases (Release.index r)) in *.
  destruct (Z.leb_spec 0 last) as [_|?]; [|lia].
  destruct (Z.ltb_spec last (Z.of_nat (length (dataPoints h)))) as [_|?]; [|lia]. simpl.
  destruct (dates_lookup_total (dataPoints h) (Release.index r) Hcur) as (p & Hp & ->).
  destruct (dates_lookup_total (dataPoints h) (Z.to_nat last) ltac:(lia)) as (q & Hq & ->).
  assert (DataPoint.date p <= DataPoint.date q); [|lia].
  apply (StronglySorted_lookup_le
           (fun a b => DataPoint.date a <= DataPoint.date b)
           (dataPoints h) (Release.index r) (Z.to_nat last) p q);
    [intros x; lia | apply dataPoints_by_date | lia | done | done].
Qed.

(** X12: the period of a release never runs backwards: the data point that
    ends it is the release's own or a later one, inside the series, and the
    time from the first to the last data point of the period is not
    negative. *)
Theorem release_period_is_not_negative localeCompare (h : History) (r : Release.t) :
  r ∈ sortedReleases localeCompare (dataPoints h) ->
  let rels := sortedReleases localeCompare (dataPoints h) in
  Z.of_nat (Release.index r)
    <= lastDataPointIndex (dataPoints h) rels (Release.index r)
    < Z.of_nat (length (dataPoints h))
  /\ 0 <= periodMs (dataPoints h) rels r.
Proof.
  intros Hr rels. pose proof (sortedReleases_seenAt _ _ _ Hr) as Hseen.
  split; [apply lastDataPointIndex_range; by apply seenAt_index_lt|].
  by apply periodMs_nonneg.
Qed.

Lemma release_period_is_not_negative_witness :
  0 <= periodMs (dataPoints historyFourDays)
         (sortedReleases codeUnitCompare (dataPoints historyFourDays))
         (Release.mk "1.0.0" day 1 150).
Proof.
  eapply proj2.
  refine (release_period_is_not_negative codeUnitCompare historyFourDays
            (Release.mk "1.0.0" day 1 150) _).
  vm_compute. apply list_elem_of_here.
Defined.

Lemma round_div_nonneg_le (n d : Z) : 0 <= n -> 1 <= d -> 0 <= round_div n d <= n.
Proof.
  intros Hn Hd. unfold round_div. split.
  - apply Z.div_pos; lia.
  - assert ((2 * n + d) / (2 * d) < n + 1); [|lia].
    apply Z.div_lt_upper_bound; [lia|nia].
Qed.

(** X13: when the totals of the series never decrease, no release loses
    downloads: its end total is at least its release total, its download
    change is not negative, and its average daily growth lies between 0 and
    the download change. *)
Theorem monotone_totals_give_nonnegative_growth localeCompare h out i vr :
  chartData localeCompare h = Normal out ->
  cdVersionReleases out !! i = Some vr ->
  StronglySorted Z.le (downloadCounts (dataPoints h)) ->
  Release.downloads (release vr) <= endDownloads vr
  /\ 0 <= downloadChange vr
  /\ 0 <= avgDailyGrowth vr <= downloadChange vr.
Proof.
  intros Hout Hi Hmono.
  destruct (chartData_release _ _ _ _ _ Hout Hi) as (Hcur & Hseen & Hvr).
  set (points := dataPoints h) in *.
  set (rels := sortedReleases localeCompare points) in *.
  destruct (supersededAt rels i (Release.index (release vr))) eqn:Hs.
  { rewrite (releaseMetrics_superseded _ _ _ _ Hs) in Hvr. injection Hvr as <-.
    simpl. lia. }
  destruct Hseen as (p & Hp & Hdate & Hdl & Hkey).
  rewrite (releaseMetrics_active _ _ _ _ _ Hs Hp) in Hvr.
  assert (Release.index (release vr) < length points)%nat as Hlt
    by (by eapply lookup_lt_Some).
  pose proof (lastDataPointIndex_range points rels _ Hlt) as Hlast.
  set (last := lastDataPointIndex points rels (Release.index (release vr))) in *.
  pose proof (endDownloadsOf_in_range (downloadCounts points) last
                (Release.downloads (release vr))) as Hend.
  rewrite (downloadCounts_length points) in Hend. specialize (Hend ltac:(lia)).
  assert (downloadCounts points !! Release.index (release vr)
          = Some (Release.downloads (release vr))) as Hstart.
  { unfold downloadCounts. change (map ?f ?l) with (f <$> l).
    by rewrite list_lookup_fmap, Hp, Hdl. }
  assert (Release.downloads (release vr)
          <= endDownloadsOf (downloadCounts points) last (Release.downloads (release vr)))
    as Hle.
  { eapply (StronglySorted_lookup_le Z.le (downloadCounts points)
              (Release.index (release vr)) (Z.to_nat last));
      [intros; lia|done|lia|done|done]. }
  injection Hvr as <-. simpl. split; [done|]. split; [lia|].
  apply round_div_nonneg_le; lia.
Qed.

Lemma monotone_totals_give_nonnegative_growth_witness :
  exists out vr,
    chartData codeUnitCompare historyFourDays = Normal out
    /\ cdVersionReleases out !! 0%nat = Some vr
    /\ 0 <= avgDailyGrowth vr <= downloadChange vr.
Proof.
  do 2 eexists. split; [vm_compute; reflexivity|]. split; [reflexivity|].
  eapply proj2. eapply proj2.
  refine (monotone_totals_give_nonnegative_growth codeUnitCompare historyFourDays
            _ 0%nat _ _ _ _).
  - vm_compute. reflexivity.
  - vm_compute. reflexivity.
  - vm_compute. repeat constructor; discriminate.
Defined.

Lemma exists_release_dec (P : Release.t -> Prop) `{!forall r, Decision (P r)}
    (l : list Release.t) :
  (exists r, r ∈ l /\ P r) \/ ~ (exists r, r ∈ l /\ P r).
Proof.
  destruct (decide (Exists P l)) as [Hex|Hno]; [left|right];
    by rewrite <- Exists_exists.
Qed.

Lemma latest_start_at_or_before (versionReleases : list Release.t) (j : nat) :
  (exists r0, r0 ∈ versionReleases /\ (Release.index r0 <= j)%nat) ->
  exists r, r ∈ versionReleases /\ (Release.index r <= j)%nat
    /\ forall r', r' ∈ versionReleases -> (Release.index r' <= j)%nat ->
         (Release.index r' <= Release.index r)%nat.
Proof.
  induction versionReleases as [|a l IH]; intros (r0 & Hr0 & Hle);
    [by apply elem_of_nil in Hr0|].
  destruct (exists_release_dec (fun r1 => Release.index r1 <= j)%nat l) as [Hex|Hno].
  - destruct (IH Hex) as (r & Hr & Hrj & Hmax).
    destruct (decide (Release.index a <= j /\ Release.index r < Release.index a)%nat)
      as [[Haj Hgt]|Hna].
    + exists a. split; [left|]. split; [done|].
      intros r' [->|Hr']%elem_of_cons Hr'j; [done|].
      specialize (Hmax r' Hr' Hr'j). lia.
    + exists r. split; [by right|]. split; [done|].
      intros r' [->|Hr']%elem_of_cons Hr'j; [lia|by apply Hmax].
  - apply elem_of_cons in Hr0 as [->|Hr0]; [|exfalso; apply Hno; by exists r0].
    exists a. split; [left|]. split; [done|].
    intros r' [->|Hr']%elem_of_cons Hr'j; [done|].
    exfalso. apply Hno. by exists r'.
Qed.

Lemma inWindow_iff (points : list DataPoint.t) versionReleases r j :
  inWindow points versionReleases r j = true <->
  (Release.index r <= j
   < nextChronologicalReleaseStartIndex (length points) versionReleases
       (Release.index r))%nat.
Proof.
  unfold inWindow, lastDataPointIndex.
  rewrite andb_true_iff, Nat.leb_le, Z.leb_le. lia.
Qed.

(** X14: the active windows tile the series from the earliest release on: a
    data point at or after some release's start lies in the window of the
    releases with the latest start at or before it, and in the window of no
    release with another start; a data point before every release lies in no
    window. *)
Theorem active_windows_tile_the_series localeCompare
    (points : list DataPoint.t) (j : nat) :
  (j < length points)%nat ->
  let rels := sortedReleases localeCompare points in
  ((exists r0, r0 ∈ rels /\ (Release.index r0 <= j)%nat) ->
   exists r, r ∈ rels
     /\ inWindow points rels r j = true
     /\ forall r', r' ∈ rels ->
          (inWindow points rels r' j = true <-> Release.index r' = Release.index r))
  /\ ((forall r0, r0 ∈ rels -> (j < Release.index r0)%nat) ->
      forall r, r ∈ rels -> inWindow points rels r j = false).
Proof.
  intros Hj rels.
  assert (forall r, r ∈ rels -> seenAt points r) as Hseen by apply sortedReleases_seenAt.
  assert (forall cur, isNextBoundary (length points) rels cur
            (nextChronologicalReleaseStartIndex (length points) rels cur)) as Hnb
    by (intros cur; by apply nextChronological_isNextBoundary).
  split.
  - intros Hex. destruct (latest_start_at_or_before rels j Hex) as (r & Hr & Hrj & Hmax).
    assert (j < nextChronologicalReleaseStartIndex (length points) rels (Release.index r))%nat
      as Hnext.
    { destruct (Hnb (Release.index r)) as (Hmin & Hsome & Hnone).
      destruct (exists_release_dec (fun o => Release.index r < Release.index o)%nat rels)
        as [Ho|Hno].
      - destruct (Hsome Ho) as (o & Hin & Hidx & Hlt).
        destruct (Nat.lt_ge_cases j (Release.index o)) as [|Hge]; [lia|].
        specialize (Hmax o Hin Hge). lia.
      - rewrite Hnone; [done|]. intros o Ho.
        destruct (Nat.le_gt_cases (Release.index o) (Release.index r)); [done|].
        exfalso. apply Hno. by exists o. }
    exists r. split; [done|]. split; [apply inWindow_iff; lia|].
    intros r' Hr'. rewrite inWindow_iff. split.
    + intros [Hlo Hhi]. specialize (Hmax r' Hr' Hlo).
      destruct (decide (Release.index r' = Release.index r)) as [|Hne]; [done|].
      destruct (Hnb (Release.index r')) as (Hmin & _).
      specialize (Hmin r Hr ltac:(lia)). lia.
    + intros ->. lia.
  - intros Hall r Hr. apply not_true_is_false. rewrite inWindow_iff.
    specialize (Hall r Hr). lia.
Qed.

Lemma active_windows_tile_the_series_witness :
  exists r, r ∈ sortedReleases codeUnitCompare (dataPoints historyFourDays)
    /\ inWindow (dataPoints historyFourDays)
         (sortedReleases codeUnitCompare (dataPoints historyFourDays)) r 2 = true.
Proof.
  destruct (active_windows_tile_the_series codeUnitCompare (dataPoints historyFourDays) 2)
    as [Hcover _]; [vm_compute; lia|].
  destruct Hcover as (r & Hr & Hwin & _).
  - exists (Release.mk "1.0.0" day 1 150). split; [vm_compute; apply list_elem_of_here|].
    vm_compute. lia.
  - by exists r.
Defined.

(** ** More on the rolling averages *)

Lemma sumFrom_bounds (f : nat -> Z) (a b : Z) (n lo : nat) :
  (forall j, (lo <= j < lo + n)%nat -> a <= f j <= b) ->
  Z.of_nat n * a <= sumFrom f lo n <= Z.of_nat n * b.
Proof.
  revert lo. induction n as [|n IH]; intros lo Hf; simpl; [lia|].
  specialize (IH (S lo) ltac:(intros j Hj; apply Hf; lia)).
  specialize (Hf lo ltac:(lia)). lia.
Qed.

Lemma round_div_between (s n a b : Z) :
  0 < n -> n * a <= s <= n * b -> a <= round_div s n <= b.
Proof.
  intros Hn [Ha Hb]. unfold round_div. split.
  - apply Z.div_le_lower_bound; lia.
  - assert ((2 * s + n) / (2 * n) < b + 1); [|lia].
    apply Z.div_lt_upper_bound; lia.
Qed.

Lemma rollingAverage_between (w : Z) (points : list DataPoint.t) (a b : Z) i p :
  1 <= w ->
  (forall q, q ∈ points -> a <= DataPoint.dailyGrowth q <= b) ->
  points !! i = Some p ->
  exists y, rollingAverage w (derivativeData points) !! i = Some (DataPoint.date p, y)
    /\ a <= y <= b.
Proof.
  intros Hw Hall Hp. pose proof (lookup_lt_Some _ _ _ Hp) as Hlt.
  destruct (rollingAverage_lookup w points i p Hw Hp) as (y & Hy & Hmean & _).
  exists y. split; [done|]. rewrite Hmean.
  set (lo := Z.to_nat (Z.max 0 (Z.of_nat i - w + 1))).
  apply round_div_between; [lia|]. apply sumFrom_bounds.
  intros j Hj. unfold growthAt.
  destruct (lookup_lt_is_Some_2 points j) as [q Hq]; [lia|].
  rewrite Hq. simpl. apply Hall. by eapply list_elem_of_lookup_2.
Qed.

(** X15: a rolling average never leaves the range of the growth values: when
    every daily growth of the series lies between two bounds, so does every
    value of the 7-day and of the 30-day average. *)
Theorem rolling_averages_stay_within_the_growth_range
    (points : list DataPoint.t) (a b : Z) (i : nat) (p : DataPoint.t) :
  (forall q, q ∈ points -> a <= DataPoint.dailyGrowth q <= b) ->
  points !! i = Some p ->
  (exists y, rollingAverageData7Day (derivativeData points) !! i
             = Some (DataPoint.date p, y) /\ a <= y <= b)
  /\ (exists y, rollingAverageData30Day (derivativeData points) !! i
                = Some (DataPoint.date p, y) /\ a <= y <= b).
Proof.
  intros Hall Hp. split; by apply rollingAverage_between.
Qed.

Lemma rolling_averages_stay_within_the_growth_range_witness :
  exists y, rollingAverageData7Day (derivativeData (dataPoints historyGrowth)) !! 2%nat
            = Some (2 * day, y) /\ 10 <= y <= 30.
Proof.
  eapply proj1.
  refine (rolling_averages_stay_within_the_growth_range (dataPoints historyGrowth)
            10 30 2 (DataPoint.mk (2 * day) 60 30 []) _ _); [|reflexivity].
  intros q Hq. vm_compute in Hq.
  repeat (apply elem_of_cons in Hq as [->|Hq]; [simpl; lia|]).
  by apply elem_of_nil in Hq.
Defined.

(** X16: over the first seven data points the 7-day and the 30-day average
    are the same, both being the mean of all growth values so far; they can
    differ from the eighth point on only. *)
Theorem rolling_averages_agree_on_the_first_week (derivative : list (Z * Z)) (i : nat) :
  (i <= 6)%nat ->
  rollingAverageData7Day derivative !! i = rollingAverageData30Day derivative !! i
  /\ rollingAverageData7Day derivative !! i
     = (fun item =>
          (fst item,
           round_div (foldl Z.add 0 (map snd (take (i + 1) derivative)))
                     (Z.of_nat (i + 1))))
       <$> derivative !! i.
Proof.
  intros Hi. unfold rollingAverageData7Day, rollingAverageData30Day, rollingAverage,
    windowSize7Day, windowSize30Day.
  rewrite !list_lookup_imap.
  destruct (derivative !! i) as [item|] eqn:Hitem; [|done]. simpl.
  pose proof (lookup_lt_Some _ _ _ Hitem) as Hlt.
  replace (Z.max 0 (Z.of_nat i - 7 + 1)) with 0 by lia.
  replace (Z.max 0 (Z.of_nat i - 30 + 1)) with 0 by lia.
  split; [done|]. unfold slice. replace (Z.to_nat 0) with 0%nat by done.
  rewrite drop_0, Nat.sub_0_r, length_map, length_take.
  replace (Nat.min (i + 1) (length derivative)) with (i + 1)%nat by lia.
  destruct (Nat.ltb_spec 0 (i + 1)) as [_|?]; [done|lia].
Qed.

Lemma rolling_averages_agree_on_the_first_week_witness :
  rollingAverageData7Day (derivativeData (dataPoints historyGrowth)) !! 2%nat
  = rollingAverageData30Day (derivativeData (dataPoints historyGrowth)) !! 2%nat.
Proof.
  eapply proj1.
  refine (rolling_averages_agree_on_the_first_week _ 2 _). lia.
Defined.

(** ** More on the current version *)

Lemma tagPoint_None carried p :
  tagPoint carried p = None ->
  carried = None /\ keys (DataPoint.versions p) = [].
Proof.
  destruct (decide (keys (DataPoint.versions p) = [])) as [Hnil|Hne].
  - rewrite tagPoint_no_keys by done. done.
  - rewrite tagPoint_keys by done.
    destruct (newestVersion_greatest _ Hne) as (v & Hv & _). rewrite Hv.
    destruct carried as [u|]; simpl; [|done].
    by destruct (_ || _).
Qed.

Lemma tagPoint_Some carried p v :
  tagPoint carried p = Some v ->
  carried = Some v \/ v ∈ keys (DataPoint.versions p).
Proof.
  destruct (decide (keys (DataPoint.versions p) = [])) as [Hnil|Hne].
  - rewrite tagPoint_no_keys by done. by left.
  - rewrite tagPoint_keys by done. destruct (_ || _); [|by left].
    intros Hv. right. by eapply head_sort_by_elem.
Qed.

Lemma tagPoints_origin points carried i t :
  tagPoints carried points !! i = Some t ->
  match t with
  | Some v =>
      carried = Some v
      \/ exists j q, (j <= i)%nat /\ points !! j = Some q
           /\ v ∈ keys (DataPoint.versions q)
  | None =>
      carried = None
      /\ forall j q, (j <= i)%nat -> points !! j = Some q ->
           keys (DataPoint.versions q) = []
  end.
Proof.
  revert carried i. induction points as [|p rest IH]; intros carried i; [done|].
  destruct i as [|i]; simpl.
  - intros [= <-]. destruct (tagPoint carried p) as [v|] eqn:Ht.
    + destruct (tagPoint_Some _ _ _ Ht) as [|Hin]; [by left|].
      right. exists 0%nat, p. done.
    + destruct (tagPoint_None _ _ Ht) as [-> Hnil]. split; [done|].
      intros j q Hj Hq. assert (j = 0%nat) as -> by lia. by injection Hq as <-.
  - intros Ht. specialize (IH _ _ Ht). destruct t as [v|].
    + destruct IH as [Hc|(j & q & Hj & Hq & Hv)].
      * destruct (tagPoint_Some _ _ _ Hc) as [|Hin]; [by left|].
        right. exists 0%nat, p. split; [lia|done].
      * right. exists (S j), q. split; [lia|done].
    + destruct IH as [Hc Hall]. destruct (tagPoint_None _ _ Hc) as [-> Hnil].
      split; [done|]. intros [|j] q Hj Hq; simpl in Hq.
      * by injection Hq as <-.
      * eapply Hall; [|done]. lia.
Qed.

Lemma tagPoints_length carried points :
  length (tagPoints carried points) = length points.
Proof.
  revert carried. induction points as [|p rest IH]; intros carried; simpl; [done|].
  by rewrite IH.
Qed.

(** X17: there is one tag for each data point; the tag is null exactly as
    long as no data point so far has listed a version, and a tag that is not
    null is a version key of the data point or of an earlier one. *)
Theorem current_version_is_null_until_a_version_is_listed
    (points : list DataPoint.t) (i : nat) (p : DataPoint.t) :
  points !! i = Some p ->
  length (currentVersions points) = length points
  /\ exists tag, currentVersions points !! i = Some tag
       /\ (tag = None <->
           forall j q, (j <= i)%nat -> points !! j = Some q ->
             keys (DataPoint.versions q) = [])
       /\ forall v, tag = Some v ->
            exists j q, (j <= i)%nat /\ points !! j = Some q
              /\ v ∈ keys (DataPoint.versions q).
Proof.
  intros Hp. split; [apply tagPoints_length|].
  destruct (lookup_lt_is_Some_2 (currentVersions points) i) as [tag Htag].
  { unfold currentVersions. rewrite tagPoints_length. by eapply lookup_lt_Some. }
  exists tag. split; [done|].
  pose proof (tagPoints_origin points None i tag Htag) as Horigin.
  destruct tag as [v|].
  - destruct Horigin as [|(j & q & Hj & Hq & Hv)]; [done|]. split.
    + split; [done|]. intros Hall. rewrite (Hall j q Hj Hq) in Hv.
      by apply elem_of_nil in Hv.
    + intros v' [= <-]. by exists j, q.
  - destruct Horigin as [_ Hall]. split; [done|]. done.
Qed.

Lemma current_version_is_null_until_a_version_is_listed_witness :
  exists tag, currentVersions (dataPoints historyFourDays) !! 0%nat = Some tag
    /\ tag = None.
Proof.
  destruct (current_version_is_null_until_a_version_is_listed
              (dataPoints historyFourDays) 0 (DataPoint.mk 0 100 0 [])
              ltac:(reflexivity)) as (_ & tag & Htag & Hnone & _).
  exists tag. split; [exact Htag|]. apply Hnone.
  intros j q Hj Hq. assert (j = 0%nat) as -> by lia.
  vm_compute in Hq. by injection Hq as <-.
Defined.

(** ** The semantic order of the releases *)

Lemma component_beyond v j : (length (versionParts v) <= j)%nat -> component v j = 0.
Proof. intros H. unfold component. by apply num_or_zero_beyond. Qed.

Lemma compareVersions_cases localeCompare a b :
  ((forall j, component a j = component b j)
   /\ compareVersions localeCompare a b = tagOrder localeCompare a b)
  \/ exists k, (forall j, (j < k)%nat -> component a j = component b j)
       /\ component a k <> component b k
       /\ compareVersions localeCompare a b = component a k - component b k.
Proof.
  pose proof (comparePartsLoop_spec (versionParts a) (versionParts b) 0
                (Nat.max (length (versionParts a)) (length (versionParts b)))) as Hspec.
  destruct (comparePartsLoop _ _ _ _) as [r|] eqn:Hloop.
  - destruct Hspec as (k & Hk & Hbefore & Hdiff & ->). right. exists k.
    split; [intros j Hj; apply Hbefore; lia|]. split; [done|].
    unfold compareVersions. by rewrite Hloop.
  - left. assert (forall j, component a j = component b j) as Heq.
    { intros j. destruct (Nat.lt_ge_cases j
                  (Nat.max (length (versionParts a)) (length (versionParts b)))).
      - apply Hspec. lia.
      - rewrite !component_beyond; [done|lia|lia]. }
    split; [done|]. by rewrite compareVersions_equal_components.
Qed.

Lemma compareVersions_first_difference localeCompare a b k :
  (forall j, (j < k)%nat -> component a j = component b j) ->
  component a k <> component b k ->
  compareVersions localeCompare a b = component a k - component b k.
Proof.
  intros Hbefore Hdiff. unfold compareVersions.
  by rewrite (compareParts_first_difference _ _ k Hbefore Hdiff).
Qed.

Section Consistent.
Variable localeCompare : string -> string -> Z.
Hypothesis localeCompare_consistent : consistentComparator localeCompare.

Lemma tagOrder_total a b :
  tagOrder localeCompare a b <= 0 \/ tagOrder localeCompare b a <= 0.
Proof.
  destruct localeCompare_consistent as [Htotal _]. unfold tagOrder.
  destruct (includes_hyphen a), (includes_hyphen b); try lia. apply Htotal.
Qed.

Lemma tagOrder_trans a b c :
  tagOrder localeCompare a b <= 0 -> tagOrder localeCompare b c <= 0 ->
  tagOrder localeCompare a c <= 0.
Proof.
  destruct localeCompare_consistent as [_ Htrans]. unfold tagOrder.
  destruct (includes_hyphen a), (includes_hyphen b), (includes_hyphen c); try lia.
  apply Htrans.
Qed.

Lemma compareVersions_total a b :
  compareVersions localeCompare a b <= 0 \/ compareVersions localeCompare b a <= 0.
Proof.
  destruct (compareVersions_cases localeCompare a b)
    as [[Heq Hr]|(k & Hbefore & Hdiff & Hr)].
  - rewrite Hr, (compareVersions_equal_components localeCompare b a) by done.
    apply tagOrder_total.
  - rewrite Hr, (compareVersions_first_difference localeCompare b a k);
      [lia| |congruence].
    intros j Hj. symmetry. by apply Hbefore.
Qed.

Lemma compareVersions_trans a b c :
  compareVersions localeCompare a b <= 0 -> compareVersions localeCompare b c <= 0 ->
  compareVersions localeCompare a c <= 0.
Proof.
  destruct (compareVersions_cases localeCompare a b)
    as [[Hab Hr1]|(k1 & Hb1 & Hd1 & Hr1)];
    destruct (compareVersions_cases localeCompare b c)
      as [[Hbc Hr2]|(k2 & Hb2 & Hd2 & Hr2)];
    rewrite Hr1, Hr2; intros H1 H2.
  - rewrite (compareVersions_equal_components localeCompare a c)
      by (intros j; by rewrite Hab).
    by eapply tagOrder_trans.
  - rewrite (compareVersions_first_difference localeCompare a c k2).
    + rewrite Hab. lia.
    + intros j Hj. rewrite Hab. by apply Hb2.
    + by rewrite Hab.
  - rewrite (compareVersions_first_difference localeCompare a c k1).
    + rewrite <- Hbc. lia.
    + intros j Hj. rewrite <- Hbc. by apply Hb1.
    + by rewrite <- Hbc.
  - destruct (Nat.lt_trichotomy k1 k2) as [Hc|[->|Hc]].
    + rewrite (compareVersions_first_difference localeCompare a c k1).
      * rewrite <- (Hb2 k1 Hc). lia.
      * intros j Hj. rewrite Hb1, Hb2; [done|lia|done].
      * by rewrite <- (Hb2 k1 Hc).
    + rewrite (compareVersions_first_difference localeCompare a c k2).
      * lia.
      * intros j Hj. rewrite Hb1, Hb2; done.
      * lia.
    + rewrite (compareVersions_first_difference localeCompare a c k2).
      * rewrite (Hb1 k2 Hc). lia.
      * intros j Hj. rewrite Hb1, Hb2; [done|done|lia].
      * by rewrite (Hb1 k2 Hc).
Qed.

Lemma sortedReleases_in_order points :
  StronglySorted
    (fun r s => compareVersions localeCompare (Release.version r) (Release.version s) <= 0)
    (sortedReleases localeCompare points).
Proof.
  apply (sort_by_strongly_sorted (byVersion localeCompare)).
  - intros r s. apply compareVersions_total.
  - intros r s t. apply compareVersions_trans.
Qed.

End Consistent.

Lemma codeUnitCompare_total s t : codeUnitCompare s t <= 0 \/ codeUnitCompare t s <= 0.
Proof.
  revert t. induction s as [|c s IH]; intros [|d t]; simpl; try lia.
  destruct (Nat.ltb_spec (nat_of_ascii c) (nat_of_ascii d));
    destruct (Nat.ltb_spec (nat_of_ascii d) (nat_of_ascii c)); try lia.
  apply IH.
Qed.

Lemma codeUnitCompare_trans s t u :
  codeUnitCompare s t <= 0 -> codeUnitCompare t u <= 0 -> codeUnitCompare s u <= 0.
Proof.
  revert t u. induction s as [|c s IH]; intros [|d t] [|e u]; simpl; try lia.
  destruct (Nat.ltb_spec (nat_of_ascii c) (nat_of_ascii d));
    destruct (Nat.ltb_spec (nat_of_ascii d) (nat_of_ascii c));
    destruct (Nat.ltb_spec (nat_of_ascii d) (nat_of_ascii e));
    destruct (Nat.ltb_spec (nat_of_ascii e) (nat_of_ascii d));
    destruct (Nat.ltb_spec (nat_of_ascii c) (nat_of_ascii e));
    destruct (Nat.ltb_spec (nat_of_ascii e) (nat_of_ascii c)); try lia.
  apply IH.
Qed.

Lemma codeUnitCompare_consistent : consistentComparator codeUnitCompare.
Proof. split; [apply codeUnitCompare_total|apply codeUnitCompare_trans]. Qed.

(** X18: when the collation orders any two tags and is transitive, so does
    [compareVersions], and after the sort at line 160 no release is placed
    after a release that comes later in the array; the array holds the same
    releases as before the sort. *)
Theorem releases_are_in_semantic_order localeCompare (points : list DataPoint.t) :
  consistentComparator localeCompare ->
  consistentComparator (compareVersions localeCompare)
  /\ StronglySorted
       (fun r s =>
          compareVersions localeCompare (Release.version r) (Release.version s) <= 0)
       (sortedReleases localeCompare points)
  /\ sortedReleases localeCompare points ≡ₚ discoveredReleases points.
Proof.
  intros Hlc. split; [split|split].
  - by apply compareVersions_total.
  - by apply compareVersions_trans.
  - by apply sortedReleases_in_order.
  - apply sortedReleases_perm.
Qed.

Lemma releases_are_in_semantic_order_witness :
  StronglySorted
    (fun r s =>
       compareVersions codeUnitCompare (Release.version r) (Release.version s) <= 0)
    (sortedReleases codeUnitCompare (dataPoints historyBackport)).
Proof.
  eapply proj1. eapply proj2.
  refine (releases_are_in_semantic_order codeUnitCompare (dataPoints historyBackport) _).
  apply codeUnitCompare_consistent.
Defined.

(** ** The plugin identifier *)

Lemma lowerChar_facts c :
  is_upper (lowerChar c) = false
  /\ is_space (lowerChar c) = is_space c
  /\ (is_upper c = false -> lowerChar c = c)
  /\ (nat_of_ascii (lowerChar c) <? 128)%nat = (nat_of_ascii c <? 128)%nat.
Proof. destruct c as [[] [] [] [] [] [] [] []]; vm_compute; by repeat split. Qed.

Lemma asciiToLowerCase_no_upper s : noneOf is_upper (asciiToLowerCase s) = true.
Proof.
  induction s as [|c s IH]; simpl; [done|].
  destruct (lowerChar_facts c) as (-> & _). by rewrite IH.
Qed.

Lemma asciiToLowerCase_id s : noneOf is_upper s = true -> asciiToLowerCase s = s.
Proof.
  induction s as [|c s IH]; simpl; [done|].
  intros [Hc Hs]%andb_true_iff. apply negb_true_iff in Hc.
  destruct (lowerChar_facts c) as (_ & _ & Hid & _). by rewrite Hid, IH.
Qed.

Lemma asciiToLowerCase_isAscii s : isAscii (asciiToLowerCase s) = isAscii s.
Proof.
  induction s as [|c s IH]; simpl; [done|].
  destruct (lowerChar_facts c) as (_ & _ & _ & ->). by rewrite IH.
Qed.

Lemma asciiReplaceSpaceRuns_no_space inRun s :
  noneOf is_space (asciiReplaceSpaceRuns inRun s) = true.
Proof.
  revert inRun. induction s as [|c s IH]; intros inRun; simpl; [done|].
  destruct (is_space c) eqn:Hc; [destruct inRun|]; simpl; rewrite ?Hc; by rewrite ?IH.
Qed.

Lemma asciiReplaceSpaceRuns_no_upper inRun s :
  noneOf is_upper s = true -> noneOf is_upper (asciiReplaceSpaceRuns inRun s) = true.
Proof.
  revert inRun. induction s as [|c s IH]; intros inRun; simpl; [done|].
  intros [Hc Hs]%andb_true_iff.
  destruct (is_space c); [destruct inRun|]; simpl; rewrite ?Hc; by rewrite ?IH.
Qed.

Lemma asciiReplaceSpaceRuns_isAscii inRun s :
  isAscii s = true -> isAscii (asciiReplaceSpaceRuns inRun s) = true.
Proof.
  revert inRun. induction s as [|c s IH]; intros inRun; simpl; [done|].
  intros [Hc Hs]%andb_true_iff.
  destruct (is_space c); [destruct inRun|]; simpl; rewrite ?Hc; by rewrite ?IH.
Qed.

Lemma asciiReplaceSpaceRuns_id s :
  noneOf is_space s = true -> asciiReplaceSpaceRuns false s = s.
Proof.
  induction s as [|c s IH]; simpl; [done|].
  intros [Hc Hs]%andb_true_iff. apply negb_true_iff in Hc. by rewrite Hc, IH.
Qed.

Lemma asciiReplaceSpaceRuns_length inRun s :
  (String.length (asciiReplaceSpaceRuns inRun s) <= String.length s)%nat.
Proof.
  revert inRun. induction s as [|c s IH]; intros inRun; simpl; [done|].
  destruct (is_space c); [destruct inRun|]; simpl;
    [specialize (IH true)|specialize (IH true)|specialize (IH false)]; lia.
Qed.

Lemma asciiToLowerCase_length s : String.length (asciiToLowerCase s) = String.length s.
Proof. induction s as [|c s IH]; simpl; [done|]. by rewrite IH. Qed.

(** X19: for a plugin name of ASCII characters, the plugin identifier is an
    ASCII string with no white space and no upper-case letter, and is not
    longer than the name; a name that already has neither is its own
    identifier, so deriving the identifier of an identifier changes
    nothing. *)
Theorem pluginId_is_a_normal_form (pluginName : string) :
  isAscii pluginName = true ->
  exists id, pluginId pluginName = Some id
    /\ isAscii id = true
    /\ noneOf is_space id = true
    /\ noneOf is_upper id = true
    /\ (String.length id <= String.length pluginName)%nat
    /\ pluginId id = Some id
    /\ (noneOf is_space pluginName = true -> noneOf is_upper pluginName = true ->
        id = pluginName).
Proof.
  intros Hascii.
  assert (forall s, isAscii s = true -> noneOf is_space s = true ->
                    noneOf is_upper s = true -> pluginId s = Some s) as Hid.
  { intros s Ha Hs Hu. unfold pluginId. rewrite Ha, asciiToLowerCase_id by done.
    by rewrite asciiReplaceSpaceRuns_id. }
  unfold pluginId at 1. rewrite Hascii. eexists. split; [done|].
  set (id := asciiReplaceSpaceRuns false (asciiToLowerCase pluginName)).
  assert (isAscii id = true) as Ha
    by (apply asciiReplaceSpaceRuns_isAscii; by rewrite asciiToLowerCase_isAscii).
  assert (noneOf is_space id = true) as Hs by apply asciiReplaceSpaceRuns_no_space.
  assert (noneOf is_upper id = true) as Hu
    by apply asciiReplaceSpaceRuns_no_upper, asciiToLowerCase_no_upper.
  split; [done|]. split; [done|]. split; [done|]. split.
  - unfold id. etrans; [apply asciiReplaceSpaceRuns_length|].
    by rewrite asciiToLowerCase_length.
  - split; [by apply Hid|]. intros Hs' Hu'.
    unfold id. rewrite asciiToLowerCase_id by done. by apply asciiReplaceSpaceRuns_id.
Qed.

Lemma pluginId_is_a_normal_form_witness :
  exists id, pluginId "My  Cool Plugin" = Some id /\ id = "my-cool-plugin".
Proof.
  destruct (pluginId_is_a_normal_form "My  Cool Plugin" eq_refl) as (id & Hid & _).
  exists id. split; [exact Hid|].
  vm_compute in Hid. by injection Hid as <-.
Defined.

Example pluginId_sample :
  pluginId "My  Cool Plugin" = Some "my-cool-plugin"
  /\ inputFile "My  Cool Plugin" = Some "my-cool-plugin-history.json"
  /\ outputHtmlFile "Release Chart" = Some "release-chart-downloads-chart.html"
  /\ outputCssFile "Release Chart" = Some "release-chart-downloads-chart.css".
Proof. by repeat split. Qed.

(** ** The outputs side by side *)

Lemma StronglySorted_map {A B : Type} (R : B -> B -> Prop) (f : A -> B) (l : list A) :
  StronglySorted (fun a b => R (f a) (f b)) l -> StronglySorted R (map f l).
Proof.
  induction 1 as [|x l Hl IH Hall]; simpl; constructor; [done|].
  by apply Forall_fmap.
Qed.

(** X20: when the script completes, the dates, the totals, the current
    versions, the growth values and the two rolling averages all have one
    entry per entry of the history file, the dates ascend, and entry [i] of
    each describes the same data point. *)
Theorem outputs_are_parallel localeCompare (h : History) (out : ChartData) :
  chartData localeCompare h = Normal out ->
  length (cdDates out) = length h
  /\ length (cdDownloadCounts out) = length h
  /\ length (cdCurrentVersions out) = length h
  /\ length (cdDerivativeData out) = length h
  /\ length (cdRollingAverage7Day out) = length h
  /\ length (cdRollingAverage30Day out) = length h
  /\ StronglySorted Z.le (cdDates out)
  /\ forall i p, dataPoints h !! i = Some p ->
       cdDates out !! i = Some (DataPoint.date p)
       /\ cdDownloadCounts out !! i = Some (DataPoint.downloads p)
       /\ cdDerivativeData out !! i = Some (DataPoint.date p, DataPoint.dailyGrowth p)
       /\ fst <$> cdRollingAverage7Day out !! i = Some (DataPoint.date p)
       /\ fst <$> cdRollingAverage30Day out !! i = Some (DataPoint.date p).
Proof.
  intros (_ & Hd & Hc & Ht & Hg & _ & H7 & H30)%chartData_Normal_inv.
  rewrite Hd, Hc, Ht, Hg, H7, H30.
  unfold rollingAverageData7Day, rollingAverageData30Day, currentVersions.
  rewrite !rollingAverage_length, tagPoints_length.
  unfold derivativeData at 1 2 3, downloadCounts at 1.
  rewrite !length_map, dataPoints_length.
  repeat (split; [done|]). split.
  - apply StronglySorted_map, dataPoints_by_date.
  - intros i p Hp. split; [|split; [|split]].
    + change (map ?f ?l) with (f <$> l). by rewrite list_lookup_fmap, Hp.
    + unfold downloadCounts. change (map ?f ?l) with (f <$> l).
      by rewrite list_lookup_fmap, Hp.
    + by apply derivativeData_lookup.
    + unfold rollingAverage. rewrite !list_lookup_imap.
      by rewrite (derivativeData_lookup _ _ _ Hp).
Qed.

Lemma outputs_are_parallel_witness :
  exists out, chartData codeUnitCompare historyFourDays = Normal out
    /\ length (cdCurrentVersions out) = 4%nat.
Proof.
  eexists. split; [vm_compute; reflexivity|].
  eapply proj1. eapply proj2. eapply proj2.
  refine (outputs_are_parallel codeUnitCompare historyFourDays _ _).
  vm_compute. reflexivity.
Defined.

(** X21: the annotation of a release sits on the release's own data point:
    the date and the total at the release's index are the release's date and
    downloads, so [dates[release.index]] is never undefined. *)
Theorem release_annotation_is_at_its_date localeCompare h out i vr :
  chartData localeCompare h = Normal out ->
  cdVersionReleases out !! i = Some vr ->
  (Release.index (release vr) < length (cdDates out))%nat
  /\ cdDates out !! Release.index (release vr) = Some (Release.date (release vr))
  /\ cdDownloadCounts out !! Release.index (release vr)
     = Some (Release.downloads (release vr))
  /\ length (cdVersionReleases out)
     = length (discoveredReleases (dataPoints h)).
Proof.
  intros Hout Hi.
  destruct (chartData_release _ _ _ _ _ Hout Hi) as (_ & (p & Hp & Hd & Ht & _) & _).
  apply chartData_Normal_inv in Hout as (_ & Hdates & Hcounts & _ & _ & Hm & _).
  rewrite Hdates, Hcounts. unfold downloadCounts.
  change (map ?f ?l) with (f <$> l). rewrite !list_lookup_fmap, Hp. simpl.
  split; [rewrite length_fmap; by eapply lookup_lt_Some|].
  split; [by rewrite Hd|]. split; [by rewrite Ht|].
  rewrite (withMetrics_length _ _ _ Hm). apply sort_by_length.
Qed.

Lemma release_annotation_is_at_its_date_witness :
  exists out vr, chartData codeUnitCompare historyFourDays = Normal out
    /\ cdVersionReleases out !! 1%nat = Some vr
    /\ cdDates out !! Release.index (release vr) = Some (Release.date (release vr)).
Proof.
  do 2 eexists. split; [vm_compute; reflexivity|]. split; [reflexivity|].
  eapply proj1. eapply proj2.
  refine (release_annotation_is_at_its_date codeUnitCompare historyFourDays _ 1%nat _ _ _);
    vm_compute; reflexivity.
Defined.

(** ** Edge cases of the data stage *)

(** X22: the sort at line 53 is stable: a history whose timestamps already
    ascend keeps its order, entries with equal timestamps included, so its
    data points are the entries' data points one by one. *)
Theorem ordered_history_keeps_its_order (h : History) :
  Sorted Z.le (map fst h) ->
  dataPoints h = map toDataPoint h
  /\ map DataPoint.date (dataPoints h) = map fst h
  /\ forall i e, h !! i = Some e -> dataPoints h !! i = Some (toDataPoint e).
Proof.
  intros Hs. pose proof (dataPoints_of_sorted_history h Hs) as Heq.
  split; [done|]. rewrite Heq. split.
  - rewrite map_map. apply map_ext. by intros [t d].
  - intros i e He. change (map toDataPoint h) with (toDataPoint <$> h).
    rewrite (list_lookup_fmap toDataPoint h i). unfold History in *. by rewrite He.
Qed.

Lemma ordered_history_keeps_its_order_witness :
  dataPoints [(5, record 1 []); (5, record 2 []); (7, record 3 [])]
  = map toDataPoint [(5, record 1 []); (5, record 2 []); (7, record 3 [])].
Proof.
  eapply proj1.
  refine (ordered_history_keeps_its_order
            [(5, record 1 []); (5, record 2 []); (7, record 3 [])] _).
  simpl. repeat constructor; lia.
Defined.

Lemma no_version_keys_no_releases (points : list DataPoint.t) :
  (forall p, p ∈ points -> keys (DataPoint.versions p) = []) ->
  discoveredReleases points = [].
Proof.
  intros Hnone. destruct (discoveredReleases points) as [|r rels] eqn:Hd; [done|].
  exfalso. destruct (discoveredReleases_seenAt points r) as (p & Hp & _ & _ & Hv).
  { rewrite Hd. left. }
  rewrite (Hnone p) in Hv; [by apply elem_of_nil in Hv|].
  by eapply list_elem_of_lookup_2.
Qed.

(** X23: a non-empty history in which no record has a version key still
    goes through when its keys are timestamps: the script completes with no
    release, every data point tagged null, and no dataset of a version and no
    dataset "Initial".  When a key is not a valid date, the script throws the
    RangeError of line 85 instead. *)
Theorem history_without_versions localeCompare (h : History) :
  h <> [] ->
  (forall e k, e ∈ h -> k ∈ keys (snd e) -> versionKey k = false) ->
  (timestampKeyed h = true ->
   exists out,
     chartData localeCompare h = Normal out
     /\ cdVersionReleases out = []
     /\ Forall (fun tag => tag = None) (cdCurrentVersions out)
     /\ versionDatasets (dataPoints h) (sortedReleases localeCompare (dataPoints h))
        = Some [])
  /\ (timestampKeyed h = false ->
      chartData localeCompare h = Throw (RangeError "Invalid time value")).
Proof.
  intros Hne Hres. split; [|apply chartData_invalid_date].
  intros Hvalid.
  assert (forall p, p ∈ dataPoints h -> keys (DataPoint.versions p) = []) as Hnone.
  { intros p Hp. rewrite dataPoints_perm in Hp.
    apply list_elem_of_fmap in Hp as (e & -> & He).
    destruct (keys (DataPoint.versions (toDataPoint e))) as [|k ks] eqn:Hk; [done|].
    exfalso. assert (k ∈ keys (DataPoint.versions (toDataPoint e))) as Hin
      by (rewrite Hk; left).
    apply keys_versions_toDataPoint in Hin as [Hin Hnot].
    rewrite (Hres e k He Hin) in Hnot. done. }
  assert (sortedReleases localeCompare (dataPoints h) = []) as Hrels.
  { unfold sortedReleases. by rewrite (no_version_keys_no_releases _ Hnone). }
  destruct (chartData_nonempty localeCompare h Hne Hvalid) as [out Hout].
  exists out. split; [done|].
  pose proof (chartData_Normal_inv _ _ _ Hout) as (_ & _ & _ & Ht & _ & Hm & _).
  split; [|split].
  - apply withMetrics_length in Hm. rewrite Hrels in Hm.
    by destruct (cdVersionReleases out).
  - rewrite Ht. apply Forall_forall. intros tag Htag.
    apply list_elem_of_lookup in Htag as [i Hi].
    pose proof (tagPoints_origin _ _ _ _ Hi) as Ho.
    destruct tag as [v|]; [|done].
    destruct Ho as [|(j & q & _ & Hq & Hv)]; [done|].
    rewrite (Hnone q) in Hv; [by apply elem_of_nil in Hv|].
    by eapply list_elem_of_lookup_2.
  - by rewrite Hrels.
Qed.

Lemma history_without_versions_witness :
  (exists out,
     chartData codeUnitCompare historyNoGrowth = Normal out
     /\ cdVersionReleases out = [])
  /\ chartData codeUnitCompare [(8640000000000001, [("downloads", JNum 1)])]
     = Throw (RangeError "Invalid time value").
Proof.
  split.
  - destruct (history_without_versions codeUnitCompare historyNoGrowth)
      as [Hrun _].
    + discriminate.
    + intros e k He Hk. vm_compute in He.
      repeat (apply elem_of_cons in He as [->|He];
              [vm_compute in Hk;
               repeat (apply elem_of_cons in Hk as [->|Hk]; [reflexivity|]);
               by apply elem_of_nil in Hk|]).
      by apply elem_of_nil in He.
    + destruct (Hrun eq_refl) as (out & Hout & Hrels & _). by exists out.
  - reflexivity.
Defined.

(** X24: for a release that is not superseded at its own index,
    [durationDays] is the period in days to the nearest day: it is 1 when
    the period is shorter than half a day, and otherwise differs from the
    period by at most half a day. *)
Theorem durationDays_is_the_period_in_days localeCompare h out i vr :
  chartData localeCompare h = Normal out ->
  cdVersionReleases out !! i = Some vr ->
  supersededAt (sortedReleases localeCompare (dataPoints h)) i
    (Release.index (release vr)) = false ->
  let period :=
    periodMs (dataPoints h) (sortedReleases localeCompare (dataPoints h)) (release vr) in
  0 <= period
  /\ (2 * period < msPerDay -> durationDays vr = 1)
  /\ (msPerDay <= 2 * period ->
      2 * Z.abs (durationDays vr * msPerDay - period) <= msPerDay)
  /\ avgDailyGrowth vr = round_div (downloadChange vr) (durationDays vr).
Proof.
  intros Hout Hi Hs period.
  destruct (chartData_release _ _ _ _ _ Hout Hi) as (_ & Hseen & Hvr).
  pose proof (periodMs_nonneg h (sortedReleases localeCompare (dataPoints h)) _ Hseen)
    as Hpos. fold period in Hpos.
  destruct Hseen as (p & Hp & _).
  rewrite (releaseMetrics_active _ _ _ _ _ Hs Hp) in Hvr. fold period in Hvr.
  injection Hvr as <-. simpl. split; [done|].
  pose proof (round_div_nearest period msPerDay eq_refl) as Hnear.
  assert (0 < msPerDay) as HD by done.
  assert (round_div period msPerDay * (2 * msPerDay) <= 2 * period + msPerDay
          < (round_div period msPerDay + 1) * (2 * msPerDay)) as Hdiv.
  { unfold round_div.
    pose proof (Z.mul_div_le (2 * period + msPerDay) (2 * msPerDay) ltac:(lia)).
    pose proof (Z.mul_succ_div_gt (2 * period + msPerDay) (2 * msPerDay) ltac:(lia)).
    lia. }
  split; [|split; [|done]].
  - intros Hshort. assert (round_div period msPerDay < 1) by nia. lia.
  - intros Hlong. assert (1 <= round_div period msPerDay) by nia.
    rewrite Z.max_r by lia. lia.
Qed.

Lemma durationDays_is_the_period_in_days_witness :
  exists out vr,
    chartData codeUnitCompare historyFourDays = Normal out
    /\ cdVersionReleases out !! 0%nat = Some vr
    /\ 0 <= periodMs (dataPoints historyFourDays)
              (sortedReleases codeUnitCompare (dataPoints historyFourDays)) (release vr).
Proof.
  do 2 eexists. split; [vm_compute; reflexivity|]. split; [reflexivity|].
  eapply proj1.
  refine (durationDays_is_the_period_in_days codeUnitCompare historyFourDays _ 0%nat _
            _ _ _); vm_compute; reflexivity.
Defined.
